(** * watermark-extractor: clip timeline, frame sampler, ROI store, OCR aggregator

    A shallow embedding of [src/video_processor.py] and [src/ocr_processor.py]
    together with the properties the specification states about them.

    Conventions of the embedding.
    - Python [int] is [Z]; [Optional[int]] is [option Z].
    - Python [float] values are embedded as exact rationals [Q]: comparison,
      [min], [max] and sorting of finite floats are exact under this
      embedding, and arithmetic is taken without rounding.  Statements about
      computed times therefore use [==] (equality of rationals).
    - A function that can raise returns a [result]; a function that mutates
      an argument returns the argument's final state next to its result.
    - Calls that leave the process (ffmpeg, the decoder, the OCR engine) are
      answered by an oracle passed as an argument and recorded in a trace. *)

From Stdlib Require Import ZArith QArith Qround Lqa Lia.
From Stdlib Require Import Sorting.Sorted Sorting.Permutation.
From Stdlib Require Import Ascii String DecimalString.
From stdpp Require Import base list gmap strings.

Local Open Scope Z_scope.

(** ** Python primitives *)

Module Py.

(** The exceptions the two modules raise. *)
Inductive exn : Type :=
| ValueError (msg : string)
| IndexError (msg : string)
| RuntimeError (msg : string)
| AppError (msg : string) (internal_message : string).

Inductive result (A : Type) : Type :=
| Ok (a : A)
| Raise (e : exn).
Arguments Ok {A} a.
Arguments Raise {A} e.

Definition is_value_error {A} (r : result A) : Prop :=
  match r with Raise (ValueError _) => True | _ => False end.

Definition is_index_error {A} (r : result A) : Prop :=
  match r with Raise (IndexError _) => True | _ => False end.

(** [float] and its comparisons. *)
Abbreviation float := Q (only parsing).

Definition flt (x y : float) : bool := (Qnum x * QDen y <? Qnum y * QDen x)%Z.
Definition fle (x y : float) : bool := (Qnum x * QDen y <=? Qnum y * QDen x)%Z.

(** [sorted(xs)]: a stable sort that only asks [<] of the elements. *)
Fixpoint insort {A} (lt : A -> A -> bool) (x : A) (l : list A) : list A :=
  match l with
  | [] => [x]
  | y :: l' => if lt x y then x :: y :: l' else y :: insort lt x l'
  end.

Definition sorted {A} (lt : A -> A -> bool) (l : list A) : list A :=
  fold_left (fun acc x => insort lt x acc) l [].

(** [min(xs)] and [max(xs)]: the first element is the candidate, a later
    one replaces it when strictly smaller (larger); an empty argument is an
    error. *)
Definition min_from (x : float) (l : list float) : float :=
  fold_left (fun best y => if flt y best then y else best) l x.

Definition max_from (x : float) (l : list float) : float :=
  fold_left (fun best y => if flt best y then y else best) l x.

Definition min (l : list float) : result float :=
  match l with
  | [] => Raise (ValueError "min() arg is an empty sequence")
  | x :: l' => Ok (min_from x l')
  end.

Definition max (l : list float) : result float :=
  match l with
  | [] => Raise (ValueError "max() arg is an empty sequence")
  | x :: l' => Ok (max_from x l')
  end.

(** [str.strip()]: drops leading and trailing whitespace.  A [string] is a
    sequence of code points below 256; these are the ones for which
    [str.isspace()] holds. *)
Definition is_space (c : ascii) : bool :=
  let n := N_of_ascii c in
  ((9 <=? n) && (n <=? 13) || (28 <=? n) && (n <=? 32)
   || (n =? 133) || (n =? 160))%N.

Fixpoint lstrip (s : string) : string :=
  match s with
  | EmptyString => EmptyString
  | String c s' => if is_space c then lstrip s' else s
  end.

Fixpoint rstrip (s : string) : string :=
  match s with
  | EmptyString => EmptyString
  | String c s' =>
      match rstrip s' with
      | EmptyString => if is_space c then EmptyString else String c EmptyString
      | r => String c r
      end
  end.

Definition strip (s : string) : string := rstrip (lstrip s).

(** Truthiness of a [str]. *)
Definition truthy_str (s : string) : bool :=
  match s with EmptyString => false | _ => true end.

(** [str(n)] for an [int]. *)
Definition str_int (n : Z) : string := NilZero.string_of_int (Z.to_int n).

End Py.
Export Py.

(** ** [re.finditer(r"pts_time:(\d+\.\d+)", report)] and [float(m.group(1))] *)

Module Re.

Definition is_digit (c : ascii) : bool :=
  let n := N_of_ascii c in ((48 <=? n) && (n <=? 57))%N.

(** The longest run of digits at the head of [s], and what follows it. *)
Fixpoint span_digits (s : string) : list ascii * string :=
  match s with
  | String c s' =>
      if is_digit c then let (ds, r) := span_digits s' in (c :: ds, r)
      else ([], s)
  | EmptyString => ([], EmptyString)
  end.

Fixpoint strip_prefix (p s : string) : option string :=
  match p, s with
  | EmptyString, _ => Some s
  | String a p', String b s' =>
      if Ascii.eqb a b then strip_prefix p' s' else None
  | String _ _, EmptyString => None
  end.

Definition digit_value (c : ascii) : Z := Z.of_N (N_of_ascii c) - 48.

Definition digits_value (ds : list ascii) : Z :=
  fold_left (fun acc c => 10 * acc + digit_value c) ds 0.

(** [float("<ip>.<fp>")], exactly. *)
Definition decimal_value (ip fp : list ascii) : float :=
  Qmake (digits_value (ip ++ fp)) (Z.to_pos (10 ^ Z.of_nat (List.length fp))).

(** A match of the pattern anchored at the head of [s]: the value of the
    group and the number of characters matched.  [\d+] is greedy, and giving
    digits back can never expose the dot, so no backtracking is needed. *)
Definition match_pts (s : string) : option (float * nat) :=
  match strip_prefix "pts_time:" s with
  | None => None
  | Some r =>
      match span_digits r with
      | ((_ :: _) as ip, String "."%char r') =>
          match span_digits r' with
          | ((_ :: _) as fp, _) =>
              Some (decimal_value ip fp,
                    (9 + List.length ip + 1 + List.length fp)%nat)
          | ([], _) => None
          end
      | _ => None
      end
  end.

(** Leftmost non-overlapping matches: after a match of [n] characters the
    scan resumes behind it, otherwise one character further. *)
Fixpoint finditer_from (skip : nat) (s : string) : list float :=
  match s with
  | EmptyString => []
  | String _ s' =>
      match skip with
      | S k => finditer_from k s'
      | O =>
          match match_pts s with
          | Some (v, n) => v :: finditer_from (n - 1) s'
          | None => finditer_from 0 s'
          end
      end
  end.

Definition pts_times (report : string) : list float := finditer_from 0 report.

End Re.

(** ** Images and the world outside the process *)

Module Np.

(** A BGR image: [shape = (height, width, 3)]. *)
Record ndarray : Type := {
  height : nat;
  width : nat;
  pixel : nat -> nat -> Z * Z * Z
}.

Definition size (a : ndarray) : Z := Z.of_nat (height a * width a * 3).

(** Bounds of the slice [lo:hi] of a sequence of length [n]: a negative
    index counts from the end, and both are clamped into [0, n]. *)
Definition slice_index (n i : Z) : Z :=
  if i <? 0 then Z.max (i + n) 0 else Z.min i n.

Definition slice_start (n lo : Z) : nat := Z.to_nat (slice_index n lo).

Definition slice_len (n lo hi : Z) : nat :=
  Z.to_nat (slice_index n hi - slice_index n lo).

(** [a[y0:y1, x0:x1]]. *)
Definition crop (a : ndarray) (y0 y1 x0 x1 : Z) : ndarray :=
  let h := Z.of_nat (height a) in
  let w := Z.of_nat (width a) in
  {| height := slice_len h y0 y1;
     width := slice_len w x0 x1;
     pixel := fun r c =>
       pixel a (slice_start h y0 + r)%nat (slice_start w x0 + c)%nat |}.

End Np.

Module Ext.

Import Np.

(** Outcome of [subprocess.run(..., check=True)]. *)
Inductive completed : Type :=
| Exit0 (stderr : string)
| CalledProcessError (stderr : string).

(** What [pytesseract.image_to_data] does with the grayscale of a crop:
    the ["text"] and ["conf"] columns (a [conf] is [None] when [float()]
    rejects it), or one of the two failures the caller tells apart. *)
Inductive ocr_reply : Type :=
| Data (texts : list string) (confs : list (option float))
| TesseractNotFoundError
| EngineException (msg : string).

(** The calls that leave the process, in the order they are made. *)
Inductive event : Type :=
| Mkdtemp
| FfmpegTrim (ss to_ : float) (input output : string)
| CaptureOpen (path : string)
| CaptureSet (msec : float)
| CaptureRead
| CaptureRelease
| ImageToData (crop : ndarray).

(** The answers of the outside world. *)
Record world : Type := {
  mkdtemp : string;
  ffmpeg_scene : string -> float -> completed;
  ffmpeg_trim : float -> float -> string -> string -> completed;
  is_opened : string -> bool;
  (** the [k]-th [read()] of a capture on [path], after seeking to [msec] *)
  capture_read : string -> nat -> float -> option ndarray;
  image_to_data : ndarray -> ocr_reply
}.

(** [os.path.join(a, b)] on a POSIX system. *)
Definition path_join (a b : string) : string :=
  match b with
  | String "/"%char _ => b
  | _ =>
      match a with
      | EmptyString => b
      | _ =>
          if String.eqb (String.substring (String.length a - 1) 1 a) "/"
          then a ++ b else a ++ "/" ++ b
      end
  end.

End Ext.

(** ** [src/video_handler.py]: the [Video] value object *)

Module VideoHandler.

Record Video : Type := {
  video_id : option Z;
  source_type : string;
  source_path : string;
  original_url : option string;
  duration : float;
  resolution : Z * Z;
  import_timestamp : string
}.

End VideoHandler.

(** ** [src/video_processor.py] *)

Module VideoProcessor.

Import VideoHandler Ext.

(** [Clip]; [video_id] is whatever the caller passes, [detect_clips] passes
    the video's optional identity. *)
Record Clip : Type := {
  clip_id : option Z;
  video_id : option Z;
  start_time : float;
  end_time : float;
  file_path : option string
}.

(** [Clip(video_id, start_time, end_time)]: identity unassigned, no file. *)
Definition Clip_init (vid : option Z) (s e : float) : Clip :=
  {| clip_id := None; video_id := vid; start_time := s; end_time := e;
     file_path := None |}.

(** The [for t in pts_times] loop followed by the final [append]. *)
Fixpoint clips_loop (vid : option Z) (dur : float) (pts : list float)
    (prev : float) (clips : list Clip) : list Clip :=
  match pts with
  | [] => clips ++ [Clip_init vid prev dur]
  | t :: pts' => clips_loop vid dur pts' t (clips ++ [Clip_init vid prev t])
  end.

(** [detect_clips(video, scene_threshold)]; [ffmpeg_scene w path threshold]
    answers the scene-detection run. *)
Definition detect_clips (w : world) (video : Video)
    (scene_threshold : float) : result (list Clip) :=
  if negb (flt 0%Q scene_threshold && flt scene_threshold 1%Q) then
    Raise (ValueError "scene_threshold must be between 0.0 and 1.0")
  else
    match ffmpeg_scene w (source_path video) scene_threshold with
    | CalledProcessError err => Raise (AppError "Scene detection failed." err)
    | Exit0 report =>
        let pts_times := sorted flt (Re.pts_times report) in
        Ok (clips_loop (VideoHandler.video_id video) (duration video)
              pts_times 0%Q [])
    end.

(** *** Editing a clip list

    [Clip] defines no [__eq__], so [list.remove] compares by identity.  A
    clip list is a Python list of distinct [Clip] objects; during a call an
    object is named by the position it had in the list when the call
    started. *)

Abbreviation clip_obj := (nat * Clip)%type (only parsing).

Definition objects (clips : list Clip) : list clip_obj :=
  imap (fun i c => (i, c)) clips.

(** [{clip.clip_id: clip for clip in clips}]: a later clip replaces an
    earlier one under the same key. *)
Definition id_map (objs : list clip_obj) : gmap (option Z) clip_obj :=
  fold_left (fun m o => <[clip_id o.2 := o]> m) objs ∅.

(** [list.remove(x)]: drops the first occurrence, [None] when there is
    none (Python raises [ValueError]). *)
Fixpoint list_remove (o : clip_obj) (l : list clip_obj)
    : option (list clip_obj) :=
  match l with
  | [] => None
  | x :: l' =>
      if decide (x.1 = o.1) then Some l'
      else (fun r => x :: r) <$> list_remove o l'
  end.

(** [for clip in selected: clips.remove(clip)], on the list it has reached. *)
Fixpoint remove_selected (selected : list clip_obj) (l : list clip_obj)
    : result unit * list clip_obj :=
  match selected with
  | [] => (Ok (), l)
  | o :: selected' =>
      match list_remove o l with
      | None => (Raise (ValueError "list.remove(x): x not in list"), l)
      | Some l' => remove_selected selected' l'
      end
  end.

(** [merge_clips(clips, clip_ids_to_merge)]: the result and the final
    contents of [clips]. *)
Definition merge_clips (clips : list Clip) (clip_ids_to_merge : list Z)
    : result Clip * list Clip :=
  if bool_decide (clip_ids_to_merge = [])
     || negb (bool_decide (sorted Z.ltb clip_ids_to_merge = clip_ids_to_merge))
  then
    (Raise (ValueError "clip_ids_to_merge must be a sorted, non-empty list"),
     clips)
  else
    let id_map := id_map (objects clips) in
    if negb (forallb (fun cid => bool_decide (is_Some (id_map !! Some cid)))
               clip_ids_to_merge)
    then (Raise (ValueError "Some clip IDs not found"), clips)
    else
      let selected :=
        omap (fun cid => id_map !! Some cid) clip_ids_to_merge in
      let video_ids : gset (option Z) :=
        list_to_set ((fun o => video_id o.2) <$> selected) in
      if negb (bool_decide (size video_ids = 1%nat)) then
        (Raise (ValueError "Clips must have the same video_id"), clips)
      else
        match min ((fun o => start_time o.2) <$> selected) with
        | Raise e => (Raise e, clips)
        | Ok start =>
            match max ((fun o => end_time o.2) <$> selected) with
            | Raise e => (Raise e, clips)
            | Ok end_ =>
                match remove_selected selected (objects clips) with
                | (Raise e, l) => (Raise e, snd <$> l)
                | (Ok _, l) =>
                    match selected with
                    | [] =>
                        (Raise (IndexError "list index out of range"),
                         snd <$> l)
                    | first :: _ =>
                        let merged :=
                          Clip_init (video_id first.2) start end_ in
                        (Ok merged, (snd <$> l) ++ [merged])
                    end
                end
            end
        end.

(** [split_clip(clips, clip_id_to_split, split_time)]: the result and the
    final contents of [clips]. *)
Definition split_clip (clips : list Clip) (clip_id_to_split : Z)
    (split_time : float) : result (Clip * Clip) * list Clip :=
  let target :=
    head (filter (fun o => clip_id o.2 = Some clip_id_to_split)
            (objects clips)) in
  match target with
  | None =>
      (Raise (ValueError ("Clip ID " ++ str_int clip_id_to_split
                            ++ " not found")), clips)
  | Some target =>
      if negb (flt (start_time target.2) split_time
               && flt split_time (end_time target.2))
      then
        (Raise (ValueError "split_time must be within the bounds of the clip"),
         clips)
      else
        match list_remove target (objects clips) with
        | None =>
            (Raise (ValueError "list.remove(x): x not in list"), clips)
        | Some l =>
            let new1 := Clip_init (video_id target.2)
                          (start_time target.2) split_time in
            let new2 := Clip_init (video_id target.2)
                          split_time (end_time target.2) in
            (Ok (new1, new2), (snd <$> l) ++ [new1; new2])
        end
  end.

(** *** Frame sampling *)

Module FrameBatch.

Record t : Type := {
  clip_id : Z;
  frames : list Np.ndarray;
  timestamps : list float
}.

(** [FrameBatch(clip_id)] *)
Definition init (cid : Z) : t :=
  {| clip_id := cid; frames := []; timestamps := [] |}.

Definition add_frame (b : t) (frame : Np.ndarray) (timestamp : float) : t :=
  {| clip_id := clip_id b;
     frames := frames b ++ [frame];
     timestamps := timestamps b ++ [timestamp] |}.

End FrameBatch.

(** [clip.clip_id or d]: [None] and [0] are falsy. *)
Definition id_or {A} (cid : option Z) (f : Z -> A) (d : A) : A :=
  match cid with
  | Some n => if n =? 0 then d else f n
  | None => d
  end.

(** [f"clip_{clip.clip_id or 'temp'}.mp4"] *)
Definition temp_clip_name (clip : Clip) : string :=
  "clip_" ++ id_or (clip_id clip) str_int "temp" ++ ".mp4".

Definition set_file_path (clip : Clip) (path : string) : Clip :=
  {| clip_id := clip_id clip; video_id := video_id clip;
     start_time := start_time clip; end_time := end_time clip;
     file_path := Some path |}.

(** The [while current_time < duration] loop.  [k] counts the reads made so
    far; [None] means the fuel ran out before the loop ended. *)
Fixpoint sample_loop (fuel : nat) (w : world) (path : string)
    (start duration frame_interval : float) (k : nat) (current_time : float)
    (batch : FrameBatch.t) (trace : list event)
    : option (FrameBatch.t * list event) :=
  match fuel with
  | O => None
  | S fuel' =>
      if flt current_time duration then
        let trace := trace ++ [CaptureSet (current_time * 1000)%Q; CaptureRead] in
        match capture_read w path k (current_time * 1000)%Q with
        | None => Some (batch, trace)
        | Some frame =>
            sample_loop fuel' w path start duration frame_interval (S k)
              (current_time + frame_interval)%Q
              (FrameBatch.add_frame batch frame (start + current_time)%Q)
              trace
        end
      else Some (batch, trace)
  end.

(** [extract_frames_for_clip(clip, video, sampling_rate_fps, temp_dir)]:
    the result, the clip as the call leaves it, and the external calls
    made. *)
Definition extract_frames_for_clip (fuel : nat) (w : world) (clip : Clip)
    (video : Video) (sampling_rate_fps : float) (temp_dir : option string)
    : option (result FrameBatch.t * Clip * list event) :=
  if fle sampling_rate_fps 0%Q then
    Some (Raise (ValueError "sampling_rate_fps must be greater than 0"),
          clip, [])
  else
    let trimmed : result (Clip * string) * list event :=
      match file_path clip with
      | Some path => (Ok (clip, path), [])
      | None =>
          let '(temp_dir, tr) :=
            match temp_dir with
            | None => (mkdtemp w, [Mkdtemp])
            | Some d => (d, [])
            end in
          let temp_clip_path := path_join temp_dir (temp_clip_name clip) in
          let tr := tr ++ [FfmpegTrim (start_time clip) (end_time clip)
                             (source_path video) temp_clip_path] in
          match ffmpeg_trim w (start_time clip) (end_time clip)
                  (source_path video) temp_clip_path with
          | Exit0 _ => (Ok (set_file_path clip temp_clip_path, temp_clip_path), tr)
          | CalledProcessError err =>
              (Raise (AppError "Failed to trim clip." err), tr)
          end
      end in
    match trimmed with
    | (Raise e, tr) => Some (Raise e, clip, tr)
    | (Ok (clip, path), tr) =>
        let tr := tr ++ [CaptureOpen path] in
        if negb (is_opened w path) then
          Some (Raise (AppError "Cannot open clip file for frame extraction."
                         path), clip, tr)
        else
          let frame_batch := FrameBatch.init (id_or (clip_id clip) id (-1)) in
          let frame_interval := (1 / sampling_rate_fps)%Q in
          let duration := (end_time clip - start_time clip)%Q in
          match sample_loop fuel w path (start_time clip) duration
                  frame_interval 0 0%Q frame_batch tr with
          | None => None
          | Some (frame_batch, tr) =>
              Some (Ok frame_batch, clip, tr ++ [CaptureRelease])
          end
    end.

End VideoProcessor.

(** ** [src/config_manager.py]: the [ROI] rectangle *)

Module ConfigManager.

Record ROI : Type := { x : Z; y : Z; width : Z; height : Z }.

(** [ROI(x, y, width, height)] on integer arguments. *)
Definition ROI_init (x y width height : Z) : result ROI :=
  if (width <=? 0) || (height <=? 0) then
    Raise (ValueError "ROI width and height must be positive integers.")
  else Ok {| x := x; y := y; width := width; height := height |}.

(** *** Python objects

    What [json.load] returns and what a caller may pass where the code
    checks with [isinstance]: [None], [bool], [int], [float], [str], [list],
    [dict] with [str] keys, and [ROI] instances.  [bool] is a subclass of
    [int], and [True] and [False] are equal to 1 and 0: where the code has
    checked [isinstance(v, int)], the value is taken as that integer. *)

#[warnings="-register-all"]
Inductive pyval : Type :=
| VNone
| VBool (b : bool)
| VInt (n : Z)
| VFloat (q : float)
| VStr (s : string)
| VList (l : list pyval)
| VDict (d : gmap string pyval)
| VRoi (r : ROI).

#[export] Instance pyval_inhabited : Inhabited pyval := populate VNone.

(** [isinstance(v, int)] *)
Definition is_int (v : pyval) : bool :=
  match v with VInt _ | VBool _ => true | _ => false end.

(** The integer an [int] instance is equal to. *)
Definition int_of (v : pyval) : Z :=
  match v with
  | VInt n => n
  | VBool true => 1
  | _ => 0
  end.

(** [isinstance(v, (int, float))] *)
Definition is_number (v : pyval) : bool :=
  match v with VInt _ | VBool _ | VFloat _ => true | _ => false end.

(** [float(v)] for such a value. *)
Definition float_of (v : pyval) : float :=
  match v with
  | VFloat q => q
  | _ => inject_Z (int_of v)
  end.

(** The double quote character, and [s] between two of them. *)
Definition dq : string := String (ascii_of_nat 34) EmptyString.

Definition quoted (s : string) : string := dq ++ s ++ dq.

(** [ROI(x, y, width, height)] on arbitrary arguments. *)
Definition ROI_new (x y width height : pyval) : result ROI :=
  if negb (forallb is_int [x; y; width; height]) then
    Raise (ValueError "ROI coordinates and dimensions must be integers.")
  else ROI_init (int_of x) (int_of y) (int_of width) (int_of height).

(** [roi.to_dict()] *)
Definition to_dict (self : ROI) : gmap string pyval :=
  <["x" := VInt (x self)]>
    (<["y" := VInt (y self)]>
       (<["width" := VInt (width self)]>
          (<["height" := VInt (height self)]> ∅))).

(** The loop [for key in required_keys] of [from_dict]. *)
Fixpoint check_keys (d : gmap string pyval) (keys : list string)
    : result unit :=
  match keys with
  | [] => Ok tt
  | key :: keys' =>
      match d !! key with
      | None =>
          Raise (ValueError ("ROI dictionary missing required key "
                               ++ quoted key ++ "."))
      | Some v =>
          if negb (is_int v) then
            Raise (ValueError ("ROI field " ++ quoted key
                                 ++ " must be an integer."))
          else check_keys d keys'
      end
  end.

(** [ROI.from_dict(d)] for a [dict].  After the loop the four keys are
    present, so that [d[key]] is the value stored under the key. *)
Definition from_dict (d : gmap string pyval) : result ROI :=
  match check_keys d ["x"; "y"; "width"; "height"] with
  | Raise e => Raise e
  | Ok _ =>
      let x := d !!! "x" in
      let y := d !!! "y" in
      let width := d !!! "width" in
      let height := d !!! "height" in
      if (int_of width <=? 0) || (int_of height <=? 0) then
        Raise (ValueError "ROI width and height must be positive integers.")
      else ROI_new x y width height
  end.

(** *** [AppConfig] *)

Module AppConfig.

(** The exceptions of [AppConfig]: those of [exn], and five more.
    [IOError] is [OSError]. *)
Inductive exc : Type :=
| Builtin (e : exn)
| TypeError
| KeyError (key : string)
| FileNotFoundError (msg : string)
| JSONDecodeError
| OSError (msg : string).

Inductive outcome (A : Type) : Type :=
| Return (a : A)
| Throw (e : exc).
Arguments Return {A} a.
Arguments Throw {A} e.

Definition bind {A B} (m : outcome A) (k : A -> outcome B) : outcome B :=
  match m with
  | Return a => k a
  | Throw e => Throw e
  end.

Notation "x <- m ;; k" := (bind m (fun x => k))
  (at level 100, m at next level, right associativity).
Notation "m ;; k" := (bind m (fun _ => k))
  (at level 100, right associativity).

(** [if not ok: raise ValueError(msg)] *)
Definition require (ok : bool) (msg : string) : outcome unit :=
  if ok then Return tt else Throw (Builtin (ValueError msg)).

(** What a path of the disk holds: a file with the JSON text of a document,
    or a file [json.load] rejects.  Every path that exists is such a file. *)
Inductive content : Type :=
| Document (data : pyval)
| NotJson.

(** The disk: its files, and for every path whether [open(path, "w")] fails,
    and with which text. *)
Record disk : Type := {
  files : gmap string content;
  write_error : string -> option string
}.

(** [s in t] for two strings. *)
Fixpoint occursb (s t : string) : bool :=
  match Re.strip_prefix s t with
  | Some _ => true
  | None =>
      match t with
      | EmptyString => false
      | String _ t' => occursb s t'
      end
  end.

(** [key in data] for a [str] key. *)
Definition contains (data : pyval) (key : string) : outcome bool :=
  match data with
  | VDict d => Return (bool_decide (is_Some (d !! key)))
  | VList l =>
      Return (existsb (fun v => match v with
                                | VStr s => String.eqb s key
                                | _ => false
                                end) l)
  | VStr s => Return (occursb key s)
  | _ => Throw TypeError
  end.

(** [data[key]] for a [str] key. *)
Definition getitem (data : pyval) (key : string) : outcome pyval :=
  match data with
  | VDict d =>
      match d !! key with
      | Some v => Return v
      | None => Throw (KeyError key)
      end
  | _ => Throw TypeError
  end.

(** [str.lower()] of a code point below 256. *)
Definition lower_char (c : ascii) : ascii :=
  let n := N_of_ascii c in
  if ((65 <=? n) && (n <=? 90)
      || (192 <=? n) && (n <=? 222) && negb (n =? 215))%N
  then ascii_of_N (n + 32) else c.

Fixpoint lower (s : string) : string :=
  match s with
  | EmptyString => EmptyString
  | String c s' => String (lower_char c) (lower s')
  end.

(** [fmt.startswith(".")] *)
Definition starts_with_dot (s : string) : bool :=
  match s with
  | String "."%char _ => true
  | _ => false
  end.

(** The loop over [data["default_rois"]] in [load]. *)
Fixpoint load_rois (items : list pyval) (idx : nat) (rois_list : list ROI)
    : outcome (list ROI) :=
  match items with
  | [] => Return rois_list
  | item :: items' =>
      match item with
      | VDict d =>
          match from_dict d with
          | Raise e => Throw (Builtin e)
          | Ok roi => load_rois items' (S idx) (rois_list ++ [roi])
          end
      | _ =>
          Throw (Builtin (ValueError
            ("Each item in " ++ quoted "default_rois"
               ++ " must be a dict (invalid at index "
               ++ str_int (Z.of_nat idx) ++ ").")))
      end
  end.

(** The loop over [data["supported_file_formats"]] in [load]. *)
Fixpoint load_formats (items : list pyval) (idx : nat)
    (formats_list : list string) : outcome (list string) :=
  match items with
  | [] => Return formats_list
  | item :: items' =>
      match item with
      | VStr fmt =>
          require (negb (String.eqb (strip fmt) ""))
            "File formats must be non-empty strings." ;;
          require (String.eqb (lower fmt) fmt)
            ("File format " ++ quoted fmt ++ " must be lowercase.") ;;
          let formats_list := formats_list ++ [fmt] in
          require (negb (starts_with_dot fmt))
            ("File format " ++ quoted fmt
               ++ " should not have a leading dot.") ;;
          load_formats items' (S idx) formats_list
      | _ =>
          Throw (Builtin (ValueError
            ("File format at index " ++ str_int (Z.of_nat idx)
               ++ " must be a string.")))
      end
  end.

(** The body of [load] up to the assignments: the four validated values. *)
Definition load_values (config_path : string) (d : disk)
    : outcome (float * float * list ROI * list string) :=
  match files d !! config_path with
  | None =>
      Throw (FileNotFoundError
               ("Configuration file " ++ quoted config_path ++ " not found."))
  | Some NotJson => Throw JSONDecodeError
  | Some (Document data) =>
      present <- contains data "ocr_confidence_threshold" ;;
      require present
        ("Missing required key " ++ quoted "ocr_confidence_threshold" ++ ".") ;;
      v <- getitem data "ocr_confidence_threshold" ;;
      require (is_number v)
        (quoted "ocr_confidence_threshold" ++ " must be a float.") ;;
      let ocr_val := float_of v in
      require (fle 0%Q ocr_val && fle ocr_val 1%Q)
        (quoted "ocr_confidence_threshold"
           ++ " must be between 0.0 and 1.0.") ;;
      present <- contains data "frame_sampling_rate_fps" ;;
      require present
        ("Missing required key " ++ quoted "frame_sampling_rate_fps" ++ ".") ;;
      v <- getitem data "frame_sampling_rate_fps" ;;
      require (is_number v)
        (quoted "frame_sampling_rate_fps" ++ " must be a float.") ;;
      let fps_val := float_of v in
      require (negb (fle fps_val 0%Q))
        (quoted "frame_sampling_rate_fps" ++ " must be greater than 0.") ;;
      present <- contains data "default_rois" ;;
      require present
        ("Missing required key " ++ quoted "default_rois" ++ ".") ;;
      v <- getitem data "default_rois" ;;
      items <- match v with
               | VList l => Return l
               | _ =>
                   Throw (Builtin (ValueError
                     (quoted "default_rois"
                        ++ " must be a list of ROI dictionaries.")))
               end ;;
      rois_list <- load_rois items 0 [] ;;
      present <- contains data "supported_file_formats" ;;
      require present
        ("Missing required key " ++ quoted "supported_file_formats" ++ ".") ;;
      v <- getitem data "supported_file_formats" ;;
      items <- match v with
               | VList l => Return l
               | _ =>
                   Throw (Builtin (ValueError
                     (quoted "supported_file_formats"
                        ++ " must be a list of strings.")))
               end ;;
      formats_list <- load_formats items 0 [] ;;
      Return (ocr_val, fps_val, rois_list, formats_list)
  end.

(** The instance. *)
Record t : Type := {
  config_path : string;
  ocr_confidence_threshold : float;
  frame_sampling_rate_fps : float;
  default_rois : list ROI;
  supported_file_formats : list string
}.

(** [load()]: the outcome and the instance as the call leaves it. *)
Definition load (self : t) (d : disk) : outcome unit * t :=
  match load_values (config_path self) d with
  | Throw e => (Throw e, self)
  | Return (ocr_val, fps_val, rois_list, formats_list) =>
      (Return tt,
       {| config_path := config_path self;
          ocr_confidence_threshold := ocr_val;
          frame_sampling_rate_fps := fps_val;
          default_rois := rois_list;
          supported_file_formats := formats_list |})
  end.

(** The dictionary [save] writes. *)
Definition to_dump (self : t) : pyval :=
  VDict (<["ocr_confidence_threshold" := VFloat (ocr_confidence_threshold self)]>
           (<["frame_sampling_rate_fps" := VFloat (frame_sampling_rate_fps self)]>
              (<["default_rois" :=
                   VList ((fun roi => VDict (to_dict roi)) <$> default_rois self)]>
                 (<["supported_file_formats" :=
                      VList (VStr <$> supported_file_formats self)]> ∅)))).

(** [save()]: the outcome and the disk as the call leaves it. *)
Definition save (self : t) (d : disk) : outcome unit * disk :=
  match write_error d (config_path self) with
  | Some e =>
      (Throw (OSError ("Failed to write configuration to disk: " ++ e)), d)
  | None =>
      (Return tt,
       {| files := <[config_path self := Document (to_dump self)]> (files d);
          write_error := write_error d |})
  end.

(** [AppConfig(config_path)]: the outcome and the disk as the call leaves
    it. *)
Definition init (config_path : string) (d : disk) : outcome t * disk :=
  match load_values config_path d with
  | Return (ocr_val, fps_val, rois_list, formats_list) =>
      (Return {| config_path := config_path;
                 ocr_confidence_threshold := ocr_val;
                 frame_sampling_rate_fps := fps_val;
                 default_rois := rois_list;
                 supported_file_formats := formats_list |}, d)
  | Throw (FileNotFoundError _) =>
      match ROI_new (VInt 10) (VInt 10) (VInt 200) (VInt 50),
            ROI_new (VInt 10) (VInt 300) (VInt 200) (VInt 50) with
      | Ok roi1, Ok roi2 =>
          let self :=
            {| config_path := config_path;
               ocr_confidence_threshold := 0.75%Q;
               frame_sampling_rate_fps := 1.0%Q;
               default_rois := [roi1; roi2];
               supported_file_formats := ["mp4"; "avi"; "mov"; "mkv"] |} in
          match save self d with
          | (Return _, d') => (Return self, d')
          | (Throw e, d') => (Throw e, d')
          end
      | Raise e, _ | _, Raise e => (Throw (Builtin e), d)
      end
  | Throw e => (Throw e, d)
  end.







End AppConfig.

End ConfigManager.

(** ** [src/video_handler.py]: importing a file *)

Module VideoImport.

Import VideoHandler ConfigManager.

(** [str.splitlines()] on code points below 256: these end a line. *)
Definition is_linebreak (c : ascii) : bool :=
  let n := N_of_ascii c in
  ((10 <=? n) && (n <=? 13) || (28 <=? n) && (n <=? 30) || (n =? 133))%N.

(** [line] is the part of the current line read so far; a carriage return
    followed by a line feed ends one line, not two. *)
Fixpoint splitlines_from (s : string) (line : string) : list string :=
  match s with
  | EmptyString =>
      match line with
      | EmptyString => []
      | _ => [line]
      end
  | String c s' =>
      if is_linebreak c then
        line :: match s' with
                | String d s'' =>
                    if (N_of_ascii c =? 13)%N && (N_of_ascii d =? 10)%N
                    then splitlines_from s'' EmptyString
                    else splitlines_from s' EmptyString
                | EmptyString => splitlines_from s' EmptyString
                end
      else splitlines_from s' (line ++ String c EmptyString)
  end.

Definition splitlines (s : string) : list string :=
  splitlines_from s EmptyString.

(** [p.rfind(c)] for a character: the last index, [-1] when there is
    none. *)
Fixpoint rfind_from (c : ascii) (l : list ascii) (i best : Z) : Z :=
  match l with
  | [] => best
  | a :: l' => rfind_from c l' (i + 1) (if Ascii.eqb a c then i else best)
  end.

Definition rfind (c : ascii) (l : list ascii) : Z := rfind_from c l 0 (-1).

(** [os.path.splitext(p)] on a POSIX system: the extension starts at the
    last dot, if that dot lies behind the last slash and some character
    between the two is not a dot. *)
Definition splitext (p : string) : string * string :=
  let l := list_ascii_of_string p in
  let sepIndex := rfind "/" l in
  let dotIndex := rfind "." l in
  if (sepIndex <? dotIndex)
     && existsb (fun c => negb (Ascii.eqb c "."))
          (take (Z.to_nat (dotIndex - (sepIndex + 1)))
             (drop (Z.to_nat (sepIndex + 1)) l))
  then (string_of_list_ascii (take (Z.to_nat dotIndex) l),
        string_of_list_ascii (drop (Z.to_nat dotIndex) l))
  else (p, EmptyString).

(** [s.lstrip('.')] *)
Fixpoint lstrip_dots (s : string) : string :=
  match s with
  | String "."%char s' => lstrip_dots s'
  | _ => s
  end.

(** How the run of ffprobe ends: with its output, with a non-zero exit
    ([CalledProcessError], with its stderr), or with another exception,
    given by its text. *)
Inductive ffprobe_run : Type :=
| Printed (stdout : string)
| ExitedNonZero (stderr : string)
| NotRun (text : string).

(** The machine the import runs on.  [int_] and [float_] are the builtins
    [int()] and [float()] on a [str]: the number, or the text of the
    [ValueError]. *)
Record host : Type := {
  isfile : string -> bool;
  ffprobe : string -> ffprobe_run;
  int_ : string -> string + Z;
  float_ : string -> string + float;
  abspath : string -> string;
  utcnow_isoformat : string
}.

(** [probe_video_metadata(file_path)] *)
Definition probe_video_metadata (h : host) (file_path : string)
    : result (float * (Z * Z)) :=
  let failed (text : string) : result (float * (Z * Z)) :=
    Raise (AppError "Cannot read video metadata." text) in
  match ffprobe h file_path with
  | ExitedNonZero stderr => failed stderr
  | NotRun text => failed text
  | Printed stdout =>
      let lines := splitlines (strip stdout) in
      if (length lines <? 3)%nat then
        failed ("Unexpected ffprobe output: " ++ stdout)%string
      else
        match int_ h (nth 0 lines EmptyString) with
        | inl text => failed text
        | inr width =>
            match int_ h (nth 1 lines EmptyString) with
            | inl text => failed text
            | inr height =>
                match float_ h (nth 2 lines EmptyString) with
                | inl text => failed text
                | inr duration => Ok (duration, (width, height))
                end
            end
        end
  end.

(** [import_video_from_file(file_path)]; [config] is the module's
    configuration object. *)
Definition import_video_from_file (h : host) (config : AppConfig.t)
    (file_path : string) : result Video :=
  if negb (isfile h file_path) then
    Raise (AppError "File not found." file_path)
  else
    let ext := AppConfig.lower (lstrip_dots (splitext file_path).2) in
    if negb (bool_decide (ext ∈ AppConfig.supported_file_formats config)) then
      Raise (AppError "Unsupported file format." ext)
    else
      match probe_video_metadata h file_path with
      | Raise e => Raise e
      | Ok (duration, resolution) =>
          Ok {| video_id := None;
                source_type := "file";
                source_path := abspath h file_path;
                original_url := None;
                duration := duration;
                resolution := resolution;
                import_timestamp := utcnow_isoformat h |}
      end.

End VideoImport.

(** ** [src/ocr_processor.py] *)

Module OcrProcessor.

Import Np Ext ConfigManager.

Module OCRResult.

Record t : Type := {
  video_id : Z;
  clip_id : Z;
  timestamp : float;
  text : string;
  confidence : float;
  roi : ROI
}.

(** [OCRResult(...)]: the constructor checks text and confidence. *)
Definition init (video_id clip_id : Z) (timestamp : float) (text : string)
    (confidence : float) (roi : ROI) : result t :=
  if negb (truthy_str text) then
    Raise (ValueError "OCRResult text must be non-empty")
  else if negb (fle 0%Q confidence && fle confidence 1%Q) then
    Raise (ValueError "OCRResult confidence must be between 0.0 and 1.0")
  else
    Ok {| video_id := video_id; clip_id := clip_id; timestamp := timestamp;
          text := text; confidence := confidence; roi := roi |}.

End OCRResult.

(** *** [ROIManager]

    List objects live in a heap and are named by their address, so that
    two references to one list object can be told from two lists with equal
    contents.  [ROI] objects are stored by value. *)

Abbreviation loc := nat (only parsing).
Abbreviation heap := (list (list ROI)) (only parsing).

(** Allocation of a new list object. *)
Definition alloc (h : heap) (l : list ROI) : loc * heap :=
  (length h, h ++ [l]).

Module ROIManager.

(** The instance: its attribute [rois] refers to a list object. *)
Record t : Type := { rois : loc }.

(** [[ROI(r.x, r.y, r.width, r.height) for r in initial_rois]]: the
    constructor of a copy can raise. *)
Fixpoint copy_rois (rs : list ROI) : result (list ROI) :=
  match rs with
  | [] => Ok []
  | r :: rs' =>
      match ROI_init (x r) (y r) (width r) (height r) with
      | Raise e => Raise e
      | Ok r' =>
          match copy_rois rs' with
          | Raise e => Raise e
          | Ok l => Ok (r' :: l)
          end
      end
  end.

(** [ROIManager(initial_rois)]: copies the given ROIs into a new list. *)
Definition init (initial_rois : option (list ROI)) (h : heap)
    : result t * heap :=
  let copied :=
    match initial_rois with
    | Some ((_ :: _) as rs) => copy_rois rs
    | _ => Ok []
    end in
  match copied with
  | Raise e => (Raise e, h)
  | Ok l => let (p, h') := alloc h l in (Ok {| rois := p |}, h')
  end.

(** [add_roi(roi)] *)
Definition add_roi (self : t) (roi : ROI) (h : heap) : result unit * heap :=
  if (width roi <=? 0) || (height roi <=? 0) then
    (Raise (ValueError "ROI width and height must be positive integers."), h)
  else if (x roi <? 0) || (y roi <? 0) then
    (Raise (ValueError "ROI x and y must be non-negative integers."), h)
  else if (width roi <=? 0) || (height roi <=? 0) then
    (Raise (ValueError "ROI width and height must be positive integers."), h)
  else
    (Ok (), alter (fun l => l ++ [roi]) (rois self) h).

(** [del l[index]] on a list of length [n]: valid indices are
    [-n .. n-1], a negative one counts from the end. *)
Definition delitem {A} (l : list A) (index : Z) : result (list A) :=
  let n := Z.of_nat (length l) in
  if (index <? - n) || (n <=? index) then
    Raise (IndexError "list assignment index out of range")
  else
    Ok (delete (Z.to_nat (if index <? 0 then index + n else index)) l).

(** [remove_roi(index)]: [del self.rois[index]] *)
Definition remove_roi (self : t) (index : Z) (h : heap)
    : result unit * heap :=
  match delitem (default [] (h !! rois self)) index with
  | Raise e => (Raise e, h)
  | Ok l' => (Ok (), <[rois self := l']> h)
  end.

(** [list_rois()]: [self.rois.copy()] is a new list object with the same
    elements; the address of the copy is returned. *)
Definition list_rois (self : t) (h : heap) : loc * heap :=
  alloc h (default [] (h !! rois self)).

End ROIManager.

(** Any mutation of the list object at [p]: its contents become [f] of
    what they were. *)
Definition mutate (p : loc) (f : list ROI -> list ROI) (h : heap) : heap :=
  alter f p h.

(** The heap after the caller has applied the mutations [fs], in order, to
    the list object at [p]. *)
Definition mutations (p : loc) (fs : list (list ROI -> list ROI)) (h : heap)
    : heap :=
  fold_left (fun h f => mutate p f h) fs h.

(** *** Recognition *)

(** The body of [for text, conf_str in zip(texts, confs)]. *)
Fixpoint parse_tokens (pairs : list (string * option float))
    (numeric_confs : list float) (tokens : list string)
    : list float * list string :=
  match pairs with
  | [] => (numeric_confs, tokens)
  | (text, conf_str) :: pairs' =>
      match conf_str with
      | None => parse_tokens pairs' numeric_confs tokens
      | Some c =>
          let conf_val := (c / 100)%Q in
          let numeric_confs := numeric_confs ++ [conf_val] in
          if flt 0%Q conf_val && truthy_str (strip text) then
            parse_tokens pairs' numeric_confs (tokens ++ [text])
          else parse_tokens pairs' numeric_confs tokens
      end
  end.

(** [sum(xs)] *)
Definition sum (xs : list float) : float :=
  fold_left Qplus xs 0%Q.

(** [sum(numeric_confs) / len(numeric_confs) if numeric_confs else 0.0] *)
Definition overall_confidence (numeric_confs : list float) : float :=
  match numeric_confs with
  | [] => 0%Q
  | _ => (sum numeric_confs / inject_Z (Z.of_nat (length numeric_confs)))%Q
  end.

(** [zip(xs, ys)] stops at the shorter argument. *)
Definition py_zip {A B} (xs : list A) (ys : list B) : list (A * B) := zip xs ys.

(** The loop [for roi in rois] of [process_frame_for_ocr], from the results
    and the trace it has reached. *)
Fixpoint ocr_rois (w : world) (frame : ndarray) (timestamp : float)
    (video_id clip_id : Z) (confidence_threshold : float) (rois : list ROI)
    (results : list OCRResult.t) (trace : list event)
    : result (list OCRResult.t) * list event :=
  match rois with
  | [] => (Ok results, trace)
  | roi :: rois' =>
      let continue_ res tr :=
        ocr_rois w frame timestamp video_id clip_id confidence_threshold
          rois' res tr in
      let '(x, y, w_, h) := (x roi, y roi, width roi, height roi) in
      if (y <? 0) || (x <? 0) || (Z.of_nat (Np.height frame) <? y + h)
         || (Z.of_nat (Np.width frame) <? x + w_)
      then continue_ results trace
      else
        let sub_img := crop frame y (y + h) x (x + w_) in
        if Np.size sub_img =? 0 then continue_ results trace
        else
          let trace := trace ++ [ImageToData sub_img] in
          match image_to_data w sub_img with
          | TesseractNotFoundError =>
              (Raise (RuntimeError "Tesseract not installed or not in PATH."),
               trace)
          | EngineException _ =>
              (Raise (RuntimeError "Error during OCR processing."), trace)
          | Data texts confs =>
              let '(numeric_confs, tokens) :=
                parse_tokens (py_zip texts confs) [] [] in
              let text_str := strip (String.concat "" tokens) in
              let overall_conf := overall_confidence numeric_confs in
              if truthy_str text_str && fle confidence_threshold overall_conf
              then
                match OCRResult.init video_id clip_id timestamp text_str
                        overall_conf roi with
                | Raise e => (Raise e, trace)
                | Ok result => continue_ (results ++ [result]) trace
                end
              else continue_ results trace
          end
  end.

(** [process_frame_for_ocr(frame, timestamp, video_id, clip_id, rois,
    confidence_threshold)] *)
Definition process_frame_for_ocr (w : world) (frame : ndarray)
    (timestamp : float) (video_id clip_id : Z) (rois : list ROI)
    (confidence_threshold : float)
    : result (list OCRResult.t) * list event :=
  if negb (fle 0%Q confidence_threshold && fle confidence_threshold 1%Q) then
    (Raise (ValueError "confidence_threshold must be between 0.0 and 1.0"), [])
  else
    ocr_rois w frame timestamp video_id clip_id confidence_threshold rois [] [].

(** The loop [for frame, ts in zip(frames, timestamps)] of
    [process_batch_for_ocr]. *)
Fixpoint ocr_frames (w : world) (batch_clip_id : Z) (rois : list ROI)
    (confidence_threshold : float) (pairs : list (ndarray * float))
    (all_results : list OCRResult.t) (trace : list event)
    : result (list OCRResult.t) * list event :=
  match pairs with
  | [] => (Ok all_results, trace)
  | (frame, ts) :: pairs' =>
      match process_frame_for_ocr w frame ts batch_clip_id batch_clip_id
              rois confidence_threshold with
      | (Raise e, tr) => (Raise e, trace ++ tr)
      | (Ok partial, tr) =>
          ocr_frames w batch_clip_id rois confidence_threshold pairs'
            (all_results ++ partial) (trace ++ tr)
      end
  end.

(** [process_batch_for_ocr(frame_batch, rois, confidence_threshold)] *)
Definition process_batch_for_ocr (w : world)
    (frame_batch : VideoProcessor.FrameBatch.t) (rois : list ROI)
    (confidence_threshold : float)
    : result (list OCRResult.t) * list event :=
  if negb (fle 0%Q confidence_threshold && fle confidence_threshold 1%Q) then
    (Raise (ValueError "confidence_threshold must be between 0.0 and 1.0"), [])
  else
    ocr_frames w (VideoProcessor.FrameBatch.clip_id frame_batch) rois
      confidence_threshold
      (py_zip (VideoProcessor.FrameBatch.frames frame_batch)
              (VideoProcessor.FrameBatch.timestamps frame_batch))
      [] [].

End OcrProcessor.

(** ** Vocabulary of the timeline properties *)

Module Timeline.

Import VideoProcessor.

(** Each clip ends where the next one starts. *)
Definition contiguous (clips : list Clip) : Prop :=
  forall i a b, clips !! i = Some a -> clips !! S i = Some b ->
    end_time a = start_time b.

(** Clips come in increasing time order and an earlier clip is over before
    a later one starts. *)
Definition time_ordered (clips : list Clip) : Prop :=
  forall i j a b, (i < j)%nat -> clips !! i = Some a -> clips !! j = Some b ->
    (start_time a <= start_time b)%Q /\ (end_time a <= start_time b)%Q.

(** The clips [(prev_boundary, boundary)] of the boundary sequence
    [0.0, b1, ..., bn, duration]. *)
Definition boundary_clips (vid : option Z) (bounds : list float)
    (dur : float) : list Clip :=
  zip_with (Clip_init vid) (0%Q :: bounds) (bounds ++ [dur]).

End Timeline.

(** ** Vocabulary of the recognition properties *)

Module Recognition.

Import Np Ext ConfigManager OcrProcessor.

(** Per-frame outcomes put together: the first error ends the batch,
    otherwise the detections are concatenated in frame order. *)
Fixpoint gather {A} (rs : list (result (list A))) : result (list A) :=
  match rs with
  | [] => Ok []
  | Raise e :: _ => Raise e
  | Ok l :: rs' =>
      match gather rs' with
      | Ok ls => Ok (l ++ ls)
      | Raise e => Raise e
      end
  end.

(** The external calls of per-frame runs made one after the other, up to
    and including the first run that raises. *)
Fixpoint calls_made {A} (runs : list (result A * list event)) : list event :=
  match runs with
  | [] => []
  | (Ok _, tr) :: runs' => tr ++ calls_made runs'
  | (Raise _, tr) :: _ => tr
  end.

(** The engine's raw confidence, a percentage, brought to [0, 1]. *)
Definition normalized (raw : float) : float := (raw / 100)%Q.

(** A token enters the text when its normalized confidence is positive and
    its text is not blank. *)
Definition kept_token (p : string * float) : bool :=
  flt 0%Q (normalized p.2) && truthy_str (strip p.1).

(** The tokens kept, joined in order without separator, then trimmed. *)
Definition candidate_text (pairs : list (string * float)) : string :=
  strip (String.concat "" (fst <$> List.filter kept_token pairs)).


(** What the engine hands back for a list of (token, raw confidence) pairs. *)
Definition reply_of (pairs : list (string * float)) : ocr_reply :=
  Data (fst <$> pairs) ((fun p => Some p.2) <$> pairs).

(** The ROI lies within the frame. *)
Definition within (frame : ndarray) (roi : ROI) : Prop :=
  0 <= x roi /\ 0 <= y roi /\
  y roi + ConfigManager.height roi <= Z.of_nat (Np.height frame) /\
  x roi + ConfigManager.width roi <= Z.of_nat (Np.width frame).

(** [frame[y: y + h, x: x + w]] *)
Definition roi_crop (frame : ndarray) (roi : ROI) : ndarray :=
  crop frame (y roi) (y roi + ConfigManager.height roi)
    (x roi) (x roi + ConfigManager.width roi).

(** The detection belongs to clip [cid] and names it as its video too. *)
Definition linked_to (cid : Z) (d : OCRResult.t) : Prop :=
  OCRResult.video_id d = cid /\ OCRResult.clip_id d = cid.

End Recognition.

(** ** Vocabulary of the sampling properties *)

Module Sampling.

Import Np Ext VideoHandler VideoProcessor.

(** The value of [current_time] after [i] rounds of
    [current_time += frame_interval], starting from [0.0]. *)
Definition offset (frame_interval : float) (i : nat) : float :=
  Nat.iter i (fun current_time => (current_time + frame_interval)%Q) 0%Q.

(** A number of rounds after which [current_time] has reached [duration]. *)
Definition rounds (duration frame_interval : float) : nat :=
  Z.to_nat (Qceiling (duration / frame_interval)).

(** The file the decoder is opened on: the clip's segment if it has one,
    otherwise the one trimmed into the temporary directory. *)
Definition segment_path (w : world) (clip : Clip) (temp_dir : option string)
    : string :=
  match file_path clip with
  | Some path => path
  | None => path_join (default (mkdtemp w) temp_dir) (temp_clip_name clip)
  end.

End Sampling.

(** ** Concrete inputs used to exercise the statements *)

Module Samples.

Import Np Ext VideoHandler VideoProcessor ConfigManager OcrProcessor.

Definition newline : string := String (ascii_of_nat 10) EmptyString.

(** The report of the repository's scene-detection test. *)
Definition report : string :=
  "frame:0 pts_time:2.0" ++ newline ++ "frame:1 pts_time:4.5" ++ newline.

Definition black (h w : nat) : ndarray :=
  {| Np.height := h; Np.width := w; pixel := fun _ _ => (0, 0, 0) |}.

(** A world in which ffmpeg succeeds, every file opens, the decoder delivers
    [nframes] frames and the OCR engine answers [reply]. *)
Definition world_of (nframes : nat) (reply : ocr_reply) : world :=
  {| mkdtemp := "/tmp/tmpdir";
     ffmpeg_scene := fun _ _ => Exit0 report;
     ffmpeg_trim := fun _ _ _ _ => Exit0 "";
     is_opened := fun _ => true;
     capture_read := fun _ k _ =>
       if (k <? nframes)%nat then Some (black 480 640) else None;
     image_to_data := fun _ => reply |}.

Definition hello_world : ocr_reply :=
  Data ["Hello"; "World"] [Some 85%Q; Some 90%Q].

Definition video : Video :=
  {| VideoHandler.video_id := Some 1;
     source_type := "file";
     source_path := "tests/assets/test_video.mp4";
     original_url := None;
     duration := 10%Q;
     resolution := (640, 480);
     import_timestamp := "2024-01-01T00:00:00Z" |}.

Definition clip (cid : option Z) (s e : float) : Clip :=
  {| VideoProcessor.clip_id := cid; VideoProcessor.video_id := Some 1;
     start_time := s; end_time := e; file_path := None |}.

Definition roi (x y w h : Z) : ROI :=
  {| x := x; y := y; width := w; height := h |}.

Definition batch (cid : Z) (n : nat) : FrameBatch.t :=
  {| FrameBatch.clip_id := cid;
     FrameBatch.frames := replicate n (black 5 5);
     FrameBatch.timestamps := (fun i => inject_Z (Z.of_nat i) / 10)%Q <$> seq 0 n |}.

End Samples.

(** ** Vocabulary of the report properties *)

Module Report.

(** The digits of one side of a printed timestamp: at least one. *)
Definition numeral (ds : list ascii) : Prop :=
  ds <> [] /\ Forall (fun c => Re.is_digit c = true) ds.

(** Text in which no match can start, and which cannot continue the digits
    of a timestamp printed right before it. *)
Definition quiet (s : string) : Prop :=
  Forall (fun c => c <> "p"%char) (list_ascii_of_string s) /\
  match s with
  | String c _ => Re.is_digit c = false
  | EmptyString => True
  end.

(** A report: every entry is some text followed by a timestamp printed as
    [pts_time:<ip>.<fp>]; [tail] ends the report. *)
Fixpoint render (entries : list (string * (list ascii * list ascii)))
    (tail : string) : string :=
  match entries with
  | [] => tail
  | (junk, (ip, fp)) :: entries' =>
      junk ++ "pts_time:" ++ string_of_list_ascii ip ++ "."
        ++ string_of_list_ascii fp ++ render entries' tail
  end.

(** [p] occurs in [s]. *)
Definition occurs (p s : string) : Prop :=
  exists a b, s = (a ++ p ++ b)%string.

End Report.

(** ** Vocabulary of the editing properties *)

Module Editing.

Import VideoProcessor.

(** The clip has no identity yet. *)
Definition unsaved (c : Clip) : Prop := clip_id c = None.

(** The time the clip covers. *)
Definition span (c : Clip) : float := (end_time c - start_time c)%Q.

Definition total_span (clips : list Clip) : float :=
  fold_right (fun c acc => (span c + acc)%Q) 0%Q clips.

(** The clip ends after it starts. *)
Definition positive (c : Clip) : Prop := (start_time c < end_time c)%Q.

End Editing.

(** ** Vocabulary of the decoder protocol *)

Module Decoder.

Import Ext VideoHandler VideoProcessor.


(** The calls that produce the clip's segment: none when the clip has one. *)
Definition trimming (w : world) (clip : Clip) (video : Video)
    (temp_dir : option string) : list event :=
  match file_path clip with
  | Some _ => []
  | None =>
      match temp_dir with None => [Mkdtemp] | Some _ => [] end
      ++ [FfmpegTrim (start_time clip) (end_time clip) (source_path video)
            (Sampling.segment_path w clip temp_dir)]
  end.


End Decoder.

(** ** Further concrete inputs *)

Module Cases.

Import Np Ext VideoHandler VideoProcessor ConfigManager OcrProcessor.

(** A world in which the two ffmpeg runs end as given, files open or not,
    the decoder delivers [nframes] frames and the OCR engine answers
    [reply]. *)
Definition world_with (scene trim : completed) (opens : bool) (nframes : nat)
    (reply : ocr_reply) : world :=
  {| mkdtemp := "/tmp/tmpdir";
     ffmpeg_scene := fun _ _ => scene;
     ffmpeg_trim := fun _ _ _ _ => trim;
     is_opened := fun _ => opens;
     capture_read := fun _ k _ =>
       if (k <? nframes)%nat then Some (Samples.black 480 640) else None;
     image_to_data := fun _ => reply |}.

(** The entries of [Samples.report]. *)
Definition report_entries : list (string * (list ascii * list ascii)) :=
  [("frame:0 ", (["2"%char], ["0"%char]));
   ((Samples.newline ++ "frame:1 ")%string, (["4"%char], ["5"%char]))].

End Cases.

(** ** Vocabulary of the region properties *)

Module Regions.

Import Np Ext ConfigManager OcrProcessor Recognition.

#[export] Instance within_dec (frame : ndarray) (roi : ROI) :
  Decision (within frame roi).
Proof. unfold within. apply _. Defined.

(** Width and height as the [ROI] constructor admits them. *)
Definition sized (roi : ROI) : Prop :=
  0 < ConfigManager.width roi /\ 0 < ConfigManager.height roi.

(** One engine call per ROI that lies within the frame, in ROI order. *)
Definition region_calls (frame : ndarray) (rois : list ROI) : list event :=
  (fun roi => ImageToData (roi_crop frame roi)) <$> filter (within frame) rois.

(** The rows of a reply that have both a text and a confidence that
    [float()] accepts. *)
Definition parsed (texts : list string) (confs : list (option float))
    : list (string * float) :=
  omap (fun p => match p.2 with
                 | Some c => Some (p.1, c)
                 | None => None
                 end) (zip texts confs).

(** The reply reduced to those rows. *)
Definition clean (r : ocr_reply) : ocr_reply :=
  match r with
  | Data texts confs => reply_of (parsed texts confs)
  | _ => r
  end.

(** The world with another OCR engine. *)
Definition with_engine (w : world) (engine : ndarray -> ocr_reply) : world :=
  {| mkdtemp := mkdtemp w;
     ffmpeg_scene := ffmpeg_scene w;
     ffmpeg_trim := ffmpeg_trim w;
     is_opened := is_opened w;
     capture_read := capture_read w;
     image_to_data := engine |}.

(** What a detection of a frame must satisfy. *)
Definition sound (frame : ndarray) (timestamp : float) (video_id clip_id : Z)
    (threshold : float) (d : OCRResult.t) : Prop :=
  OCRResult.text d <> EmptyString /\
  strip (OCRResult.text d) = OCRResult.text d /\
  (threshold <= OCRResult.confidence d)%Q /\
  (0 <= OCRResult.confidence d)%Q /\ (OCRResult.confidence d <= 1)%Q /\
  OCRResult.timestamp d = timestamp /\
  OCRResult.video_id d = video_id /\ OCRResult.clip_id d = clip_id /\
  within frame (OCRResult.roi d).

End Regions.

(** ** Vocabulary of the configuration properties *)

Module Settings.

Import ConfigManager ConfigManager.AppConfig.

(** A file format as the configuration admits it: not blank, in lower
    case, without a leading dot. *)
Definition format_ok (fmt : string) : Prop :=
  strip fmt <> EmptyString /\ lower fmt = fmt /\ starts_with_dot fmt = false.

(** The values a configuration may hold. *)
Definition valid (c : AppConfig.t) : Prop :=
  (0 <= ocr_confidence_threshold c)%Q /\ (ocr_confidence_threshold c <= 1)%Q /\
  (0 < frame_sampling_rate_fps c)%Q /\
  Forall Regions.sized (default_rois c) /\
  Forall format_ok (supported_file_formats c).


(** The keys of an ROI dictionary, in the order [from_dict] checks them. *)
Definition roi_keys : list string := ["x"; "y"; "width"; "height"].

End Settings.

(** ** Vocabulary of the import properties *)

Module Paths.

Import VideoImport.

Definition chars (s : string) : list ascii := list_ascii_of_string s.

(** What stands before the last component of a path: nothing, or text
    ending with a slash. *)
Definition dir_prefix (dir : string) : Prop :=
  dir = EmptyString \/ exists d, dir = (d ++ "/")%string.

(** A file name before its extension: without slash, not made of dots
    only. *)
Definition stem_ok (stem : string) : Prop :=
  ("/"%char ∉ chars stem) /\ exists c, c ∈ chars stem /\ c <> "."%char.

(** An extension: without slash and without dot. *)
Definition ext_ok (ext : string) : Prop :=
  ("/"%char ∉ chars ext) /\ ("."%char ∉ chars ext).

(** Only dots. *)
Definition dots (s : string) : Prop := Forall (fun c => c = "."%char) (chars s).

(** A machine on which every file exists, ffprobe prints [stdout], and
    [int()] and [float()] accept nothing. *)
Definition host_printing (stdout : string) : host :=
  {| isfile := fun _ => true;
     ffprobe := fun _ => Printed stdout;
     int_ := fun s => inl ("invalid literal for int(): " ++ s)%string;
     float_ := fun s => inl ("could not convert string to float: " ++ s)%string;
     abspath := fun p => ("/" ++ p)%string;
     utcnow_isoformat := "2024-01-01T00:00:00" |}.

(** A valid configuration. *)
Definition config : ConfigManager.AppConfig.t :=
  {| ConfigManager.AppConfig.config_path := "config.json";
     ConfigManager.AppConfig.ocr_confidence_threshold := 0.75%Q;
     ConfigManager.AppConfig.frame_sampling_rate_fps := 1%Q;
     ConfigManager.AppConfig.default_rois := [];
     ConfigManager.AppConfig.supported_file_formats := ["mp4"; "avi"] |}.

(** A printed value: not empty, without white space. *)
Definition word (s : string) : Prop :=
  s <> EmptyString /\ Forall (fun c => is_space c = false) (chars s).

(** What a tool prints for a list of values: each on a line of its own. *)
Fixpoint shown (lines : list string) : string :=
  match lines with
  | [] => EmptyString
  | l :: ls => (l ++ Samples.newline ++ shown ls)%string
  end.

(** A machine on which every file exists and ffprobe prints [stdout]; its
    [int()] reads the plain numerals [<digits>] and its [float()] the plain
    numerals [<digits>.<digits>], each refusing everything else. *)
Definition host_reading (stdout : string) : host :=
  {| isfile := fun _ => true;
     ffprobe := fun _ => Printed stdout;
     int_ := fun s =>
       match Re.span_digits s with
       | ((_ :: _) as ds, EmptyString) => inr (Re.digits_value ds)
       | _ => inl ("invalid literal for int(): " ++ s)%string
       end;
     float_ := fun s =>
       match Re.span_digits s with
       | ((_ :: _) as ip, String "."%char r) =>
           match Re.span_digits r with
           | ((_ :: _) as fp, EmptyString) => inr (Re.decimal_value ip fp)
           | _ => inl ("could not convert string to float: " ++ s)%string
           end
       | _ => inl ("could not convert string to float: " ++ s)%string
       end;
     abspath := fun p => ("/" ++ p)%string;
     utcnow_isoformat := "2024-01-01T00:00:00" |}.

End Paths.

(** * Properties *)

(** ** Comparisons *)

Lemma flt_spec (x y : float) : flt x y = true <-> (x < y)%Q.
Proof. unfold flt, Qlt. apply Z.ltb_lt. Qed.

Lemma fle_spec (x y : float) : fle x y = true <-> (x <= y)%Q.
Proof. unfold fle, Qle. apply Z.leb_le. Qed.

Lemma flt_false (x y : float) : flt x y = false <-> (y <= x)%Q.
Proof. unfold flt, Qle. rewrite Z.ltb_ge. reflexivity. Qed.

Lemma fle_false (x y : float) : fle x y = false <-> (y < x)%Q.
Proof. unfold fle, Qlt. rewrite Z.leb_gt. reflexivity. Qed.

(** ** [sorted] returns an ascending rearrangement *)

Section Sorting.

Context {A : Type} (ltb : A -> A -> bool) (le : A -> A -> Prop).
Hypothesis ltb_le : forall x y, ltb x y = true -> le x y.
Hypothesis ltb_ge : forall x y, ltb x y = false -> le y x.

Lemma insort_perm (x : A) (l : list A) :
  Permutation (x :: l) (insort ltb x l).
Proof.
  induction l as [|y l IH]; simpl; [reflexivity|].
  destruct (ltb x y); [reflexivity|].
  rewrite perm_swap. now constructor.
Qed.

Lemma insort_hdrel (a x : A) (l : list A) :
  le a x -> HdRel le a l -> HdRel le a (insort ltb x l).
Proof.
  intros Hax Hl. destruct l as [|y l]; simpl; [now constructor|].
  destruct (ltb x y); constructor; [assumption|].
  now inversion Hl.
Qed.

Lemma insort_sorted (x : A) (l : list A) :
  Sorted le l -> Sorted le (insort ltb x l).
Proof.
  induction 1 as [|y l Hl IH Hhd]; simpl; [repeat constructor|].
  destruct (ltb x y) eqn:E.
  - repeat constructor; try assumption. now apply ltb_le.
  - constructor; [assumption|].
    apply insort_hdrel; [now apply ltb_ge|assumption].
Qed.

Lemma fold_insort_perm (l acc : list A) :
  Permutation (l ++ acc) (fold_left (fun a x => insort ltb x a) l acc).
Proof.
  revert acc. induction l as [|x l IH]; intros acc; simpl; [reflexivity|].
  rewrite <- IH, <- insort_perm. apply Permutation_middle.
Qed.

Lemma fold_insort_sorted (l acc : list A) :
  Sorted le acc -> Sorted le (fold_left (fun a x => insort ltb x a) l acc).
Proof.
  revert acc. induction l as [|x l IH]; intros acc Hacc; simpl; [exact Hacc|].
  apply IH. now apply insort_sorted.
Qed.

Lemma sorted_Sorted (l : list A) : Sorted le (sorted ltb l).
Proof. apply fold_insort_sorted. constructor. Qed.

Lemma sorted_Permutation (l : list A) : Permutation l (sorted ltb l).
Proof.
  pose proof (fold_insort_perm l []) as H. now rewrite app_nil_r in H.
Qed.

(** An element that is not below any element of the list goes to its end. *)
Lemma insort_last (x : A) (l : list A) :
  Forall (fun y => ltb x y = false) l -> insort ltb x l = l ++ [x].
Proof.
  induction 1 as [|y l Hy _ IH]; simpl; [reflexivity|].
  now rewrite Hy, IH.
Qed.

End Sorting.

Section SortingFloats.

Lemma StronglySorted_across {A} (R : A -> A -> Prop) (l1 l2 : list A) :
  StronglySorted R (l1 ++ l2) ->
  forall x1 x2, x1 ∈ l1 -> x2 ∈ l2 -> R x1 x2.
Proof.
  induction l1 as [|a l1 IH]; simpl; intros H x1 x2 H1 H2.
  - now apply elem_of_nil in H1.
  - apply StronglySorted_inv in H as [Hs Hall].
    apply elem_of_cons in H1 as [->|H1]; [|now apply IH].
    rewrite Forall_forall in Hall. apply Hall, elem_of_app. now right.
Qed.

Lemma sorted_floats_Sorted (l : list float) : Sorted Qle (sorted flt l).
Proof.
  apply sorted_Sorted.
  - intros x y H. apply flt_spec in H. now apply Qlt_le_weak.
  - intros x y H. now apply flt_false in H.
Qed.

Lemma Qle_Transitive : Relations_1.Transitive Qle.
Proof. intros x y z. apply Qle_trans. Qed.

Lemma StronglySorted_lookup {A} (R : A -> A -> Prop) (l : list A) :
  StronglySorted R l ->
  forall i j x y, (i < j)%nat -> l !! i = Some x -> l !! j = Some y -> R x y.
Proof.
  induction 1 as [|a l Hl IH Hall]; intros i j x y Hij Hi Hj.
  - discriminate.
  - destruct j as [|j]; [lia|]. destruct i as [|i]; simpl in *.
    + injection Hi as <-. rewrite Forall_forall in Hall.
      apply Hall. eapply list_elem_of_lookup_2; eauto.
    + apply (IH i j); [lia|assumption|assumption].
Qed.

End SortingFloats.

(** ** The timestamps found in a report are non-negative *)

Section Report.

Lemma span_digits_digits (s : string) :
  Forall (fun c => Re.is_digit c = true) (Re.span_digits s).1.
Proof.
  induction s as [|c s IH]; simpl; [constructor|].
  destruct (Re.is_digit c) eqn:E; [|constructor].
  destruct (Re.span_digits s) as [ds r]. simpl in *. now constructor.
Qed.

Lemma digit_value_nonneg (c : ascii) :
  Re.is_digit c = true -> 0 <= Re.digit_value c.
Proof.
  unfold Re.is_digit, Re.digit_value. intros H.
  apply andb_prop in H as [H _]. apply N.leb_le in H. lia.
Qed.

Lemma digits_fold_nonneg (ds : list ascii) (acc : Z) :
  0 <= acc -> Forall (fun c => Re.is_digit c = true) ds ->
  0 <= fold_left (fun a c => 10 * a + Re.digit_value c) ds acc.
Proof.
  revert acc. induction ds as [|c ds IH]; intros acc Hacc Hds; simpl.
  - exact Hacc.
  - inversion Hds as [|? ? Hc Hds']; subst. apply IH; [|assumption].
    pose proof (digit_value_nonneg c Hc). lia.
Qed.

Lemma decimal_value_nonneg (ip fp : list ascii) :
  Forall (fun c => Re.is_digit c = true) ip ->
  Forall (fun c => Re.is_digit c = true) fp ->
  (0 <= Re.decimal_value ip fp)%Q.
Proof.
  intros Hi Hf. unfold Re.decimal_value, Qle. simpl.
  rewrite Z.mul_1_r. apply digits_fold_nonneg; [lia|].
  apply Forall_app. now split.
Qed.

Lemma match_pts_nonneg (s : string) (v : float) (n : nat) :
  Re.match_pts s = Some (v, n) -> (0 <= v)%Q.
Proof.
  unfold Re.match_pts. destruct (Re.strip_prefix _ s) as [r|]; [|discriminate].
  pose proof (span_digits_digits r) as Hip.
  destruct (Re.span_digits r) as [[|c ip] [|d r']]; try discriminate.
  destruct d as [[] [] [] [] [] [] [] []]; try discriminate.
  pose proof (span_digits_digits r') as Hfp.
  destruct (Re.span_digits r') as [[|e fp] r'']; try discriminate.
  intros [= <- _]. now apply decimal_value_nonneg.
Qed.

Lemma finditer_from_nonneg (s : string) (skip : nat) :
  Forall (fun v => (0 <= v)%Q) (Re.finditer_from skip s).
Proof.
  revert skip. induction s as [|c s IH]; intros skip; simpl; [constructor|].
  destruct skip as [|k]; [|apply IH].
  destruct (Re.match_pts (String c s)) as [[v n]|] eqn:E; [|apply IH].
  constructor; [|apply IH]. eapply match_pts_nonneg; eauto.
Qed.

Lemma pts_times_nonneg (report : string) :
  Forall (fun v => (0 <= v)%Q) (Re.pts_times report).
Proof. apply finditer_from_nonneg. Qed.

End Report.

(** ** C1: scene detection *)

Section Detect.

Import VideoHandler Ext VideoProcessor Timeline.

Lemma clips_loop_boundary (vid : option Z) (dur : float) (pts : list float) :
  forall prev acc,
    clips_loop vid dur pts prev acc
    = acc ++ zip_with (Clip_init vid) (prev :: pts) (pts ++ [dur]).
Proof.
  induction pts as [|t pts IH]; intros prev acc; simpl; [reflexivity|].
  rewrite IH, <- app_assoc. reflexivity.
Qed.

Lemma boundary_clips_length vid bounds dur :
  length (boundary_clips vid bounds dur) = S (length bounds).
Proof.
  unfold boundary_clips. rewrite length_zip_with, length_app.
  cbn [length]. lia.
Qed.

Lemma boundary_clips_lookup vid bounds dur i c :
  boundary_clips vid bounds dur !! i = Some c ->
  exists s e, c = Clip_init vid s e /\
    (0%Q :: bounds) !! i = Some s /\ (bounds ++ [dur]) !! i = Some e.
Proof. unfold boundary_clips. intros H. now apply lookup_zip_with_Some in H. Qed.

Lemma boundary_clips_contiguous vid bounds dur :
  contiguous (boundary_clips vid bounds dur).
Proof.
  intros i a b Ha Hb.
  apply boundary_clips_lookup in Ha as (s1 & e1 & -> & _ & He1).
  apply boundary_clips_lookup in Hb as (s2 & e2 & -> & Hs2 & _).
  change (bounds !! i = Some s2) in Hs2.
  rewrite lookup_app_l in He1 by (eapply lookup_lt_Some; eauto).
  simpl. congruence.
Qed.

Lemma boundary_clips_ordered vid bounds dur :
  StronglySorted Qle (0%Q :: bounds) ->
  time_ordered (boundary_clips vid bounds dur).
Proof.
  intros Hs i j a b Hij Ha Hb.
  apply boundary_clips_lookup in Ha as (s1 & e1 & -> & Hs1 & He1).
  apply boundary_clips_lookup in Hb as (s2 & e2 & -> & Hs2 & _).
  simpl. split.
  - eapply (StronglySorted_lookup _ _ Hs i j); eauto.
  - destruct j as [|j]; [lia|]. change (bounds !! j = Some s2) in Hs2.
    assert (Hlt : (i < length bounds)%nat).
    { apply lookup_lt_Some in Hs2. lia. }
    rewrite lookup_app_l in He1 by exact Hlt.
    destruct (decide (i = j)) as [->|Hne].
    + replace e1 with s2 by congruence. apply Qle_refl.
    + eapply (StronglySorted_lookup _ _ Hs (S i) (S j)); eauto. lia.
Qed.

Lemma boundary_clips_last vid bounds dur :
  end_time <$> last (boundary_clips vid bounds dur) = Some dur.
Proof.
  unfold boundary_clips. generalize 0%Q.
  induction bounds as [|b bounds IH]; intros s; [reflexivity|].
  specialize (IH b).
  change (zip_with (Clip_init vid) (s :: b :: bounds) ((b :: bounds) ++ [dur]))
    with (Clip_init vid s b
            :: zip_with (Clip_init vid) (b :: bounds) (bounds ++ [dur])).
  rewrite last_cons.
  destruct (last (zip_with _ (b :: bounds) _)); [exact IH|discriminate].
Qed.

Lemma boundary_clips_head vid bounds dur :
  start_time <$> head (boundary_clips vid bounds dur) = Some 0%Q.
Proof. destruct bounds; reflexivity. Qed.

(** C1. [detect_clips] raises [ValueError] whenever the threshold is not
    strictly inside (0, 1); for a threshold inside and a report of the
    detector, it returns the clips of the boundary sequence obtained by
    sorting the [n] extracted timestamps ascending, prepending 0.0 and
    appending the duration: [n + 1] clips [(prev_boundary, boundary)],
    contiguous, in increasing time order without overlap, the first
    starting at 0 and the last ending at the video's duration. *)
Theorem detect_clips_timeline (w : world) (video : Video)
    (scene_threshold : float) :
  (~ (0 < scene_threshold /\ scene_threshold < 1)%Q ->
     is_value_error (detect_clips w video scene_threshold)) /\
  ((0 < scene_threshold /\ scene_threshold < 1)%Q ->
   forall report,
     ffmpeg_scene w (source_path video) scene_threshold = Exit0 report ->
     exists bounds clips,
       Permutation (Re.pts_times report) bounds /\ Sorted Qle bounds /\
       detect_clips w video scene_threshold = Ok clips /\
       clips = boundary_clips (VideoHandler.video_id video) bounds
                 (duration video) /\
       length clips = S (length (Re.pts_times report)) /\
       contiguous clips /\ time_ordered clips /\
       start_time <$> head clips = Some 0%Q /\
       end_time <$> last clips = Some (duration video)).
Proof.
  split.
  - intros Hout. unfold detect_clips.
    destruct (flt 0%Q scene_threshold) eqn:E0;
      destruct (flt scene_threshold 1%Q) eqn:E1; simpl; try exact I.
    apply flt_spec in E0, E1. tauto.
  - intros [H0 H1] report Hrun.
    exists (sorted flt (Re.pts_times report)),
      (boundary_clips (VideoHandler.video_id video)
         (sorted flt (Re.pts_times report)) (duration video)).
    pose proof (sorted_Permutation flt (Re.pts_times report)) as Hperm.
    pose proof (sorted_floats_Sorted (Re.pts_times report)) as Hsorted.
    split; [exact Hperm|]. split; [exact Hsorted|].
    split.
    { unfold detect_clips.
      apply flt_spec in H0, H1. rewrite H0, H1, Hrun. simpl.
      now rewrite clips_loop_boundary. }
    split; [reflexivity|]. split.
    { rewrite boundary_clips_length. f_equal. symmetry.
      now apply Permutation_length. }
    split; [apply boundary_clips_contiguous|]. split.
    { apply boundary_clips_ordered. constructor.
      - apply Sorted_StronglySorted; [apply Qle_Transitive|exact Hsorted].
      - pose proof (pts_times_nonneg report) as Hnn.
        rewrite Forall_forall in Hnn |- *. intros x Hx. apply Hnn.
        apply list_elem_of_In. apply list_elem_of_In in Hx.
        eapply Permutation_in; [symmetry; exact Hperm|exact Hx]. }
    split; [apply boundary_clips_head|apply boundary_clips_last].
Qed.

(** The repository's example: boundaries 2.0 and 4.5 in a 10 s video. *)
Lemma detect_clips_timeline_witness :
  let w := Samples.world_of 0 Samples.hello_world in
  (~ (0 < 1 /\ 1 < 1)%Q /\ is_value_error (detect_clips w Samples.video 1%Q)) /\
  ((0 < 0.4 /\ 0.4 < 1)%Q /\
   exists bounds clips,
     Permutation (Re.pts_times Samples.report) bounds /\ Sorted Qle bounds /\
     detect_clips w Samples.video 0.4%Q = Ok clips /\
     clips = boundary_clips (Some 1) bounds 10%Q /\
     length clips = 3%nat /\
     contiguous clips /\ time_ordered clips /\
     start_time <$> head clips = Some 0%Q /\
     end_time <$> last clips = Some 10%Q).
Proof.
  intros w. split.
  - assert (H : ~ (0 < 1 /\ 1 < 1)%Q) by (intros [_ H]; discriminate H).
    split; [exact H|].
    exact (proj1 (detect_clips_timeline w Samples.video 1%Q) H).
  - assert (H : (0 < 0.4 /\ 0.4 < 1)%Q) by (split; reflexivity).
    split; [exact H|].
    exact (proj2 (detect_clips_timeline w Samples.video 0.4%Q) H
             Samples.report eq_refl).
Defined.

Example detect_clips_example :
  detect_clips (Samples.world_of 0 Samples.hello_world) Samples.video 0.4%Q
  = Ok [Clip_init (Some 1) 0%Q 2.0%Q; Clip_init (Some 1) 2.0%Q 4.5%Q;
        Clip_init (Some 1) 4.5%Q 10%Q].
Proof. reflexivity. Qed.

End Detect.

(** ** C7: invalid thresholds are refused before the engine is called *)

Section Thresholds.

Import Np Ext ConfigManager OcrProcessor.

Lemma threshold_guard (t : float) :
  negb (fle 0%Q t && fle t 1%Q) = true <-> (t < 0 \/ 1 < t)%Q.
Proof.
  rewrite negb_true_iff, andb_false_iff, !fle_false. tauto.
Qed.

(** C7. For a threshold below 0.0 or above 1.0, [process_frame_for_ocr]
    and [process_batch_for_ocr] both raise [ValueError], whatever the frame,
    the batch and the ROIs, and their trace of external calls is empty: the
    recognition engine has not been called. *)
Theorem bad_threshold_rejected_before_engine (w : world) (frame : ndarray)
    (timestamp : float) (video_id clip_id : Z)
    (frame_batch : VideoProcessor.FrameBatch.t) (rois : list ROI)
    (confidence_threshold : float) :
  (confidence_threshold < 0 \/ 1 < confidence_threshold)%Q ->
  let r1 := process_frame_for_ocr w frame timestamp video_id clip_id rois
              confidence_threshold in
  let r2 := process_batch_for_ocr w frame_batch rois confidence_threshold in
  is_value_error r1.1 /\ r1.2 = [] /\ is_value_error r2.1 /\ r2.2 = [].
Proof.
  intros Hbad. apply threshold_guard in Hbad.
  unfold process_frame_for_ocr, process_batch_for_ocr.
  rewrite Hbad. simpl. auto.
Qed.

Lemma bad_threshold_rejected_before_engine_witness :
  let w := Samples.world_of 0 Samples.hello_world in
  let r1 := process_frame_for_ocr w (Samples.black 10 10) 0%Q 1 1
              [Samples.roi 0 0 5 5] 1.1%Q in
  let r2 := process_batch_for_ocr w (Samples.batch 1 2)
              [Samples.roi 0 0 5 5] 1.1%Q in
  (1.1 < 0 \/ 1 < 1.1)%Q /\
  is_value_error r1.1 /\ r1.2 = [] /\ is_value_error r2.1 /\ r2.2 = [].
Proof.
  intros w r1 r2.
  assert (H : (1.1 < 0 \/ 1 < 1.1)%Q) by (right; reflexivity).
  split; [exact H|].
  exact (bad_threshold_rejected_before_engine w (Samples.black 10 10) 0%Q 1 1
           (Samples.batch 1 2) [Samples.roi 0 0 5 5] 1.1%Q H).
Defined.

End Thresholds.

(** ** C10: removing by index *)

Section RemoveRoi.

Import ConfigManager OcrProcessor OcrProcessor.ROIManager.

Lemma delitem_in_range {A} (l : list A) (index : Z) :
  - Z.of_nat (length l) <= index < Z.of_nat (length l) ->
  delitem l index
  = Ok (delete (Z.to_nat (if index <? 0 then index + Z.of_nat (length l)
                          else index)) l).
Proof.
  intros H. unfold delitem.
  destruct (index <? - Z.of_nat (length l)) eqn:E1; [lia|].
  destruct (Z.of_nat (length l) <=? index) eqn:E2; [lia|]. reflexivity.
Qed.

Lemma delitem_out_of_range {A} (l : list A) (index : Z) :
  is_index_error (delitem l index)
  <-> (Z.of_nat (length l) <= index \/ index < - Z.of_nat (length l)).
Proof.
  unfold delitem.
  destruct (index <? - Z.of_nat (length l)) eqn:E1;
    destruct (Z.of_nat (length l) <=? index) eqn:E2; simpl; lia.
Qed.

(** C10. On a store holding [n >= 1] ROIs, [remove_roi(index)] with
    [-n <= index <= -1] succeeds and deletes the ROI at position
    [n + index], leaving every other ROI in place; [IndexError] is raised
    exactly when [index >= n] or [index < -n]. *)
Theorem remove_roi_negative_index (self : ROIManager.t) (h : heap)
    (stored : list ROI) (index : Z) :
  h !! rois self = Some stored ->
  let n := Z.of_nat (length stored) in
  (1 <= n -> - n <= index <= -1 ->
     remove_roi self index h
     = (Ok (), <[rois self := delete (Z.to_nat (n + index)) stored]> h)
     /\ (Z.to_nat (n + index) < length stored)%nat) /\
  (is_index_error (remove_roi self index h).1 <-> (n <= index \/ index < - n)).
Proof.
  intros Hst n. unfold remove_roi. rewrite Hst. simpl. split.
  - intros Hn Hidx. rewrite delitem_in_range by (fold n; lia).
    destruct (index <? 0) eqn:E; [|lia]. fold n.
    rewrite (Z.add_comm index n). split; [reflexivity|lia].
  - subst n. rewrite <- delitem_out_of_range.
    destruct (delitem stored index); simpl; tauto.
Qed.

Lemma remove_roi_negative_index_witness :
  let stored := [Samples.roi 0 0 1 1; Samples.roi 1 1 2 2; Samples.roi 2 2 3 3] in
  let self := {| rois := 0%nat |} in
  remove_roi self (-1) [stored]
  = (Ok (), [[Samples.roi 0 0 1 1; Samples.roi 1 1 2 2]])
  /\ (is_index_error (remove_roi self 3 [stored]).1 <-> (3 <= 3 \/ 3 < - 3)).
Proof.
  intros stored self.
  pose proof (remove_roi_negative_index self [stored] stored) as H.
  split.
  - destruct (H (-1) eq_refl) as [Hneg _].
    destruct (Hneg ltac:(simpl; lia) ltac:(simpl; lia)) as [Heq _].
    exact Heq.
  - destruct (H 3 eq_refl) as [_ Hiff]. exact Hiff.
Defined.

End RemoveRoi.

(** ** C8: adding to the ROI store and listing it *)

Section RoiStore.

Import ConfigManager OcrProcessor OcrProcessor.ROIManager.

Lemma heap_alter_insert (f : list ROI -> list ROI) (p : loc) (h : heap)
    (l : list ROI) :
  h !! p = Some l -> alter f p h = <[p := f l]> h.
Proof.
  intros Hp. apply list_eq. intros j.
  destruct (decide (p = j)) as [<-|Hne].
  - rewrite list_lookup_alter_eq, Hp.
    rewrite list_lookup_insert_eq by (eapply lookup_lt_Some; eauto).
    reflexivity.
  - rewrite list_lookup_alter_ne by exact Hne.
    rewrite list_lookup_insert_ne by exact Hne. reflexivity.
Qed.

Lemma alloc_fresh (h : heap) (l : list ROI) :
  h !! (alloc h l).1 = None /\ (alloc h l).2 !! (alloc h l).1 = Some l /\
  forall q x, h !! q = Some x -> (alloc h l).2 !! q = Some x.
Proof.
  unfold alloc. simpl. split; [|split].
  - apply lookup_ge_None. lia.
  - rewrite lookup_app_r by lia. now rewrite Nat.sub_diag.
  - intros q x Hq. rewrite lookup_app_l; [exact Hq|].
    eapply lookup_lt_Some; eauto.
Qed.

Lemma mutations_other (p q : loc) (fs : list (list ROI -> list ROI))
    (h : heap) :
  p <> q -> mutations p fs h !! q = h !! q.
Proof.
  intros Hne. revert h. induction fs as [|f fs IH]; intros h; simpl.
  - reflexivity.
  - rewrite IH. unfold mutate. now apply list_lookup_alter_ne.
Qed.

(** C8. [add_roi] raises [ValueError], leaving the store as it was, for an
    ROI with [x < 0], [y < 0], [width <= 0] or [height <= 0], and otherwise
    appends the ROI to the stored list.  [list_rois] returns a new list
    object holding the stored ROIs: whatever mutations the caller applies to
    the returned list, the store's own list still holds the same ROIs, and a
    later [list_rois] returns them again. *)
Theorem roi_store_add_and_list (self : ROIManager.t) (h : heap)
    (stored : list ROI) (roi : ROI) :
  h !! rois self = Some stored ->
  ((x roi < 0 \/ y roi < 0 \/ width roi <= 0 \/ height roi <= 0) ->
     is_value_error (add_roi self roi h).1 /\ (add_roi self roi h).2 = h) /\
  (~ (x roi < 0 \/ y roi < 0 \/ width roi <= 0 \/ height roi <= 0) ->
     add_roi self roi h = (Ok (), <[rois self := stored ++ [roi]]> h)) /\
  (let (p, h1) := list_rois self h in
   p <> rois self /\ h !! p = None /\
   h1 !! p = Some stored /\ h1 !! rois self = Some stored /\
   forall fs : list (list ROI -> list ROI),
     let h2 := mutations p fs h1 in
     h2 !! rois self = Some stored /\
     (list_rois self h2).2 !! (list_rois self h2).1 = Some stored).
Proof.
  intros Hst. split; [|split].
  - intros Hbad. unfold add_roi.
    destruct (width roi <=? 0) eqn:Ew; [simpl; auto|].
    destruct (height roi <=? 0) eqn:Eh; [simpl; auto|].
    destruct (x roi <? 0) eqn:Ex; [simpl; auto|].
    destruct (y roi <? 0) eqn:Ey; [simpl; auto|]. lia.
  - intros Hgood. unfold add_roi.
    destruct (width roi <=? 0) eqn:Ew; [lia|].
    destruct (height roi <=? 0) eqn:Eh; [lia|].
    destruct (x roi <? 0) eqn:Ex; [lia|].
    destruct (y roi <? 0) eqn:Ey; [lia|]. simpl.
    now rewrite (heap_alter_insert _ _ _ _ Hst).
  - unfold list_rois, alloc. rewrite Hst. simpl.
    destruct (alloc_fresh h stored) as (Hnew & Hp & Hold).
    unfold alloc in *. simpl in *.
    assert (Hne : length h <> rois self) by congruence.
    split; [exact Hne|]. split; [exact Hnew|]. split; [exact Hp|].
    split; [now apply Hold|].
    intros fs.
    assert (Hkeep : mutations (length h) fs (h ++ [stored]) !! rois self
                    = Some stored).
    { rewrite mutations_other by exact Hne. now apply Hold. }
    split; [exact Hkeep|].
    rewrite Hkeep. simpl.
    rewrite lookup_app_r by lia. now rewrite Nat.sub_diag.
Qed.

Lemma roi_store_add_and_list_witness :
  let stored := [Samples.roi 5 5 10 10] in
  let self := {| rois := 0%nat |} in
  (is_value_error (add_roi self (Samples.roi (-1) 0 10 10) [stored]).1 /\
   (add_roi self (Samples.roi (-1) 0 10 10) [stored]).2 = [stored]) /\
  add_roi self (Samples.roi 0 0 3 3) [stored]
  = (Ok (), [[Samples.roi 5 5 10 10; Samples.roi 0 0 3 3]]) /\
  (forall fs : list (list ROI -> list ROI),
     let h2 := mutations 1%nat fs [stored; stored] in
     h2 !! 0%nat = Some stored /\
     (list_rois self h2).2 !! (list_rois self h2).1 = Some stored).
Proof.
  intros stored self.
  pose proof (roi_store_add_and_list self [stored] stored) as H.
  split; [|split].
  - destruct (H (Samples.roi (-1) 0 10 10) eq_refl) as [Hbad _].
    apply Hbad. left. reflexivity.
  - destruct (H (Samples.roi 0 0 3 3) eq_refl) as (_ & Hgood & _).
    apply Hgood. simpl. lia.
  - destruct (H (Samples.roi 0 0 3 3) eq_refl) as (_ & _ & Hlist).
    simpl in Hlist. apply Hlist.
Defined.

End RoiStore.

(** ** C6: recognition over a batch *)

Section Batch.

Import Np Ext ConfigManager OcrProcessor Recognition.
Import VideoProcessor.

Lemma OCRResult_init_ids vid cid ts txt conf roi d :
  OCRResult.init vid cid ts txt conf roi = Ok d ->
  OCRResult.video_id d = vid /\ OCRResult.clip_id d = cid.
Proof.
  unfold OCRResult.init.
  destruct (negb (truthy_str txt)); [discriminate|].
  destruct (negb _); [discriminate|].
  intros [= <-]. split; reflexivity.
Qed.

Lemma ocr_rois_ids (w : world) frame ts vid cid thr rois :
  forall acc tr res,
    Forall (fun d => OCRResult.video_id d = vid /\ OCRResult.clip_id d = cid) acc ->
    (ocr_rois w frame ts vid cid thr rois acc tr).1 = Ok res ->
    Forall (fun d => OCRResult.video_id d = vid /\ OCRResult.clip_id d = cid) res.
Proof.
  induction rois as [|roi rois IH]; intros acc tr res Hacc; simpl.
  - now intros [= <-].
  - destruct (_ || _); [now apply IH|].
    destruct (Np.size _ =? 0); [now apply IH|].
    destruct (image_to_data w _) as [texts confs| |msg]; try discriminate.
    destruct (parse_tokens _ [] []) as [numeric_confs tokens].
    destruct (_ && _); [|now apply IH].
    destruct (OCRResult.init _ _ _ _ _ _) as [d|e] eqn:Einit; [|discriminate].
    apply IH. apply Forall_app. split; [exact Hacc|].
    constructor; [|constructor]. eapply OCRResult_init_ids; eauto.
Qed.

Lemma process_frame_ids (w : world) frame ts vid cid rois thr res :
  (process_frame_for_ocr w frame ts vid cid rois thr).1 = Ok res ->
  Forall (fun d => OCRResult.video_id d = vid /\ OCRResult.clip_id d = cid) res.
Proof.
  unfold process_frame_for_ocr. destruct (negb _); [discriminate|].
  apply ocr_rois_ids. constructor.
Qed.

Lemma ocr_frames_gather (w : world) cid rois thr pairs :
  forall acc tr,
    let runs := (fun p => process_frame_for_ocr w p.1 p.2 cid cid rois thr)
                  <$> pairs in
    ocr_frames w cid rois thr pairs acc tr
    = (match gather (fst <$> runs) with
       | Ok ls => Ok (acc ++ ls)
       | Raise e => Raise e
       end, tr ++ calls_made runs).
Proof.
  induction pairs as [|[frame ts] pairs IH]; intros acc tr; cbv zeta.
  - simpl. now rewrite !app_nil_r.
  - rewrite !fmap_cons. cbn [ocr_frames fst snd].
    destruct (process_frame_for_ocr w frame ts cid cid rois thr)
      as [[partial|e] tr']; cbn [gather calls_made fst snd]; [|reflexivity].
    rewrite IH. cbv zeta. rewrite <- !app_assoc.
    destruct (gather _); [|reflexivity]. now rewrite <- app_assoc.
Qed.

Lemma gather_Forall {A} (P : A -> Prop) (rs : list (result (list A))) res :
  Forall (fun r => forall l, r = Ok l -> Forall P l) rs ->
  gather rs = Ok res -> Forall P res.
Proof.
  revert res. induction rs as [|[l|e] rs IH]; intros res Hrs; simpl.
  - now intros [= <-].
  - inversion Hrs as [|? ? Hl Hrs']; subst.
    destruct (gather rs) as [ls|e]; [|discriminate].
    intros [= <-]. apply Forall_app. split; [now apply Hl|now apply IH].
  - discriminate.
Qed.

(** C6. For a valid threshold, [process_batch_for_ocr] runs
    [process_frame_for_ocr] on the (frame, timestamp) pairs of the batch in
    order, with the batch's clip id as video id and as clip id, and returns
    the per-frame results concatenated in frame order (the first frame that
    raises ends the batch with its error); its external calls are those of
    the per-frame runs, in that order; every detection returned has
    [video_id = clip_id =] the batch's clip id. *)
Theorem process_batch_in_frame_order (w : world) (frame_batch : FrameBatch.t)
    (rois : list ROI) (confidence_threshold : float) :
  (0 <= confidence_threshold /\ confidence_threshold <= 1)%Q ->
  let cid := FrameBatch.clip_id frame_batch in
  let runs :=
    (fun p => process_frame_for_ocr w p.1 p.2 cid cid rois confidence_threshold)
      <$> zip (FrameBatch.frames frame_batch)
              (FrameBatch.timestamps frame_batch) in
  process_batch_for_ocr w frame_batch rois confidence_threshold
  = (gather (fst <$> runs), calls_made runs) /\
  forall res,
    (process_batch_for_ocr w frame_batch rois confidence_threshold).1 = Ok res ->
    Forall (linked_to cid) res.
Proof.
  intros [H0 H1] cid runs.
  assert (Heq : process_batch_for_ocr w frame_batch rois confidence_threshold
                = (gather (fst <$> runs), calls_made runs)).
  { unfold process_batch_for_ocr.
    apply fle_spec in H0, H1. rewrite H0, H1. simpl.
    rewrite ocr_frames_gather. fold cid. unfold py_zip. fold runs.
    now destruct (gather (fst <$> runs)). }
  split; [exact Heq|].
  intros res Hres. rewrite Heq in Hres. simpl in Hres.
  eapply gather_Forall; [|exact Hres].
  subst runs. rewrite <- list_fmap_compose. apply Forall_fmap.
  apply Forall_forall. intros [frame ts] _ l Hl. simpl in Hl.
  apply process_frame_ids in Hl. exact Hl.
Qed.

Lemma process_batch_in_frame_order_witness :
  let w := Samples.world_of 0 (Data ["X"] [Some 100%Q]) in
  let frame_batch := Samples.batch 99 2 in
  let rois := [Samples.roi 0 0 3 3] in
  (0 <= 0 /\ 0 <= 1)%Q /\
  let cid := FrameBatch.clip_id frame_batch in
  let runs :=
    (fun p => process_frame_for_ocr w p.1 p.2 cid cid rois 0%Q)
      <$> zip (FrameBatch.frames frame_batch)
              (FrameBatch.timestamps frame_batch) in
  process_batch_for_ocr w frame_batch rois 0%Q
  = (gather (fst <$> runs), calls_made runs) /\
  forall res,
    (process_batch_for_ocr w frame_batch rois 0%Q).1 = Ok res ->
    Forall (linked_to cid) res.
Proof.
  intros w frame_batch rois.
  assert (H : (0 <= 0 /\ 0 <= 1)%Q) by (split; discriminate).
  split; [exact H|].
  exact (process_batch_in_frame_order w frame_batch rois 0%Q H).
Defined.

(** The repository's batch test: two frames, one token [X] at 100. *)
Example process_batch_example :
  (process_batch_for_ocr (Samples.world_of 0 (Data ["X"] [Some 100%Q]))
     (Samples.batch 99 2) [Samples.roi 0 0 3 3] 0%Q).1
  = Ok [ {| OCRResult.video_id := 99; OCRResult.clip_id := 99;
            OCRResult.timestamp := (0 / 10)%Q; OCRResult.text := "X";
            OCRResult.confidence := (100 / 100 / 1)%Q;
            OCRResult.roi := Samples.roi 0 0 3 3 |};
         {| OCRResult.video_id := 99; OCRResult.clip_id := 99;
            OCRResult.timestamp := (1 / 10)%Q; OCRResult.text := "X";
            OCRResult.confidence := (100 / 100 / 1)%Q;
            OCRResult.roi := Samples.roi 0 0 3 3 |} ].
Proof. vm_compute. reflexivity. Qed.

End Batch.

(** ** C2: recognition in one region *)

Section Region.

Import Np Ext ConfigManager OcrProcessor Recognition.

Lemma kept_token_spec (p : string * float) :
  kept_token p = true <-> (0 < normalized p.2)%Q /\ strip p.1 <> EmptyString.
Proof.
  unfold kept_token. rewrite andb_true_iff, flt_spec.
  destruct (strip p.1); simpl; intuition congruence.
Qed.

Lemma parse_tokens_all (pairs : list (string * float)) :
  forall numeric_confs tokens,
    parse_tokens ((fun p => (p.1, Some p.2)) <$> pairs) numeric_confs tokens
    = (numeric_confs ++ ((fun p => normalized p.2) <$> pairs),
       tokens ++ (fst <$> List.filter kept_token pairs)).
Proof.
  induction pairs as [|[text c] pairs IH]; intros ncs toks; simpl.
  - now rewrite !app_nil_r.
  - unfold kept_token at 1. simpl. fold (normalized c).
    destruct (flt 0%Q (normalized c) && truthy_str (strip text));
      rewrite IH; simpl; now rewrite <- !app_assoc.
Qed.

Lemma zip_reply (pairs : list (string * float)) :
  py_zip (fst <$> pairs) ((fun p => Some p.2) <$> pairs)
  = (fun p => (p.1, Some p.2)) <$> pairs.
Proof.
  unfold py_zip. induction pairs as [|[t c] pairs IH]; [reflexivity|].
  cbn [fmap list_fmap zip zip_with fst snd]. f_equal. exact IH.
Qed.

Lemma inject_succ (n : nat) :
  (inject_Z (Z.of_nat (S n)) == inject_Z (Z.of_nat n) + 1)%Q.
Proof. rewrite Nat2Z.inj_succ. unfold Z.succ. now rewrite inject_Z_plus. Qed.








(** What [process_frame_for_ocr] does with one ROI that is within the frame
    and whose crop is not empty, whatever the raw confidences are. *)
Lemma process_frame_region_run (w : world) (frame : ndarray)
    (timestamp : float) (video_id clip_id : Z) (roi : ROI)
    (confidence_threshold : float) (pairs : list (string * float)) :
  (0 <= confidence_threshold /\ confidence_threshold <= 1)%Q ->
  within frame roi ->
  Np.size (roi_crop frame roi) <> 0 ->
  image_to_data w (roi_crop frame roi) = reply_of pairs ->
  let text := candidate_text pairs in
  let conf := overall_confidence ((fun p => normalized p.2) <$> pairs) in
  (process_frame_for_ocr w frame timestamp video_id clip_id [roi]
     confidence_threshold).1
  = if truthy_str text && fle confidence_threshold conf then
      match OCRResult.init video_id clip_id timestamp text conf roi with
      | Ok d => Ok [d]
      | Raise e => Raise e
      end
    else Ok [].
Proof.
  intros [Ht0 Ht1] (Hx & Hy & Hh & Hw) Hsize Hreply text conf.
  unfold process_frame_for_ocr.
  apply fle_spec in Ht0, Ht1. rewrite Ht0, Ht1. simpl.
  destruct (y roi <? 0) eqn:E1; [lia|].
  destruct (x roi <? 0) eqn:E2; [lia|].
  destruct (Z.of_nat (Np.height frame) <? y roi + ConfigManager.height roi)
    eqn:E3; [lia|].
  destruct (Z.of_nat (Np.width frame) <? x roi + ConfigManager.width roi)
    eqn:E4; [lia|].
  simpl. fold (roi_crop frame roi).
  destruct (Np.size (roi_crop frame roi) =? 0) eqn:E5; [lia|].
  rewrite Hreply. unfold reply_of. rewrite zip_reply, parse_tokens_all.
  simpl. fold (candidate_text pairs). fold text. fold conf.
  destruct (truthy_str text && fle confidence_threshold conf);
    [|reflexivity].
  now destruct (OCRResult.init _ _ _ _ _ _).
Qed.

(** X29. A mean above 1.0, which takes raw confidences above 100, is refused
    by the constructor of the detection: the run of the frame raises
    [ValueError]. *)
Lemma process_frame_region_above_scale (w : world) (frame : ndarray)
    (timestamp : float) (video_id clip_id : Z) (roi : ROI)
    (confidence_threshold : float) (pairs : list (string * float)) :
  (0 <= confidence_threshold /\ confidence_threshold <= 1)%Q ->
  within frame roi ->
  Np.size (roi_crop frame roi) <> 0 ->
  image_to_data w (roi_crop frame roi) = reply_of pairs ->
  candidate_text pairs <> EmptyString ->
  (1 < overall_confidence ((fun p => normalized p.2) <$> pairs))%Q ->
  is_value_error (process_frame_for_ocr w frame timestamp video_id clip_id
                    [roi] confidence_threshold).1.
Proof.
  intros Ht Hin Hsize Hreply Htext Hconf.
  rewrite (process_frame_region_run w frame timestamp video_id clip_id roi
             confidence_threshold pairs Ht Hin Hsize Hreply).
  destruct Ht as [_ Ht1].
  set (text := candidate_text pairs) in *.
  set (conf := overall_confidence _) in *. clearbody text conf.
  assert (Htr : truthy_str text = true)
    by (destruct text; [congruence|reflexivity]).
  assert (Hc : fle confidence_threshold conf = true) by (apply fle_spec; lra).
  rewrite Htr, Hc. simpl. unfold OCRResult.init. rewrite Htr. simpl.
  assert (H1 : fle conf 1%Q = false) by (now apply fle_false).
  rewrite H1, andb_false_r. exact I.
Qed.



End Region.

(** ** Clip objects and their positions *)

Section Objects.

Import VideoProcessor.

Lemma imap_shift {A B} (f : nat -> A -> B) (l : list A) (x : A) :
  imap f (x :: l) = f 0%nat x :: imap (fun i => f (S i)) l.
Proof. reflexivity. Qed.

(** The objects of a list that sits behind [k] earlier elements. *)
Lemma objects_app (before after : list Clip) :
  objects (before ++ after)
  = objects before
    ++ imap (fun i c => ((length before + i)%nat, c)) after.
Proof. unfold objects. now rewrite imap_app. Qed.

Lemma imap_tag_snd {A} (f : nat -> nat) (l : list A) :
  snd <$> imap (fun i c => (f i, c)) l = l.
Proof.
  revert f. induction l as [|c l IH]; intros f; [reflexivity|].
  rewrite imap_shift. cbn [fmap list_fmap snd]. f_equal.
  apply (IH (fun i => f (S i))).
Qed.

Lemma objects_snd (clips : list Clip) : snd <$> objects clips = clips.
Proof. apply (imap_tag_snd (fun i => i)). Qed.

Lemma objects_lookup (clips : list Clip) (i : nat) (o : nat * Clip) :
  objects clips !! i = Some o -> o.1 = i /\ clips !! i = Some o.2.
Proof.
  unfold objects. rewrite list_lookup_imap.
  destruct (clips !! i) as [c|]; simpl; [|discriminate].
  intros [= <-]. split; reflexivity.
Qed.

Lemma objects_tag_lt (clips : list Clip) (o : nat * Clip) :
  o ∈ objects clips -> (o.1 < length clips)%nat.
Proof.
  intros Ho. apply list_elem_of_lookup in Ho as [i Hi].
  destruct (objects_lookup _ _ _ Hi) as [-> Hc].
  eapply lookup_lt_Some; eauto.
Qed.

Lemma list_remove_skip (o : nat * Clip) (l1 l2 : list (nat * Clip)) :
  Forall (fun x => x.1 <> o.1) l1 ->
  list_remove o (l1 ++ l2) = (fun r => l1 ++ r) <$> list_remove o l2.
Proof.
  induction 1 as [|x l1 Hx _ IH]; simpl.
  - now destruct (list_remove o l2).
  - destruct (decide (x.1 = o.1)); [contradiction|].
    rewrite IH. now destruct (list_remove o l2).
Qed.

Lemma list_remove_here (o : nat * Clip) (c : Clip) (l : list (nat * Clip)) :
  list_remove o ((o.1, c) :: l) = Some l.
Proof. simpl. destruct (decide (o.1 = o.1)); [reflexivity|contradiction]. Qed.

End Objects.

(** ** C4: splitting a clip *)

Section Split.

Import VideoProcessor.

Lemma filter_none (P : nat * Clip -> Prop) `{!forall o, Decision (P o)}
    (l : list (nat * Clip)) :
  Forall (fun o => ~ P o) l -> filter P l = [].
Proof.
  induction 1 as [|o l Ho _ IH]; [reflexivity|].
  rewrite filter_cons. destruct (decide (P o)); [contradiction|exact IH].
Qed.

Lemma objects_Forall (P : Clip -> Prop) (clips : list Clip) :
  Forall P clips -> Forall (fun o => P o.2) (objects clips).
Proof.
  intros H. apply Forall_forall. intros o Ho.
  apply list_elem_of_lookup in Ho as [i Hi].
  apply objects_lookup in Hi as [_ Hc].
  rewrite Forall_forall in H. apply H. eapply list_elem_of_lookup_2; eauto.
Qed.

Lemma split_target_found (cid : Z) (before after : list Clip) (target : Clip) :
  Forall (fun c => clip_id c <> Some cid) before ->
  clip_id target = Some cid ->
  head (filter (fun o => clip_id o.2 = Some cid)
          (objects (before ++ target :: after)))
  = Some (length before, target).
Proof.
  intros Hbefore Htarget. rewrite objects_app, filter_app.
  rewrite (filter_none _ (objects before))
    by (now apply (objects_Forall (fun c => clip_id c <> Some cid))).
  rewrite imap_shift, filter_cons. simpl.
  destruct (decide (clip_id target = Some cid)); [|contradiction].
  simpl. now rewrite Nat.add_0_r.
Qed.

Lemma split_target_removed (before after : list Clip) (target : Clip) :
  snd <$> default [] (list_remove (length before, target)
                        (objects (before ++ target :: after)))
  = before ++ after
  /\ is_Some (list_remove (length before, target)
                (objects (before ++ target :: after))).
Proof.
  rewrite objects_app, list_remove_skip.
  - rewrite imap_shift, Nat.add_0_r.
    rewrite (list_remove_here (length before, target)). simpl.
    split; [|eauto].
    rewrite fmap_app, objects_snd. f_equal.
    pose proof (objects_snd (before ++ target :: after)) as H.
    rewrite objects_app, fmap_app, objects_snd, imap_shift in H.
    simpl in H. apply app_inv_head in H. now injection H.
  - apply Forall_forall. intros o Ho. apply objects_tag_lt in Ho. simpl. lia.
Qed.

(** C4. [split_clip] raises [ValueError] and leaves the list as it was when
    no clip has the given identity, or when the split time is not strictly
    between the start and the end of the target (the first clip with that
    identity); otherwise it removes the target and appends the two clips
    (start, split_time) and (split_time, end), both with the target's video
    id and no identity, so that the list has one clip more. *)
Theorem split_clip_spec (clips : list Clip) (clip_id_to_split : Z)
    (split_time : float) :
  (Forall (fun c => clip_id c <> Some clip_id_to_split) clips ->
     is_value_error (split_clip clips clip_id_to_split split_time).1 /\
     (split_clip clips clip_id_to_split split_time).2 = clips) /\
  (forall before target after,
     clips = before ++ target :: after ->
     Forall (fun c => clip_id c <> Some clip_id_to_split) before ->
     clip_id target = Some clip_id_to_split ->
     (~ (start_time target < split_time /\ split_time < end_time target)%Q ->
        is_value_error (split_clip clips clip_id_to_split split_time).1 /\
        (split_clip clips clip_id_to_split split_time).2 = clips) /\
     ((start_time target < split_time /\ split_time < end_time target)%Q ->
        let new1 := {| clip_id := None; video_id := video_id target;
                       start_time := start_time target;
                       end_time := split_time; file_path := None |} in
        let new2 := {| clip_id := None; video_id := video_id target;
                       start_time := split_time;
                       end_time := end_time target; file_path := None |} in
        split_clip clips clip_id_to_split split_time
        = (Ok (new1, new2), before ++ after ++ [new1; new2]) /\
        length (split_clip clips clip_id_to_split split_time).2
        = S (length clips))).
Proof.
  split.
  - intros Hnone. unfold split_clip.
    rewrite (filter_none _ (objects clips))
      by (now apply (objects_Forall
                       (fun c => clip_id c <> Some clip_id_to_split))).
    simpl. auto.
  - intros before target after -> Hbefore Htarget. unfold split_clip.
    rewrite (split_target_found _ _ _ _ Hbefore Htarget). cbn [snd].
    split.
    + intros Hout.
      destruct (flt (start_time target) split_time) eqn:E1;
        destruct (flt split_time (end_time target)) eqn:E2; simpl; auto.
      apply flt_spec in E1, E2. tauto.
    + intros [H1 H2]. cbv zeta. apply flt_spec in H1, H2.
      rewrite H1, H2. simpl.
      destruct (split_target_removed before after target) as [Hrm [l Hl]].
      rewrite Hl in *. simpl in Hrm. rewrite Hrm.
      split; [now rewrite <- app_assoc|].
      simpl. rewrite !length_app. simpl. lia.
Qed.

Lemma split_clip_spec_witness :
  let target := Samples.clip (Some 201) 0%Q 10%Q in
  (is_value_error (split_clip [target] 7 5%Q).1 /\
   (split_clip [target] 7 5%Q).2 = [target]) /\
  (is_value_error (split_clip [target] 201 10%Q).1 /\
   (split_clip [target] 201 10%Q).2 = [target]) /\
  (is_value_error (split_clip [target] 201 0%Q).1 /\
   (split_clip [target] 201 0%Q).2 = [target]) /\
  split_clip [target] 201 5%Q
  = (Ok (Clip_init (Some 1) 0%Q 5%Q, Clip_init (Some 1) 5%Q 10%Q),
     [Clip_init (Some 1) 0%Q 5%Q; Clip_init (Some 1) 5%Q 10%Q]).
Proof.
  intros target.
  assert (Hid : clip_id target = Some 201) by reflexivity.
  split; [|split; [|split]].
  - apply (proj1 (split_clip_spec [target] 7 5%Q)).
    repeat constructor. discriminate.
  - destruct (proj2 (split_clip_spec [target] 201 10%Q) [] target []
                eq_refl ltac:(constructor) Hid) as [Hout _].
    apply Hout. intros [_ H]. discriminate H.
  - destruct (proj2 (split_clip_spec [target] 201 0%Q) [] target []
                eq_refl ltac:(constructor) Hid) as [Hout _].
    apply Hout. intros [H _]. discriminate H.
  - destruct (proj2 (split_clip_spec [target] 201 5%Q) [] target []
                eq_refl ltac:(constructor) Hid) as [_ Hin].
    destruct Hin as [Heq _]; [split; reflexivity|]. exact Heq.
Defined.

End Split.

(** ** C5: frame sampling *)

Section Sampler.

Import Np Ext VideoHandler VideoProcessor Sampling.

Lemma offset_linear (iv : float) (i : nat) :
  (offset iv i == inject_Z (Z.of_nat i) * iv)%Q.
Proof.
  induction i as [|i IH]; [reflexivity|].
  change (offset iv (S i)) with (offset iv i + iv)%Q.
  rewrite IH, inject_succ. ring.
Qed.



Lemma interval_positive (fps : float) : (0 < fps)%Q -> (0 < 1 / fps)%Q.
Proof.
  intros H. unfold Qdiv. rewrite Qmult_1_l. now apply Qinv_lt_0_compat.
Qed.

Lemma rounds_reach (dur iv : float) :
  (0 < iv)%Q -> (dur <= inject_Z (Z.of_nat (rounds dur iv)) * iv)%Q.
Proof.
  intros Hiv. unfold rounds.
  assert (H1 : (dur / iv <= inject_Z (Qceiling (dur / iv)))%Q)
    by apply Qle_ceiling.
  assert (H2 : (inject_Z (Qceiling (dur / iv))
                <= inject_Z (Z.of_nat (Z.to_nat (Qceiling (dur / iv)))))%Q).
  { rewrite <- Zle_Qle. lia. }
  assert (H3 : (dur == dur / iv * iv)%Q).
  { unfold Qdiv. rewrite <- Qmult_assoc, (Qmult_comm (/ iv)), Qmult_inv_r,
      Qmult_1_r; [reflexivity|]. intros E. rewrite E in Hiv. discriminate. }
  rewrite H3 at 1. apply Qmult_le_compat_r; [|now apply Qlt_le_weak].
  eapply Qle_trans; eauto.
Qed.

(** Enough fuel ends the loop. *)
Lemma sample_loop_ends (w : world) (path : string) (start dur iv : float)
    (m : nat) :
  (0 < iv)%Q -> (dur <= inject_Z (Z.of_nat m) * iv)%Q ->
  forall fuel k batch tr,
    (m - k < fuel)%nat ->
    is_Some (sample_loop fuel w path start dur iv k (offset iv k) batch tr).
Proof.
  intros Hiv Hm. induction fuel as [|fuel IH]; intros k batch tr Hk; [lia|].
  simpl. destruct (flt (offset iv k) dur) eqn:E; [|eauto].
  destruct (capture_read w path k _); [|eauto].
  apply (IH (S k)). apply flt_spec in E.
  assert (k < m)%nat; [|lia].
  destruct (decide (k < m)%nat) as [|Hge]; [assumption|exfalso].
  assert (Hle : (inject_Z (Z.of_nat m) * iv <= offset iv k)%Q).
  { rewrite offset_linear. apply Qmult_le_compat_r; [|now apply Qlt_le_weak].
    rewrite <- Zle_Qle. lia. }
  apply (Qlt_irrefl dur).
  eapply Qle_lt_trans; [exact Hm|]. eapply Qle_lt_trans; [exact Hle|exact E].
Qed.

(** More fuel does not change a result. *)
Lemma sample_loop_more_fuel (w : world) (path : string) (start dur iv : float) :
  forall fuel fuel' k cur batch tr r,
    sample_loop fuel w path start dur iv k cur batch tr = Some r ->
    (fuel <= fuel')%nat ->
    sample_loop fuel' w path start dur iv k cur batch tr = Some r.
Proof.
  induction fuel as [|fuel IH]; intros fuel' k cur batch tr r; [discriminate|].
  intros Hr Hle. destruct fuel' as [|fuel']; [lia|]. simpl in *.
  destruct (flt cur dur); [|exact Hr].
  destruct (capture_read w path k _); [|exact Hr].
  eapply IH; [exact Hr|lia].
Qed.

(** What a finished loop has added to the batch. *)
Lemma sample_loop_result (w : world) (path : string) (start dur iv : float) :
  forall fuel k batch tr b tr',
    sample_loop fuel w path start dur iv k (offset iv k) batch tr
    = Some (b, tr') ->
    exists added : list ndarray,
      FrameBatch.clip_id b = FrameBatch.clip_id batch /\
      FrameBatch.frames b = FrameBatch.frames batch ++ added /\
      FrameBatch.timestamps b
      = FrameBatch.timestamps batch
        ++ ((fun i => (start + offset iv i)%Q) <$> seq k (length added)) /\
      (forall j frame, added !! j = Some frame ->
         (offset iv (k + j) < dur)%Q /\
         capture_read w path (k + j)%nat (offset iv (k + j) * 1000)%Q
         = Some frame) /\
      (~ (offset iv (k + length added) < dur)%Q \/
       capture_read w path (k + length added)%nat
         (offset iv (k + length added) * 1000)%Q = None).
Proof.
  induction fuel as [|fuel IH]; intros k batch tr b tr'; [discriminate|].
  simpl. destruct (flt (offset iv k) dur) eqn:E.
  - destruct (capture_read w path k _) as [frame|] eqn:R.
    + intros Hrec.
      apply (IH (S k)) in Hrec as (added & Hid & Hfr & Hts & Hread & Hstop).
      exists (frame :: added). simpl in *.
      rewrite <- !app_assoc in Hfr, Hts. simpl in *.
      split; [exact Hid|]. split; [exact Hfr|]. split; [exact Hts|].
      split.
      * intros [|j] fr Hj; simpl in Hj.
        -- injection Hj as <-. rewrite Nat.add_0_r.
           split; [now apply flt_spec|exact R].
        -- rewrite Nat.add_succ_r. now apply Hread.
      * now rewrite Nat.add_succ_r.
    + intros [= <- <-]. exists []. simpl. rewrite !app_nil_r, Nat.add_0_r.
      split; [reflexivity|]. split; [reflexivity|]. split; [reflexivity|].
      split; [intros j fr Hj; discriminate|now right].
  - intros [= <- <-]. exists []. simpl. rewrite !app_nil_r, Nat.add_0_r.
    split; [reflexivity|]. split; [reflexivity|]. split; [reflexivity|].
    split; [intros j fr Hj; discriminate|].
    left. intros H. apply flt_spec in H. congruence.
Qed.

(** The steps of [extract_frames_for_clip] up to the loop, when trimming
    and opening succeed. *)
Lemma extract_reaches_loop (w : world) (clip : Clip) (video : Video)
    (fps : float) (temp_dir : option string) :
  (0 < fps)%Q ->
  let path := segment_path w clip temp_dir in
  (file_path clip = None ->
   exists out, ffmpeg_trim w (start_time clip) (end_time clip)
                 (source_path video) path = Exit0 out) ->
  is_opened w path = true ->
  exists clip' tr0,
    file_path clip' = Some path /\
    (file_path clip = None ->
     FfmpegTrim (start_time clip) (end_time clip) (source_path video) path
     ∈ tr0) /\
    forall fuel,
      extract_frames_for_clip fuel w clip video fps temp_dir
      = match sample_loop fuel w path (start_time clip)
                (end_time clip - start_time clip)%Q (1 / fps)%Q 0 0%Q
                (FrameBatch.init (id_or (clip_id clip) id (-1))) tr0 with
        | None => None
        | Some (b, tr) => Some (Ok b, clip', tr ++ [CaptureRelease])
        end.
Proof.
  intros Hfps path Htrim Hopen. unfold extract_frames_for_clip.
  assert (Hguard : fle fps 0%Q = false) by (now apply fle_false).
  rewrite Hguard. unfold segment_path in path.
  destruct (file_path clip) as [p|] eqn:Ep.
  - subst path. rewrite Hopen. simpl.
    exists clip, [CaptureOpen p]. split; [exact Ep|].
    split; [discriminate|reflexivity].
  - destruct (Htrim eq_refl) as [out Hout].
    destruct temp_dir as [d|]; cbn -[path_join temp_clip_name] in *;
      subst path; rewrite Hout; cbn -[path_join temp_clip_name];
      rewrite Hopen; cbn -[path_join temp_clip_name];
      eexists (set_file_path clip _), _;
      (split; [reflexivity|]); (split; [|reflexivity]);
      intros _; set_solver.
Qed.

(** The loop only appends to the trace. *)
Lemma sample_loop_trace (w : world) (path : string) (start dur iv : float) :
  forall fuel k cur batch tr b tr',
    sample_loop fuel w path start dur iv k cur batch tr = Some (b, tr') ->
    exists more, tr' = tr ++ more.
Proof.
  induction fuel as [|fuel IH]; intros k cur batch tr b tr'; [discriminate|].
  simpl. destruct (flt cur dur).
  - destruct (capture_read w path k _).
    + intros H. apply IH in H as [more ->]. rewrite <- app_assoc. eauto.
    + intros [= <- <-]. eauto.
  - intros [= <- <-]. exists []. now rewrite app_nil_r.
Qed.

(** A whole run, when trimming and opening succeed. *)
Lemma extract_runs (w : world) (clip : Clip) (video : Video) (fps : float)
    (temp_dir : option string) :
  (0 < fps)%Q ->
  let path := segment_path w clip temp_dir in
  let interval := (1 / fps)%Q in
  let duration := (end_time clip - start_time clip)%Q in
  (file_path clip = None ->
   exists out, ffmpeg_trim w (start_time clip) (end_time clip)
                 (source_path video) path = Exit0 out) ->
  is_opened w path = true ->
  exists (enough : nat) (batch : FrameBatch.t) (clip' : Clip)
         (tr0 tr1 : list event),
    (forall fuel, (enough <= fuel)%nat ->
       extract_frames_for_clip fuel w clip video fps temp_dir
       = Some (Ok batch, clip', tr1 ++ [CaptureRelease])) /\
    sample_loop enough w path (start_time clip) duration interval 0
      (offset interval 0) (FrameBatch.init (id_or (clip_id clip) id (-1))) tr0
    = Some (batch, tr1) /\
    file_path clip' = Some path /\
    (file_path clip = None ->
     FfmpegTrim (start_time clip) (end_time clip) (source_path video) path
     ∈ tr1).
Proof.
  intros Hfps path interval duration Htrim Hopen.
  pose proof (interval_positive _ Hfps) as Hiv. fold interval in Hiv.
  destruct (extract_reaches_loop w clip video fps temp_dir Hfps Htrim Hopen)
    as (clip' & tr0 & Hpath & Hev & Hrun).
  fold path duration interval in Hrun, Hev, Hpath.
  change 0%Q with (offset interval 0) in Hrun.
  set (enough := S (rounds duration interval)).
  destruct (sample_loop_ends w path (start_time clip) duration interval
              (rounds duration interval) Hiv (rounds_reach _ _ Hiv)
              enough 0%nat
              (FrameBatch.init (id_or (clip_id clip) id (-1))) tr0)
    as [[batch tr] Hloop]; [unfold enough; lia|].
  exists enough, batch, clip', tr0, tr.
  split; [|split; [exact Hloop|split; [exact Hpath|]]].
  - intros fuel Hfuel. rewrite Hrun.
    now rewrite (sample_loop_more_fuel _ _ _ _ _ _ _ _ _ _ _ _ Hloop Hfuel).
  - intros Hnone. apply sample_loop_trace in Hloop as [more ->].
    apply elem_of_app. left. now apply Hev.
Qed.



Example extract_frames_example :
  let w := Samples.world_of 3 Samples.hello_world in
  let clip := Samples.clip (Some 1) 0%Q 0.3%Q in
  match extract_frames_for_clip 5 w clip Samples.video 10%Q None with
  | Some (Ok batch, clip', _) =>
      length (FrameBatch.frames batch) = 3%nat /\
      Forall2 Qeq (FrameBatch.timestamps batch) [0%Q; 0.1%Q; 0.2%Q] /\
      FrameBatch.clip_id batch = 1 /\
      file_path clip' = Some "/tmp/tmpdir/clip_1.mp4"
  | _ => False
  end.
Proof. vm_compute. repeat split; repeat constructor. Qed.

End Sampler.

(** ** C9: clips without a usable identity *)

Section Placeholder.

Import Np Ext VideoHandler VideoProcessor Sampling.

Lemma falsy_identity (clip : Clip) :
  clip_id clip = None \/ clip_id clip = Some 0 ->
  temp_clip_name clip = "clip_temp.mp4"
  /\ id_or (clip_id clip) id (-1) = -1.
Proof.
  unfold temp_clip_name. intros [H | H]; rewrite H; split; reflexivity.
Qed.

(** C9. A clip whose identity is 0 or unassigned is treated as having no
    identity: the name of its trimmed segment is [clip_temp.mp4], not a name
    built from the identity, and a run of [extract_frames_for_clip] (with
    [fps > 0], trimming and opening succeeding, any sufficient fuel) returns
    a batch whose clip id is the sentinel [-1]; when the clip had no segment
    yet, the trim call wrote to [clip_temp.mp4] in the temporary directory
    and the clip now records that path. *)
Theorem extract_placeholder_identity (w : world) (clip : Clip) (video : Video)
    (sampling_rate_fps : float) (temp_dir : option string) :
  clip_id clip = None \/ clip_id clip = Some 0 ->
  (0 < sampling_rate_fps)%Q ->
  let path := segment_path w clip temp_dir in
  (file_path clip = None ->
   exists out, ffmpeg_trim w (start_time clip) (end_time clip)
                 (source_path video) path = Exit0 out) ->
  is_opened w path = true ->
  temp_clip_name clip = "clip_temp.mp4" /\
  exists (enough : nat) (batch : FrameBatch.t) (clip' : Clip)
         (trace : list event),
    (forall fuel, (enough <= fuel)%nat ->
       extract_frames_for_clip fuel w clip video sampling_rate_fps temp_dir
       = Some (Ok batch, clip', trace)) /\
    FrameBatch.clip_id batch = -1 /\
    (file_path clip = None ->
     let cached := path_join (default (mkdtemp w) temp_dir) "clip_temp.mp4" in
     file_path clip' = Some cached /\
     FfmpegTrim (start_time clip) (end_time clip) (source_path video) cached
     ∈ trace).
Proof.
  intros Hid Hfps path Htrim Hopen.
  destruct (falsy_identity clip Hid) as [Hname Hsentinel].
  split; [exact Hname|].
  destruct (extract_runs w clip video sampling_rate_fps temp_dir
              Hfps Htrim Hopen)
    as (enough & batch & clip' & tr0 & tr & Hrun & Hloop & Hpath & Hev).
  exists enough, batch, clip', (tr ++ [CaptureRelease]).
  split; [exact Hrun|]. split.
  - apply sample_loop_result in Hloop as (added & Hcid & _).
    rewrite Hcid. simpl. exact Hsentinel.
  - intros Hnone. cbv zeta.
    assert (Hseg : segment_path w clip temp_dir
                   = path_join (default (mkdtemp w) temp_dir) "clip_temp.mp4").
    { unfold segment_path. now rewrite Hnone, Hname. }
    rewrite <- Hseg. split; [exact Hpath|].
    apply elem_of_app. left. now apply Hev.
Qed.

(** A clip with a non-zero identity keeps it in both places. *)
Lemma extract_keeps_identity (clip : Clip) (n : Z) :
  clip_id clip = Some n -> n <> 0 ->
  temp_clip_name clip = ("clip_" ++ str_int n ++ ".mp4")%string
  /\ id_or (clip_id clip) id (-1) = n.
Proof.
  intros Hc Hn. unfold temp_clip_name, id_or. rewrite Hc.
  destruct (n =? 0) eqn:E; [lia|]. split; reflexivity.
Qed.

Lemma extract_placeholder_identity_witness :
  let w := Samples.world_of 3 Samples.hello_world in
  let clip := Samples.clip (Some 0) 0%Q 0.3%Q in
  temp_clip_name clip = "clip_temp.mp4" /\
  exists (enough : nat) (batch : FrameBatch.t) (clip' : Clip)
         (trace : list event),
    (forall fuel, (enough <= fuel)%nat ->
       extract_frames_for_clip fuel w clip Samples.video 10%Q None
       = Some (Ok batch, clip', trace)) /\
    FrameBatch.clip_id batch = -1 /\
    (file_path clip = None ->
     file_path clip' = Some "/tmp/tmpdir/clip_temp.mp4" /\
     FfmpegTrim 0%Q 0.3%Q "tests/assets/test_video.mp4"
       "/tmp/tmpdir/clip_temp.mp4" ∈ trace).
Proof.
  intros w clip.
  apply (extract_placeholder_identity w clip Samples.video 10%Q None).
  - right. reflexivity.
  - reflexivity.
  - intros _. exists EmptyString. reflexivity.
  - reflexivity.
Defined.

End Placeholder.

(** ** Merging with well-formed arguments

    What [merge_clips] does when the clip identities are pairwise distinct
    and the id list is strictly ascending. *)

Section MergeWellFormed.

Import VideoProcessor.

(** *** The guard on the id list *)

Lemma sorted_ids_fixpoint (ids : list Z) :
  sorted Z.ltb ids = ids <-> Sorted Z.le ids.
Proof.
  split.
  - intros <-. apply sorted_Sorted; intros x y; lia.
  - intros Hs. apply (Sorted_StronglySorted Z.le_trans) in Hs.
    unfold sorted. change ids with ([] ++ ids) in Hs at 1.
    change ids with ([] ++ ids) at 2.
    revert Hs. generalize (@nil Z) as acc.
    induction ids as [|x ids IH]; intros acc Hs; simpl.
    + now rewrite app_nil_r.
    + rewrite (insort_last Z.ltb x acc).
      * rewrite (IH (acc ++ [x])); rewrite <- app_assoc; [reflexivity|exact Hs].
      * apply Forall_forall. intros y Hy. apply Z.ltb_ge.
        eapply (StronglySorted_across Z.le); eauto. now left.
Qed.

(** *** The dictionary of clips *)

Lemma id_map_from_Some (objs : list (nat * Clip))
    (m : gmap (option Z) (nat * Clip)) (k : option Z) (o : nat * Clip) :
  fold_left (fun m o => <[clip_id o.2 := o]> m) objs m !! k = Some o ->
  (o ∈ objs /\ clip_id o.2 = k) \/ m !! k = Some o.
Proof.
  revert m. induction objs as [|x objs IH]; intros m; simpl; [now right|].
  intros H. apply IH in H as [[Ho Hk]|H].
  - left. split; [now right|exact Hk].
  - destruct (decide (clip_id x.2 = k)) as [Hx|Hx].
    + rewrite Hx, lookup_insert_eq in H. injection H as <-.
      left. split; [now left|exact Hx].
    + rewrite lookup_insert_ne in H by exact Hx. now right.
Qed.

Lemma id_map_from_present (objs : list (nat * Clip))
    (m : gmap (option Z) (nat * Clip)) (k : option Z) :
  is_Some (m !! k) \/ (exists o, o ∈ objs /\ clip_id o.2 = k) ->
  is_Some (fold_left (fun m o => <[clip_id o.2 := o]> m) objs m !! k).
Proof.
  revert m. induction objs as [|x objs IH]; intros m; simpl.
  - intros [H|(o & Ho & _)]; [exact H|]. now apply elem_of_nil in Ho.
  - intros H. apply IH.
    destruct (decide (clip_id x.2 = k)) as [Hx|Hx].
    + left. rewrite Hx, lookup_insert_eq. eauto.
    + rewrite lookup_insert_ne by exact Hx.
      destruct H as [H|(o & Ho & Hk)]; [now left|right].
      apply elem_of_cons in Ho as [->|Ho]; [contradiction|eauto].
Qed.

Lemma id_map_Some (clips : list Clip) (k : option Z) (o : nat * Clip) :
  id_map (objects clips) !! k = Some o ->
  o ∈ objects clips /\ clip_id o.2 = k.
Proof.
  intros H. apply id_map_from_Some in H as [H|H]; [exact H|].
  now rewrite lookup_empty in H.
Qed.

Lemma id_map_present (clips : list Clip) (c : Clip) :
  c ∈ clips -> is_Some (id_map (objects clips) !! clip_id c).
Proof.
  intros Hc. apply id_map_from_present. right.
  apply list_elem_of_lookup in Hc as [i Hi].
  exists (i, c). split; [|reflexivity].
  apply list_elem_of_lookup. exists i. unfold objects.
  now rewrite list_lookup_imap, Hi.
Qed.

(** *** Removing the selected objects *)

Lemma objects_fst (clips : list Clip) :
  fst <$> objects clips = seq 0 (length clips).
Proof.
  unfold objects. apply list_eq. intros i.
  rewrite list_lookup_fmap, list_lookup_imap.
  destruct (clips !! i) as [c|] eqn:E; simpl.
  - symmetry. apply lookup_seq. split; [reflexivity|].
    eapply lookup_lt_Some; eauto.
  - symmetry. apply lookup_ge_None. rewrite length_seq.
    now apply lookup_ge_None in E.
Qed.

Lemma objects_tags_NoDup (clips : list Clip) : NoDup (fst <$> objects clips).
Proof. rewrite objects_fst. apply NoDup_seq. Qed.

Lemma same_tag_same_object (l : list (nat * Clip)) (a b : nat * Clip) :
  NoDup (fst <$> l) -> a ∈ l -> b ∈ l -> a.1 = b.1 -> a = b.
Proof.
  intros Hnd Ha Hb Hab.
  apply list_elem_of_lookup in Ha as [i Hi].
  apply list_elem_of_lookup in Hb as [j Hj].
  assert (i = j); [|congruence].
  eapply NoDup_lookup; [exact Hnd| |];
    rewrite list_lookup_fmap; [rewrite Hi|rewrite Hj]; simpl;
    [reflexivity|now rewrite Hab].
Qed.

Lemma filter_all {A} (P : A -> Prop) `{!forall x, Decision (P x)}
    (l : list A) :
  Forall P l -> filter P l = l.
Proof.
  induction 1 as [|x l Hx _ IH]; [reflexivity|].
  rewrite filter_cons. destruct (decide (P x)); [|contradiction].
  now rewrite IH.
Qed.

Lemma list_remove_filter (o : nat * Clip) (l : list (nat * Clip)) :
  NoDup (fst <$> l) -> o.1 ∈ fst <$> l ->
  list_remove o l = Some (filter (fun x => x.1 <> o.1) l).
Proof.
  induction l as [|x l IH]; intros Hnd Hin.
  - now apply elem_of_nil in Hin.
  - cbn [fmap list_fmap] in Hnd, Hin.
    apply NoDup_cons in Hnd as [Hx Hnd]. rewrite filter_cons.
    cbn [list_remove].
    destruct (decide (x.1 = o.1)) as [E|E].
    + destruct (decide (x.1 <> o.1)); [contradiction|].
      f_equal. symmetry. apply filter_all. apply Forall_forall.
      intros y Hy Hyo. apply Hx. rewrite E, <- Hyo.
      apply list_elem_of_fmap. eauto.
    + destruct (decide (x.1 <> o.1)); [|contradiction].
      apply elem_of_cons in Hin as [Hin|Hin]; [congruence|].
      now rewrite (IH Hnd Hin).
Qed.

Lemma filter_tags_NoDup (P : nat * Clip -> Prop) `{!forall x, Decision (P x)}
    (l : list (nat * Clip)) :
  NoDup (fst <$> l) -> NoDup (fst <$> filter P l).
Proof.
  induction l as [|x l IH]; [intros _; constructor|].
  cbn [fmap list_fmap]. intros Hnd. apply NoDup_cons in Hnd as [Hx Hnd].
  rewrite filter_cons. destruct (decide (P x)); [|now apply IH].
  cbn [fmap list_fmap]. apply NoDup_cons. split; [|now apply IH].
  intros Hin. apply Hx. apply list_elem_of_fmap in Hin as (y & Hy1 & Hy2).
  apply list_elem_of_filter in Hy2 as [_ Hy2].
  apply list_elem_of_fmap. eauto.
Qed.

Lemma remove_selected_filter (selected l : list (nat * Clip)) :
  NoDup (fst <$> selected) -> NoDup (fst <$> l) ->
  Forall (fun o => o.1 ∈ fst <$> l) selected ->
  remove_selected selected l
  = (Ok (), filter (fun x => x.1 ∉ fst <$> selected) l).
Proof.
  revert l. induction selected as [|o selected IH]; intros l Hsel Hl Hin.
  - simpl. rewrite filter_all; [reflexivity|].
    apply Forall_forall. intros x _ Hx. now apply elem_of_nil in Hx.
  - cbn [fmap list_fmap] in Hsel. apply NoDup_cons in Hsel as [Ho Hsel].
    inversion Hin as [|? ? Hino Hin']; subst.
    cbn [remove_selected]. rewrite (list_remove_filter o l Hl Hino).
    rewrite IH.
    + f_equal. rewrite list_filter_filter. apply list_filter_iff.
      intros x. cbn [fmap list_fmap]. rewrite not_elem_of_cons. tauto.
    + exact Hsel.
    + now apply filter_tags_NoDup.
    + apply Forall_forall. intros y Hy.
      rewrite Forall_forall in Hin'. specialize (Hin' y Hy).
      apply list_elem_of_fmap in Hin' as (z & Hz1 & Hz2).
      apply list_elem_of_fmap. exists z. split; [exact Hz1|].
      apply list_elem_of_filter. split; [|exact Hz2].
      intros E. apply Ho. rewrite <- E, <- Hz1.
      apply list_elem_of_fmap. eauto.
Qed.

Lemma remove_selected_length (selected l l' : list (nat * Clip)) :
  remove_selected selected l = (Ok (), l') ->
  (length l' + length selected = length l)%nat.
Proof.
  revert l. induction selected as [|o selected IH]; intros l; simpl.
  - intros [= <-]. lia.
  - destruct (list_remove o l) as [l1|] eqn:E; [|discriminate].
    intros H. apply IH in H.
    assert (length l = S (length l1)); [|lia].
    clear H IH. revert l1 E. induction l as [|x l IHl]; intros l1; simpl.
    + discriminate.
    + destruct (decide (x.1 = o.1)); [now intros [= <-]|].
      destruct (list_remove o l) as [l2|]; [|discriminate].
      simpl. intros [= <-]. simpl. f_equal. now apply IHl.
Qed.

(** *** [min] and [max] *)

Lemma min_from_spec (x : float) (l : list float) :
  min_from x l ∈ x :: l /\ Forall (fun y => (min_from x l <= y)%Q) (x :: l).
Proof.
  unfold min_from. revert x. induction l as [|y l IH]; intros x; simpl.
  - split; [now left|]. constructor; [apply Qle_refl|constructor].
  - destruct (flt y x) eqn:E.
    + destruct (IH y) as [Hin Hall]. split.
      * right. exact Hin.
      * apply flt_spec in E. inversion Hall as [|? ? Hy Hl]; subst.
        constructor; [|exact Hall].
        eapply Qle_trans; [exact Hy|now apply Qlt_le_weak].
    + destruct (IH x) as [Hin Hall]. split.
      * apply elem_of_cons in Hin as [->|Hin]; [now left|right; now right].
      * apply flt_false in E. inversion Hall as [|? ? Hx Hl]; subst.
        constructor; [exact Hx|]. constructor; [|exact Hl].
        eapply Qle_trans; eauto.
Qed.

Lemma max_from_spec (x : float) (l : list float) :
  max_from x l ∈ x :: l /\ Forall (fun y => (y <= max_from x l)%Q) (x :: l).
Proof.
  unfold max_from. revert x. induction l as [|y l IH]; intros x; simpl.
  - split; [now left|]. constructor; [apply Qle_refl|constructor].
  - destruct (flt x y) eqn:E.
    + destruct (IH y) as [Hin Hall]. split.
      * right. exact Hin.
      * apply flt_spec in E. inversion Hall as [|? ? Hy Hl]; subst.
        constructor; [|exact Hall].
        eapply Qle_trans; [apply Qlt_le_weak; exact E|exact Hy].
    + destruct (IH x) as [Hin Hall]. split.
      * apply elem_of_cons in Hin as [->|Hin]; [now left|right; now right].
      * apply flt_false in E. inversion Hall as [|? ? Hx Hl]; subst.
        constructor; [exact Hx|]. constructor; [|exact Hl].
        eapply Qle_trans; eauto.
Qed.

(** *** The selected clips *)

Lemma NoDup_fmap_inj_on {A B} (f : A -> B) (l : list A) (a b : A) :
  NoDup (f <$> l) -> a ∈ l -> b ∈ l -> f a = f b -> a = b.
Proof.
  intros Hnd Ha Hb Hab.
  apply list_elem_of_lookup in Ha as [i Hi].
  apply list_elem_of_lookup in Hb as [j Hj].
  assert (i = j); [|congruence].
  eapply NoDup_lookup; [exact Hnd| |];
    rewrite list_lookup_fmap; [rewrite Hi|rewrite Hj]; simpl;
    [reflexivity|now rewrite Hab].
Qed.

Lemma omap_all_Some {A B} (f : A -> option B) (l : list A) :
  Forall (fun x => is_Some (f x)) l ->
  Forall2 (fun x y => f x = Some y) l (omap f l).
Proof.
  induction 1 as [|x l [y Hy] _ IH]; simpl; [constructor|].
  rewrite Hy. now constructor.
Qed.

Lemma objects_elem (clips : list Clip) (o : nat * Clip) :
  o ∈ objects clips -> o.2 ∈ clips.
Proof.
  intros Ho. apply list_elem_of_lookup in Ho as [i Hi].
  apply objects_lookup in Hi as [_ Hc]. eapply list_elem_of_lookup_2; eauto.
Qed.

Lemma objects_clip_ids_NoDup (clips : list Clip) :
  NoDup (clip_id <$> clips) ->
  NoDup ((fun o => clip_id o.2) <$> objects clips).
Proof.
  intros H. rewrite <- (objects_snd clips), <- list_fmap_compose in H.
  exact H.
Qed.

(** The objects picked for the ids: one per id, in the order of the ids. *)
Lemma selected_objects (clips : list Clip) (ids : list Z) :
  (forall cid, cid ∈ ids -> Some cid ∈ clip_id <$> clips) ->
  Forall2 (fun cid o =>
             id_map (objects clips) !! Some cid = Some o /\
             o ∈ objects clips /\ clip_id o.2 = Some cid)
    ids (omap (fun cid => id_map (objects clips) !! Some cid) ids).
Proof.
  intros Hpresent.
  assert (Hall : Forall (fun cid => is_Some (id_map (objects clips) !! Some cid))
                   ids).
  { apply Forall_forall. intros cid Hcid.
    destruct (proj1 (list_elem_of_fmap _ _ _) (Hpresent cid Hcid))
      as (c & Hid & Hc).
    rewrite Hid. now apply id_map_present. }
  apply omap_all_Some in Hall.
  apply Forall2_same_length_lookup_2; [now apply Forall2_length in Hall|].
  intros i cid o Hi Ho.
  pose proof (Forall2_lookup_lr _ _ _ _ _ _ Hall Hi Ho) as Hlook.
  split; [exact Hlook|]. now apply id_map_Some.
Qed.

Lemma selected_tags_NoDup (clips : list Clip) (ids : list Z)
    (selected : list (nat * Clip)) :
  NoDup ids ->
  Forall2 (fun cid o => o ∈ objects clips /\ clip_id o.2 = Some cid)
    ids selected ->
  NoDup (fst <$> selected).
Proof.
  intros Hnd Hsel. revert Hnd.
  induction Hsel as [|cid o ids selected [Ho Hid] Hrest IH]; intros Hnd.
  - constructor.
  - apply NoDup_cons in Hnd as [Hcid Hnd]. cbn [fmap list_fmap].
    apply NoDup_cons. split; [|now apply IH].
    intros Hin. apply Hcid.
    apply list_elem_of_fmap in Hin as (o' & Htag & Ho').
    apply list_elem_of_lookup in Ho' as [j Hj].
    destruct (Forall2_lookup_r _ _ _ _ _ Hrest Hj) as (cid' & Hcid' & Ho'' & Hid').
    assert (o = o').
    { apply (same_tag_same_object (objects clips));
        [apply objects_tags_NoDup|exact Ho|exact Ho''|exact Htag]. }
    subst o'. assert (cid = cid') by congruence. subst cid'.
    eapply list_elem_of_lookup_2; eauto.
Qed.

(** Filtering the objects by a property of the clip is filtering the clips. *)
Lemma filter_tagged (f : nat -> nat) (P : Clip -> Prop)
    `{!forall c, Decision (P c)} (clips : list Clip) :
  snd <$> filter (fun o : nat * Clip => P o.2)
            (imap (fun i c => (f i, c)) clips)
  = filter P clips.
Proof.
  revert f. induction clips as [|c clips IH]; intros f; [reflexivity|].
  rewrite imap_shift, !filter_cons. cbn [snd].
  destruct (decide (P c)); cbn [fmap list_fmap snd];
    rewrite <- (IH (fun i => f (S i))); reflexivity.
Qed.

Lemma filter_objects (P : Clip -> Prop) `{!forall c, Decision (P c)}
    (clips : list Clip) :
  snd <$> filter (fun o => P o.2) (objects clips) = filter P clips.
Proof. apply (filter_tagged (fun i => i)). Qed.

Lemma filter_ext_in {A} (P Q : A -> Prop) `{!forall x, Decision (P x)}
    `{!forall x, Decision (Q x)} (l : list A) :
  (forall x, x ∈ l -> (P x <-> Q x)) -> filter P l = filter Q l.
Proof.
  induction l as [|x l IH]; intros Hext; [reflexivity|].
  rewrite !filter_cons.
  assert (Hx : P x <-> Q x) by (apply Hext; now left).
  rewrite IH by (intros y Hy; apply Hext; now right).
  destruct (decide (P x)), (decide (Q x)); tauto.
Qed.

Lemma strictly_ascending_NoDup (ids : list Z) :
  StronglySorted Z.lt ids -> NoDup ids.
Proof.
  induction 1 as [|x ids _ IH Hall]; constructor; [|exact IH].
  intros Hx. rewrite Forall_forall in Hall. specialize (Hall x Hx). lia.
Qed.

Lemma strictly_ascending_sorted (ids : list Z) :
  StronglySorted Z.lt ids -> Sorted Z.le ids.
Proof.
  intros H. apply StronglySorted_Sorted in H.
  induction H as [|x ids _ IH Hhd]; constructor; [exact IH|].
  destruct Hhd; constructor. lia.
Qed.

Lemma list_to_set_all (v : option Z) (l : list (option Z)) :
  l <> [] -> Forall (fun x => x = v) l ->
  (list_to_set l : gset (option Z)) = {[v]}.
Proof.
  intros Hne Hall. apply set_eq. intros x.
  rewrite elem_of_list_to_set, elem_of_singleton. split.
  - intros Hx. rewrite Forall_forall in Hall. now apply Hall.
  - intros ->. destruct l as [|y l]; [contradiction|].
    inversion Hall; subst. now left.
Qed.

(** X26. With pairwise distinct clip identities, a strictly ascending,
    non-empty id list of clips that exist and belong to one video [v]:
    [merge_clips] succeeds, removes exactly the clips named by the ids, and
    appends the clip [(v, start, end)] without identity, where [start] is
    the least start time and [end] the greatest end time among the named
    clips; the list gets shorter by [len(ids) - 1]. *)
Lemma merge_clips_merges (clips : list Clip) (ids : list Z) (v : option Z) :
  NoDup (clip_id <$> clips) ->
  ids <> [] -> StronglySorted Z.lt ids ->
  (forall cid, cid ∈ ids ->
     exists c, c ∈ clips /\ clip_id c = Some cid /\ video_id c = v) ->
  exists start end_,
    let merged := Clip_init v start end_ in
    let named c := clip_id c ∈ Some <$> ids in
    merge_clips clips ids
    = (Ok merged, filter (fun c => ~ named c) clips ++ [merged]) /\
    (exists c, c ∈ clips /\ named c /\ start_time c = start) /\
    (forall c, c ∈ clips -> named c -> (start <= start_time c)%Q) /\
    (exists c, c ∈ clips /\ named c /\ end_time c = end_) /\
    (forall c, c ∈ clips -> named c -> (end_time c <= end_)%Q) /\
    (length (merge_clips clips ids).2 + length ids = S (length clips))%nat.
Proof.
  intros Hnd Hne Hstrict Hpresent.
  assert (Hsel : Forall2 (fun cid o =>
                    id_map (objects clips) !! Some cid = Some o /\
                    o ∈ objects clips /\ clip_id o.2 = Some cid)
                   ids (omap (fun cid => id_map (objects clips) !! Some cid)
                          ids)).
  { apply selected_objects. intros cid Hcid.
    destruct (Hpresent cid Hcid) as (c & Hc & Hid & _).
    apply list_elem_of_fmap. exists c. split; [now symmetry|exact Hc]. }
  pose proof (strictly_ascending_NoDup ids Hstrict) as Hids.
  set (sel := omap (fun cid => id_map (objects clips) !! Some cid) ids) in *.
  assert (Hsel' : Forall2 (fun cid o => o ∈ objects clips /\
                                        clip_id o.2 = Some cid) ids sel).
  { eapply Forall2_impl; [exact Hsel|]. simpl. tauto. }
  pose proof (selected_tags_NoDup clips ids sel Hids Hsel') as Htags.
  destruct sel as [|first rest] eqn:Esel.
  { apply Forall2_length in Hsel. destruct ids; [contradiction|discriminate]. }
  set (starts := (fun o : nat * Clip => start_time o.2) <$> rest).
  set (ends := (fun o : nat * Clip => end_time o.2) <$> rest).
  set (start := min_from (start_time first.2) starts).
  set (end_ := max_from (end_time first.2) ends).
  assert (Hvideo : Forall (fun o : nat * Clip => video_id o.2 = v)
                     (first :: rest)).
  { apply Forall_forall. intros o Ho.
    apply list_elem_of_lookup in Ho as [i Hi].
    destruct (Forall2_lookup_r _ _ _ _ _ Hsel Hi)
      as (cid & Hcid & _ & Hobj & Hid).
    destruct (Hpresent cid) as (c & Hc & Hidc & Hv);
      [eapply list_elem_of_lookup_2; eauto|].
    assert (o.2 = c); [|congruence].
    apply (NoDup_fmap_inj_on clip_id clips);
      [exact Hnd|now apply objects_elem|exact Hc|congruence]. }
  assert (Hrun : merge_clips clips ids
                 = (Ok (Clip_init v start end_),
                    (snd <$> filter (fun x => x.1 ∉ fst <$> first :: rest)
                               (objects clips))
                    ++ [Clip_init v start end_])).
  { unfold merge_clips. cbv zeta. fold sel.
    rewrite (bool_decide_eq_false_2 _ Hne).
    rewrite (bool_decide_eq_true_2 _
               (proj2 (sorted_ids_fixpoint ids)
                  (strictly_ascending_sorted ids Hstrict))).
    cbn [negb orb].
    assert (Hall : forallb
                     (fun cid => bool_decide
                                   (is_Some (id_map (objects clips) !! Some cid)))
                     ids = true).
    { apply forallb_forall. intros cid Hcid. apply bool_decide_eq_true_2.
      apply list_elem_of_In, list_elem_of_lookup in Hcid as [i Hi].
      destruct (Forall2_lookup_l _ _ _ _ _ Hsel Hi) as (o & _ & Ho & _).
      rewrite Ho. eauto. }
    rewrite Hall. cbn [negb]. rewrite Esel.
    rewrite (list_to_set_all v).
    - rewrite size_singleton.
      rewrite (bool_decide_eq_true_2 _ (eq_refl 1%nat)). cbn [negb].
      cbn [fmap list_fmap min max]. fold starts ends start end_.
      rewrite (remove_selected_filter (first :: rest) (objects clips) Htags
                 (objects_tags_NoDup clips)).
      + assert (Hv : video_id first.2 = v)
          by (rewrite Forall_forall in Hvideo; apply Hvideo; now left).
        now rewrite Hv.
      + apply Forall_forall. intros o Ho.
        apply list_elem_of_lookup in Ho as [i Hi].
        destruct (Forall2_lookup_r _ _ _ _ _ Hsel' Hi) as (cid & _ & Hobj & _).
        apply list_elem_of_fmap. eauto.
    - discriminate.
    - apply Forall_fmap. exact Hvideo. }
  assert (Hselnamed : forall o, o ∈ first :: rest ->
            o ∈ objects clips /\ clip_id o.2 ∈ Some <$> ids).
  { intros o Ho. apply list_elem_of_lookup in Ho as [i Hi].
    destruct (Forall2_lookup_r _ _ _ _ _ Hsel' Hi) as (cid & Hcid & Hobj & Hid).
    split; [exact Hobj|]. rewrite Hid. apply list_elem_of_fmap.
    exists cid. split; [reflexivity|]. eapply list_elem_of_lookup_2; eauto. }
  assert (Hnamed : forall o, o ∈ objects clips ->
            clip_id o.2 ∈ Some <$> ids -> o ∈ first :: rest).
  { intros o Ho Hid. apply list_elem_of_fmap in Hid as (cid & Hid & Hcid).
    apply list_elem_of_lookup in Hcid as [i Hi].
    destruct (Forall2_lookup_l _ _ _ _ _ Hsel' Hi) as (o' & Ho' & Hobj' & Hid').
    assert (o = o').
    { apply (NoDup_fmap_inj_on (fun o => clip_id o.2) (objects clips));
        [now apply objects_clip_ids_NoDup|exact Ho|exact Hobj'|congruence]. }
    subst o'. eapply list_elem_of_lookup_2; eauto. }
  assert (Hkept : snd <$> filter (fun x => x.1 ∉ fst <$> first :: rest)
                            (objects clips)
                  = filter (fun c => ~ clip_id c ∈ Some <$> ids) clips).
  { rewrite <- (filter_objects (fun c => ~ clip_id c ∈ Some <$> ids)).
    f_equal. apply filter_ext_in. intros o Ho. split.
    - intros Hnot Hid. apply Hnot. apply list_elem_of_fmap.
      exists o. split; [reflexivity|now apply Hnamed].
    - intros Hnot Htag. apply Hnot.
      apply list_elem_of_fmap in Htag as (o' & Htag & Ho').
      destruct (Hselnamed o' Ho') as [Hobj' Hid'].
      assert (o = o'); [|now subst].
      apply (same_tag_same_object (objects clips));
        [apply objects_tags_NoDup|exact Ho|exact Hobj'|exact Htag]. }
  assert (Hclip : forall c, c ∈ clips -> clip_id c ∈ Some <$> ids ->
            exists o, o ∈ first :: rest /\ o.2 = c).
  { intros c Hc Hid. apply list_elem_of_lookup in Hc as [i Hi].
    exists (i, c). split; [|reflexivity]. apply Hnamed; [|exact Hid].
    apply list_elem_of_lookup. exists i. unfold objects.
    now rewrite list_lookup_imap, Hi. }
  destruct (min_from_spec (start_time first.2) starts) as [Hmin_in Hmin_le].
  destruct (max_from_spec (end_time first.2) ends) as [Hmax_in Hmax_le].
  fold start in Hmin_in, Hmin_le. fold end_ in Hmax_in, Hmax_le.
  change (start_time first.2 :: starts)
    with ((fun o : nat * Clip => start_time o.2) <$> first :: rest)
    in Hmin_in, Hmin_le.
  change (end_time first.2 :: ends)
    with ((fun o : nat * Clip => end_time o.2) <$> first :: rest)
    in Hmax_in, Hmax_le.
  exists start, end_. cbv zeta. rewrite Hrun, Hkept.
  split; [reflexivity|]. split; [|split; [|split; [|split]]].
  - apply list_elem_of_fmap in Hmin_in as (o & Hstart & Ho).
    destruct (Hselnamed o Ho) as [Hobj Hid].
    exists o.2. split; [now apply objects_elem|]. split; [exact Hid|].
    now symmetry.
  - intros c Hc Hid. destruct (Hclip c Hc Hid) as (o & Ho & <-).
    rewrite Forall_forall in Hmin_le. apply Hmin_le.
    apply list_elem_of_fmap. eauto.
  - apply list_elem_of_fmap in Hmax_in as (o & Hend & Ho).
    destruct (Hselnamed o Ho) as [Hobj Hid].
    exists o.2. split; [now apply objects_elem|]. split; [exact Hid|].
    now symmetry.
  - intros c Hc Hid. destruct (Hclip c Hc Hid) as (o & Ho & <-).
    rewrite Forall_forall in Hmax_le. apply Hmax_le.
    apply list_elem_of_fmap. eauto.
  - cbn [snd]. rewrite <- Hkept, length_app, length_fmap. cbn [length].
    assert (Hlen : (length (filter (fun x => x.1 ∉ fst <$> first :: rest)
                              (objects clips))
                    + length (first :: rest) = length (objects clips))%nat).
    { apply remove_selected_length.
      apply remove_selected_filter;
        [exact Htags|apply objects_tags_NoDup|].
      apply Forall_forall. intros o Ho.
      apply list_elem_of_fmap. exists o. split; [reflexivity|].
      now apply Hselnamed. }
    unfold objects in Hlen at 2. rewrite length_imap in Hlen.
    apply Forall2_length in Hsel. lia.
Qed.


(** X27. Each of the three guards raises [ValueError] and leaves the list as
    it was: an empty id list, an id list that is not ascending, an id no clip
    has, or named clips of different videos. *)
Lemma merge_clips_rejects (clips : list Clip) (ids : list Z) :
  NoDup (clip_id <$> clips) ->
  ids = [] \/ ~ Sorted Z.le ids \/
  (exists cid, cid ∈ ids /\ Some cid ∉ clip_id <$> clips) \/
  (exists c1 c2, c1 ∈ clips /\ c2 ∈ clips /\
     clip_id c1 ∈ Some <$> ids /\ clip_id c2 ∈ Some <$> ids /\
     video_id c1 <> video_id c2) ->
  is_value_error (merge_clips clips ids).1 /\ (merge_clips clips ids).2 = clips.
Proof.
  intros Hnd Hcause. unfold merge_clips. cbv zeta.
  destruct (bool_decide (ids = [])) eqn:E1; [simpl; auto|].
  destruct (bool_decide (sorted Z.ltb ids = ids)) eqn:E2; [|simpl; auto].
  cbn [negb orb].
  destruct (forallb _ ids) eqn:E3; [|simpl; auto]. cbn [negb].
  destruct (bool_decide (size _ = 1%nat)) eqn:E4; [|simpl; auto].
  exfalso.
  apply bool_decide_eq_false_1 in E1. apply bool_decide_eq_true_1 in E2.
  apply bool_decide_eq_true_1 in E4.
  assert (Hpresent : forall cid, cid ∈ ids -> Some cid ∈ clip_id <$> clips).
  { intros cid Hcid. rewrite forallb_forall in E3.
    apply list_elem_of_In in Hcid. specialize (E3 cid Hcid).
    apply bool_decide_eq_true_1 in E3 as [o Ho].
    apply id_map_Some in Ho as [Hobj Hid].
    apply list_elem_of_fmap. exists o.2. split; [now symmetry|].
    now apply objects_elem. }
  destruct Hcause as [H|[H|[(cid & Hcid & Habs)|H]]].
  - contradiction.
  - apply H. now apply sorted_ids_fixpoint.
  - apply Habs. now apply Hpresent.
  - destruct H as (c1 & c2 & Hc1 & Hc2 & Hn1 & Hn2 & Hdiff).
    pose proof (selected_objects clips ids Hpresent) as Hsel.
    set (sel := omap (fun cid => id_map (objects clips) !! Some cid) ids) in *.
    assert (Hin : forall c, c ∈ clips -> clip_id c ∈ Some <$> ids ->
              video_id c ∈ (fun o : nat * Clip => video_id o.2) <$> sel).
    { intros c Hc Hid. apply list_elem_of_fmap in Hid as (cid & Hid & Hcid).
      apply list_elem_of_lookup in Hcid as [i Hi].
      destruct (Forall2_lookup_l _ _ _ _ _ Hsel Hi)
        as (o & Ho & _ & Hobj & Hido).
      assert (o.2 = c).
      { apply (NoDup_fmap_inj_on clip_id clips);
          [exact Hnd|now apply objects_elem|exact Hc|congruence]. }
      apply list_elem_of_fmap. exists o. split; [now subst|].
      eapply list_elem_of_lookup_2; eauto. }
    apply size_1_elem_of in E4 as [x Hx].
    assert (H1 : video_id c1 ∈ (list_to_set
                   ((fun o : nat * Clip => video_id o.2) <$> sel)
                   : gset (option Z)))
      by (apply elem_of_list_to_set; now apply Hin).
    assert (H2 : video_id c2 ∈ (list_to_set
                   ((fun o : nat * Clip => video_id o.2) <$> sel)
                   : gset (option Z)))
      by (apply elem_of_list_to_set; now apply Hin).
    rewrite Hx in H1, H2. apply elem_of_singleton in H1, H2. congruence.
Qed.

(** *** A repeated id *)

Lemma list_remove_Some (o : nat * Clip) (l l1 : list (nat * Clip)) :
  list_remove o l = Some l1 ->
  o.1 ∈ fst <$> l /\ length l = S (length l1).
Proof.
  revert l1. induction l as [|x l IH]; intros l1; simpl; [discriminate|].
  destruct (decide (x.1 = o.1)) as [E|E].
  - intros [= <-]. split; [|reflexivity]. rewrite <- E. now left.
  - destruct (list_remove o l) as [l2|]; [|discriminate].
    simpl. intros [= <-]. destruct (IH l2 eq_refl) as [Hin Hlen].
    split; [now right|simpl; now rewrite Hlen].
Qed.

Lemma remove_selected_Ok (selected l l' : list (nat * Clip)) :
  NoDup (fst <$> l) ->
  remove_selected selected l = (Ok (), l') ->
  NoDup (fst <$> selected) /\ Forall (fun o => o.1 ∈ fst <$> l) selected.
Proof.
  revert l. induction selected as [|o selected IH]; intros l Hl; simpl.
  - intros _. split; constructor.
  - destruct (list_remove o l) as [l1|] eqn:E; [|discriminate].
    intros Hrest. destruct (list_remove_Some o l l1 E) as [Hin _].
    rewrite (list_remove_filter o l Hl Hin) in E. injection E as <-.
    destruct (IH _ (filter_tags_NoDup _ l Hl) Hrest) as [Hnd Hall].
    assert (Hsub : forall y : nat * Clip,
              y.1 ∈ fst <$> filter (fun x : nat * Clip => x.1 <> o.1) l ->
              y.1 ∈ fst <$> l /\ y.1 <> o.1).
    { intros y Hy. apply list_elem_of_fmap in Hy as (z & Hz & Hzl).
      apply list_elem_of_filter in Hzl as [Hne Hzl].
      split; [|congruence]. apply list_elem_of_fmap. eauto. }
    split.
    + cbn [fmap list_fmap]. apply NoDup_cons. split; [|exact Hnd].
      intros Ho. apply list_elem_of_fmap in Ho as (y & Hy & Hysel).
      rewrite Forall_forall in Hall. specialize (Hall y Hysel).
      apply Hsub in Hall as [_ Hne]. congruence.
    + constructor; [exact Hin|].
      apply Forall_forall. intros y Hy.
      rewrite Forall_forall in Hall. now apply Hsub, Hall.
Qed.

Lemma remove_selected_shrinks (selected l : list (nat * Clip)) :
  (length (remove_selected selected l).2 <= length l)%nat.
Proof.
  revert l. induction selected as [|o selected IH]; intros l; simpl; [lia|].
  destruct (list_remove o l) as [l1|] eqn:E; simpl; [|lia].
  apply list_remove_Some in E as [_ Hlen]. specialize (IH l1). lia.
Qed.

(** X28. With pairwise distinct clip identities: an ascending id list that
    repeats an id, all of whose ids exist and belong to one video, passes
    every guard; [merge_clips] then raises [ValueError] from [list.remove]
    after it has taken at least one clip out of the list. *)
Lemma merge_clips_repeated_id (clips : list Clip) (ids : list Z)
    (v : option Z) :
  NoDup (clip_id <$> clips) ->
  Sorted Z.le ids -> ~ NoDup ids ->
  (forall cid, cid ∈ ids ->
     exists c, c ∈ clips /\ clip_id c = Some cid /\ video_id c = v) ->
  (merge_clips clips ids).1
  = Raise (ValueError "list.remove(x): x not in list") /\
  (length (merge_clips clips ids).2 < length clips)%nat.
Proof.
  intros Hnd Hsorted Hdup Hpresent.
  assert (Hne : ids <> []) by (intros ->; apply Hdup; constructor).
  assert (Hsel : Forall2 (fun cid o =>
                    id_map (objects clips) !! Some cid = Some o /\
                    o ∈ objects clips /\ clip_id o.2 = Some cid)
                   ids (omap (fun cid => id_map (objects clips) !! Some cid)
                          ids)).
  { apply selected_objects. intros cid Hcid.
    destruct (Hpresent cid Hcid) as (c & Hc & Hid & _).
    apply list_elem_of_fmap. exists c. split; [now symmetry|exact Hc]. }
  set (sel := omap (fun cid => id_map (objects clips) !! Some cid) ids) in *.
  destruct sel as [|first rest] eqn:Esel.
  { apply Forall2_length in Hsel. destruct ids; [contradiction|discriminate]. }
  assert (Hvideo : Forall (fun o : nat * Clip => video_id o.2 = v)
                     (first :: rest)).
  { apply Forall_forall. intros o Ho.
    apply list_elem_of_lookup in Ho as [i Hi].
    destruct (Forall2_lookup_r _ _ _ _ _ Hsel Hi)
      as (cid & Hcid & _ & Hobj & Hid).
    destruct (Hpresent cid) as (c & Hc & Hidc & Hv);
      [eapply list_elem_of_lookup_2; eauto|].
    assert (o.2 = c); [|congruence].
    apply (NoDup_fmap_inj_on clip_id clips);
      [exact Hnd|now apply objects_elem|exact Hc|congruence]. }
  assert (Htags : ~ NoDup (fst <$> first :: rest)).
  { intros Htags. apply Hdup. apply NoDup_alt. intros i j cid Hi Hj.
    destruct (Forall2_lookup_l _ _ _ _ _ Hsel Hi) as (oi & Hoi & Hli & _).
    destruct (Forall2_lookup_l _ _ _ _ _ Hsel Hj) as (oj & Hoj & Hlj & _).
    assert (oi = oj) by congruence. subst oj.
    eapply NoDup_lookup; [exact Htags| |];
      rewrite list_lookup_fmap; [rewrite Hoi|rewrite Hoj]; reflexivity. }
  assert (Hfirst : first.1 ∈ fst <$> objects clips).
  { inversion Hsel as [|cid ? ? ? (_ & Hobj & _) _]; subst.
    apply list_elem_of_fmap. eauto. }
  unfold merge_clips. cbv zeta. fold sel.
  rewrite (bool_decide_eq_false_2 _ Hne).
  rewrite (bool_decide_eq_true_2 _ (proj2 (sorted_ids_fixpoint ids) Hsorted)).
  cbn [negb orb].
  assert (Hall : forallb
                   (fun cid => bool_decide
                                 (is_Some (id_map (objects clips) !! Some cid)))
                   ids = true).
  { apply forallb_forall. intros cid Hcid. apply bool_decide_eq_true_2.
    apply list_elem_of_In, list_elem_of_lookup in Hcid as [i Hi].
    destruct (Forall2_lookup_l _ _ _ _ _ Hsel Hi) as (o & _ & Ho & _).
    rewrite Ho. eauto. }
  rewrite Hall. cbn [negb]. rewrite Esel.
  rewrite (list_to_set_all v); [|discriminate|apply Forall_fmap; exact Hvideo].
  rewrite size_singleton.
  rewrite (bool_decide_eq_true_2 _ (eq_refl 1%nat)). cbn [negb].
  cbn [fmap list_fmap min max].
  destruct (remove_selected (first :: rest) (objects clips))
    as [[[]|e] l] eqn:Erm.
  - exfalso. apply Htags.
    now apply (remove_selected_Ok _ _ _ (objects_tags_NoDup clips) Erm).
  - cbn [fst snd]. rewrite length_fmap.
    cbn [remove_selected] in Erm.
    rewrite (list_remove_filter first (objects clips)
               (objects_tags_NoDup clips) Hfirst) in Erm.
    assert (Hlt : (length (filter (fun x : nat * Clip => x.1 <> first.1)
                             (objects clips)) < length clips)%nat).
    { apply list_elem_of_fmap in Hfirst as (o & Ho & Hobj).
      pose proof (length_filter_lt (fun x : nat * Clip => x.1 <> first.1)
                    (objects clips) o Hobj) as Hlt.
      unfold objects in Hlt at 2. rewrite length_imap in Hlt.
      apply Hlt. intros Hne'. now apply Hne'. }
    pose proof (remove_selected_shrinks rest
                  (filter (fun x : nat * Clip => x.1 <> first.1)
                     (objects clips))) as Hle.
    rewrite Erm in Hle. cbn [snd] in Hle. split; [|lia].
    clear -Erm. revert Erm.
    generalize (filter (fun x : nat * Clip => x.1 <> first.1) (objects clips)).
    induction rest as [|o rest IH]; intros l0; simpl; [discriminate|].
    destruct (list_remove o l0); [apply IH|]. now intros [= <- _].
Qed.

End MergeWellFormed.

(** ** C3: merging clips *)

Section Merge.

Import VideoProcessor.

(** C3. [merge_clips] is to fail, leaving the clip list unchanged, whenever
    the id list is not strictly ascending.  Its guard compares [sorted(ids)]
    with [ids] and so lets a repeated id through: with clips 101 and 102 of
    one video and ids [101, 101], clip 101 is removed from the list, the
    second [remove] of the same object raises [ValueError], and the call
    fails with the list holding clip 102 only.  (For the other arguments see
    [merge_clips_rejects] and [merge_clips_merges].) *)
Theorem merge_clips_repeated_id_mutates_then_fails :
  let c101 := Samples.clip (Some 101) 0%Q 5%Q in
  let c102 := Samples.clip (Some 102) 5%Q 10%Q in
  merge_clips [c101; c102] [101; 101]
  = (Raise (ValueError "list.remove(x): x not in list"), [c102]).
Proof. vm_compute. reflexivity. Qed.

(** The repository's merge test. *)
Example merge_clips_example :
  let c101 := Samples.clip (Some 101) 0%Q 5%Q in
  let c102 := Samples.clip (Some 102) 5%Q 10%Q in
  merge_clips [c101; c102] [101; 102]
  = (Ok (Clip_init (Some 1) 0%Q 10%Q), [Clip_init (Some 1) 0%Q 10%Q]).
Proof. vm_compute. reflexivity. Qed.

End Merge.

(** * Further properties of the code *)

(** ** The scan of the detector's report *)

Section Scan.

Import Report.

Lemma append_nil (b : string) : ("" ++ b)%string = b.
Proof. reflexivity. Qed.

Lemma append_cons (c : ascii) (a b : string) :
  (String c a ++ b)%string = String c (a ++ b).
Proof. reflexivity. Qed.

Lemma strip_prefix_app (p r : string) : Re.strip_prefix p (p ++ r) = Some r.
Proof.
  induction p as [|a p IH]; [now destruct r|].
  rewrite append_cons. cbn [Re.strip_prefix]. now rewrite Ascii.eqb_refl.
Qed.

Lemma strip_prefix_Some (p s r : string) :
  Re.strip_prefix p s = Some r -> s = (p ++ r)%string.
Proof.
  revert s. induction p as [|a p IH]; intros s; simpl.
  - now intros [= ->].
  - destruct s as [|b s]; [discriminate|].
    destruct (Ascii.eqb a b) eqn:E; [|discriminate].
    apply Ascii.eqb_eq in E as ->. intros H. rewrite append_cons. f_equal.
    now apply IH.
Qed.

Lemma match_pts_prefix (s : string) :
  Re.strip_prefix "pts_time:" s = None -> Re.match_pts s = None.
Proof. intros H. unfold Re.match_pts. now rewrite H. Qed.

Lemma finditer_step_none (c : ascii) (s : string) :
  Re.strip_prefix "pts_time:" (String c s) = None ->
  Re.finditer_from 0 (String c s) = Re.finditer_from 0 s.
Proof.
  intros H. cbn [Re.finditer_from]. now rewrite (match_pts_prefix _ H).
Qed.

Lemma strip_prefix_no_p (c : ascii) (s : string) :
  c <> "p"%char -> Re.strip_prefix "pts_time:" (String c s) = None.
Proof.
  intros Hc. cbn [Re.strip_prefix].
  destruct (Ascii.eqb "p" c) eqn:E; [|reflexivity].
  apply Ascii.eqb_eq in E. congruence.
Qed.

(** The scan passes over text without the letter p. *)
Lemma finditer_quiet (junk rest : string) :
  Forall (fun c => c <> "p"%char) (list_ascii_of_string junk) ->
  Re.finditer_from 0 (junk ++ rest) = Re.finditer_from 0 rest.
Proof.
  induction junk as [|c junk IH]; intros H; [reflexivity|].
  cbn [list_ascii_of_string] in H. inversion H as [|? ? Hc Hjunk]; subst.
  rewrite append_cons.
  rewrite finditer_step_none by (now apply strip_prefix_no_p).
  now apply IH.
Qed.

(** After a match the scan resumes behind it. *)
Lemma finditer_skip (a rest : string) :
  Re.finditer_from (String.length a) (a ++ rest) = Re.finditer_from 0 rest.
Proof.
  induction a as [|c a IH]; [reflexivity|]. rewrite append_cons. exact IH.
Qed.

Lemma span_digits_app (ds : list ascii) (r : string) :
  Forall (fun c => Re.is_digit c = true) ds ->
  match r with
  | String c _ => Re.is_digit c = false
  | EmptyString => True
  end ->
  Re.span_digits (string_of_list_ascii ds ++ r) = (ds, r).
Proof.
  intros Hds Hr. induction Hds as [|c ds Hc _ IH].
  - cbn [string_of_list_ascii]. rewrite append_nil.
    destruct r as [|c r]; [reflexivity|]. cbn [Re.span_digits]. now rewrite Hr.
  - cbn [string_of_list_ascii]. rewrite append_cons. cbn [Re.span_digits].
    now rewrite Hc, IH.
Qed.

Lemma length_string_of_list (ds : list ascii) :
  String.length (string_of_list_ascii ds) = List.length ds.
Proof. induction ds as [|c ds IH]; [reflexivity|]. cbn. now rewrite IH. Qed.

Lemma append_assoc (a b c : string) :
  ((a ++ b) ++ c = a ++ b ++ c)%string.
Proof.
  induction a as [|x a IH]; [reflexivity|]. rewrite !append_cons.
  now rewrite IH.
Qed.

Lemma length_append (a b : string) :
  String.length (a ++ b) = (String.length a + String.length b)%nat.
Proof.
  induction a as [|x a IH]; [reflexivity|]. rewrite append_cons. cbn.
  now rewrite IH.
Qed.

Lemma render_head (entries : list (string * (list ascii * list ascii)))
    (tail : string) :
  Forall (fun e => quiet e.1) entries -> quiet tail ->
  match render entries tail with
  | String c _ => Re.is_digit c = false
  | EmptyString => True
  end.
Proof.
  intros Hent [_ Htail]. destruct Hent as [|[junk [ip fp]] entries [_ Hj] _].
  - exact Htail.
  - cbn [render fst] in *. destruct junk as [|c junk]; [reflexivity|].
    rewrite append_cons. exact Hj.
Qed.

(** The match at the head of a printed timestamp. *)
Lemma match_pts_printed (ip fp : list ascii) (rest : string) :
  numeral ip -> numeral fp ->
  match rest with
  | String c _ => Re.is_digit c = false
  | EmptyString => True
  end ->
  Re.match_pts ("pts_time:" ++ string_of_list_ascii ip ++ "."
                  ++ string_of_list_ascii fp ++ rest)
  = Some (Re.decimal_value ip fp,
          (9 + List.length ip + 1 + List.length fp)%nat).
Proof.
  intros [Hip Dip] [Hfp Dfp] Hrest. unfold Re.match_pts.
  rewrite strip_prefix_app.
  rewrite (append_cons "." ""), append_nil.
  rewrite (span_digits_app ip) by (exact Dip || reflexivity).
  destruct ip as [|i ip]; [contradiction|].
  rewrite (span_digits_app fp) by assumption.
  destruct fp as [|f fp]; [contradiction|]. reflexivity.
Qed.

Lemma digits_value_from (ds : list ascii) (acc : Z) :
  fold_left (fun acc c => 10 * acc + Re.digit_value c) ds acc
  = acc * 10 ^ Z.of_nat (List.length ds) + Re.digits_value ds.
Proof.
  unfold Re.digits_value. revert acc.
  induction ds as [|c ds IH]; intros acc; [simpl; lia|].
  cbn [fold_left List.length]. rewrite IH, (IH (10 * 0 + _)).
  rewrite Nat2Z.inj_succ, Z.pow_succ_r by lia. lia.
Qed.

(** The value of [<ip>.<fp>] is the integer [ip] plus the integer [fp]
    shifted behind the point. *)
Lemma decimal_value_parts (ip fp : list ascii) :
  (Re.decimal_value ip fp
   == inject_Z (Re.digits_value ip)
      + inject_Z (Re.digits_value fp)
        / inject_Z (10 ^ Z.of_nat (List.length fp)))%Q.
Proof.
  unfold Re.decimal_value.
  assert (Hpos : 0 < 10 ^ Z.of_nat (List.length fp)) by (apply Z.pow_pos_nonneg; lia).
  unfold Re.digits_value at 1. rewrite fold_left_app.
  fold (Re.digits_value ip). rewrite digits_value_from.
  set (k := 10 ^ Z.of_nat (List.length fp)) in *.
  assert (Hk : ~ (inject_Z k == 0)%Q).
  { change 0%Q with (inject_Z 0). rewrite inject_Z_injective. lia. }
  rewrite (Qmake_Qdiv _ (Z.to_pos k)), Z2Pos.id by exact Hpos.
  rewrite inject_Z_plus, inject_Z_mult. field. exact Hk.
Qed.

(** X1. The scan of a report finds exactly the printed timestamps, in the
    order of the report: for a report made of entries
    [<text>pts_time:<ip>.<fp>], where the digit strings are not empty and
    the text around them holds no letter p and does not start with a digit,
    [pts_times] returns the values [<ip>.<fp>] of the entries, one per
    entry. *)
Theorem pts_times_of_rendered_report
    (entries : list (string * (list ascii * list ascii))) (tail : string) :
  Forall (fun e => quiet e.1 /\ numeral e.2.1 /\ numeral e.2.2) entries ->
  quiet tail ->
  Re.pts_times (render entries tail)
  = (fun e => Re.decimal_value e.2.1 e.2.2) <$> entries.
Proof.
  intros Hent Htail. unfold Re.pts_times.
  induction Hent as [|[junk [ip fp]] entries (Hq & Hip & Hfp) Hent IH].
  - cbn [render fmap list_fmap]. destruct Htail as [Htail _].
    clear -Htail. induction tail as [|c tail IH]; [reflexivity|].
    cbn [list_ascii_of_string] in Htail.
    inversion Htail as [|? ? Hc Ht]; subst.
    rewrite finditer_step_none by (now apply strip_prefix_no_p).
    now apply IH.
  - cbn [render fst snd] in *. rewrite fmap_cons. cbn [fst snd].
    rewrite finditer_quiet by apply Hq.
    assert (Hrest : match render entries tail with
                    | String c _ => Re.is_digit c = false
                    | EmptyString => True
                    end).
    { apply render_head; [|exact Htail].
      eapply Forall_impl; [exact Hent|]. now intros e [He _]. }
    pose proof (match_pts_printed ip fp _ Hip Hfp Hrest) as Hm.
    set (body := (string_of_list_ascii ip ++ "." ++ string_of_list_ascii fp)%string).
    assert (Hs : ("pts_time:" ++ string_of_list_ascii ip ++ "."
                    ++ string_of_list_ascii fp ++ render entries tail)%string
                 = String "p" (("ts_time:" ++ body) ++ render entries tail)).
    { unfold body. rewrite !append_assoc, !append_cons, !append_nil.
      reflexivity. }
    rewrite Hs in Hm |- *. cbn [Re.finditer_from]. rewrite Hm. f_equal.
    replace (9 + List.length ip + 1 + List.length fp - 1)%nat
      with (String.length ("ts_time:" ++ body)).
    + rewrite finditer_skip. exact IH.
    + unfold body. rewrite !length_append, !length_string_of_list.
      cbn [String.length]. lia.
Qed.

(** The report of the repository's test. *)
Lemma pts_times_of_rendered_report_witness :
  render Cases.report_entries Samples.newline = Samples.report /\
  Re.pts_times (render Cases.report_entries Samples.newline)
  = [Re.decimal_value ["2"%char] ["0"%char];
     Re.decimal_value ["4"%char] ["5"%char]].
Proof.
  split; [reflexivity|].
  apply (pts_times_of_rendered_report Cases.report_entries Samples.newline).
  - repeat constructor; try (intros H; discriminate H).
  - repeat constructor; try (intros H; discriminate H).
Defined.

End Scan.

(** ** Scene detection: failures, empty reports, clip shapes *)

Section DetectMore.

Import VideoHandler Ext VideoProcessor Timeline Report Editing.

Lemma pts_times_silent (report : string) :
  ~ occurs "pts_time:" report -> Re.pts_times report = [].
Proof.
  unfold Re.pts_times. induction report as [|c s IH]; intros Hno;
    [reflexivity|].
  rewrite finditer_step_none.
  - apply IH. intros (a & b & ->). apply Hno.
    exists (String c a), b. now rewrite append_cons.
  - destruct (Re.strip_prefix "pts_time:" (String c s)) as [r|] eqn:E;
      [|reflexivity].
    exfalso. apply Hno. apply strip_prefix_Some in E.
    exists EmptyString, r. now rewrite append_nil.
Qed.

Lemma detect_clips_Ok (w : world) (video : Video) (t : float)
    (clips : list Clip) :
  detect_clips w video t = Ok clips ->
  exists report,
    ffmpeg_scene w (source_path video) t = Exit0 report /\
    clips = boundary_clips (VideoHandler.video_id video)
              (sorted flt (Re.pts_times report)) (duration video).
Proof.
  unfold detect_clips. destruct (negb _); [discriminate|].
  destruct (ffmpeg_scene w _ t) as [report|err]; [|discriminate].
  intros [= <-]. exists report. split; [reflexivity|].
  now rewrite clips_loop_boundary.
Qed.

(** X2. For a threshold strictly inside (0, 1): when the ffmpeg run fails,
    [detect_clips] raises [AppError] with the user message
    [Scene detection failed.] and the run's stderr as internal message; when
    the run succeeds and its report nowhere holds [pts_time:], the result is
    the single clip from 0.0 to the video's duration. *)
Theorem detect_clips_failed_run_or_silent_report (w : world) (video : Video)
    (scene_threshold : float) :
  (0 < scene_threshold /\ scene_threshold < 1)%Q ->
  (forall err,
     ffmpeg_scene w (source_path video) scene_threshold
     = CalledProcessError err ->
     detect_clips w video scene_threshold
     = Raise (AppError "Scene detection failed." err)) /\
  (forall report,
     ffmpeg_scene w (source_path video) scene_threshold = Exit0 report ->
     ~ occurs "pts_time:" report ->
     detect_clips w video scene_threshold
     = Ok [Clip_init (VideoHandler.video_id video) 0%Q (duration video)]).
Proof.
  intros [H0 H1]. apply flt_spec in H0, H1. unfold detect_clips.
  rewrite H0, H1. cbn [andb negb]. split.
  - intros err ->. reflexivity.
  - intros report -> Hno. now rewrite (pts_times_silent report Hno).
Qed.

Lemma detect_clips_failed_run_or_silent_report_witness :
  let failing :=
    Cases.world_with (CalledProcessError "no such file") (Exit0 "") true 0
      Samples.hello_world in
  let silent :=
    Cases.world_with (Exit0 "") (Exit0 "") true 0 Samples.hello_world in
  detect_clips failing Samples.video 0.4%Q
  = Raise (AppError "Scene detection failed." "no such file") /\
  detect_clips silent Samples.video 0.4%Q = Ok [Clip_init (Some 1) 0%Q 10%Q].
Proof.
  intros failing silent.
  assert (H : (0 < 0.4 /\ 0.4 < 1)%Q) by (split; reflexivity).
  split.
  - exact (proj1 (detect_clips_failed_run_or_silent_report failing
                    Samples.video 0.4%Q H) "no such file" eq_refl).
  - refine (proj2 (detect_clips_failed_run_or_silent_report silent
                     Samples.video 0.4%Q H) EmptyString eq_refl _).
    intros (a & b & Hab). destruct a; discriminate Hab.
Defined.

(** Clips of a boundary sequence that ascends from [prev]. *)
Lemma boundary_chain_forward (vid : option Z) (dur : float)
    (bounds : list float) :
  forall prev,
    StronglySorted Qle (prev :: bounds) ->
    Forall (fun c => (start_time c <= end_time c)%Q)
      (zip_with (Clip_init vid) (prev :: bounds) (bounds ++ [dur]))
    <-> Forall (fun ts => (ts <= dur)%Q) (prev :: bounds).
Proof.
  induction bounds as [|b bounds IH]; intros prev Hs.
  - cbn [zip_with app]. rewrite !Forall_cons, !Forall_nil. simpl. tauto.
  - change (zip_with (Clip_init vid) (prev :: b :: bounds)
              ((b :: bounds) ++ [dur]))
      with (Clip_init vid prev b
              :: zip_with (Clip_init vid) (b :: bounds) (bounds ++ [dur])).
    inversion Hs as [|? ? Hs' Hprev]; subst.
    rewrite Forall_cons, (IH b Hs'), (Forall_cons _ prev). simpl.
    inversion Hprev as [|? ? Hpb _]; subst. split.
    + intros [_ Hall]. split; [|exact Hall].
      inversion Hall; subst. eapply Qle_trans; eauto.
    + intros [_ Hall]. split; [exact Hpb|exact Hall].
Qed.

(** X3. No clip returned by [detect_clips] ends before it starts exactly
    when the video's duration is not negative and no timestamp of the report
    lies beyond it. *)
Theorem detect_clips_forward (w : world) (video : Video)
    (scene_threshold : float) (report : string) (clips : list Clip) :
  ffmpeg_scene w (source_path video) scene_threshold = Exit0 report ->
  detect_clips w video scene_threshold = Ok clips ->
  Forall (fun c => (start_time c <= end_time c)%Q) clips
  <-> (0 <= duration video)%Q /\
      Forall (fun ts => (ts <= duration video)%Q) (Re.pts_times report).
Proof.
  intros Hrun Hok. apply detect_clips_Ok in Hok as (report' & Hrun' & ->).
  rewrite Hrun in Hrun'. injection Hrun' as <-.
  pose proof (sorted_Permutation flt (Re.pts_times report)) as Hperm.
  pose proof (sorted_floats_Sorted (Re.pts_times report)) as Hsorted.
  assert (Hs : StronglySorted Qle (0%Q :: sorted flt (Re.pts_times report))).
  { constructor.
    - apply Sorted_StronglySorted; [apply Qle_Transitive|exact Hsorted].
    - eapply Permutation_Forall; [exact Hperm|apply pts_times_nonneg]. }
  unfold boundary_clips. rewrite (boundary_chain_forward _ _ _ _ Hs).
  rewrite Forall_cons. split; intros [Hd Hall]; (split; [exact Hd|]).
  - eapply Permutation_Forall; [symmetry; exact Hperm|exact Hall].
  - eapply Permutation_Forall; [exact Hperm|exact Hall].
Qed.

Lemma detect_clips_forward_witness :
  let w := Samples.world_of 0 Samples.hello_world in
  Forall (fun c => (start_time c <= end_time c)%Q)
    [Clip_init (Some 1) 0%Q 2.0%Q; Clip_init (Some 1) 2.0%Q 4.5%Q;
     Clip_init (Some 1) 4.5%Q 10%Q]
  <-> (0 <= 10)%Q /\
      Forall (fun ts => (ts <= 10)%Q) (Re.pts_times Samples.report).
Proof.
  intros w.
  exact (detect_clips_forward w Samples.video 0.4%Q Samples.report _
           eq_refl eq_refl).
Defined.

(** *** Clips without identity *)

Lemma boundary_clips_unsaved (vid : option Z) (bounds : list float)
    (dur : float) :
  Forall (fun c => unsaved c /\ file_path c = None /\ video_id c = vid)
    (boundary_clips vid bounds dur).
Proof.
  apply Forall_forall. intros c Hc.
  apply list_elem_of_lookup in Hc as [i Hi].
  apply boundary_clips_lookup in Hi as (s & e & -> & _). now split.
Qed.

Lemma merge_needs_identity (clips : list Clip) (ids : list Z) :
  Forall unsaved clips ->
  is_value_error (merge_clips clips ids).1 /\ (merge_clips clips ids).2 = clips.
Proof.
  intros Hun. unfold merge_clips. cbv zeta.
  destruct (bool_decide (ids = [])) eqn:E1; [simpl; auto|].
  destruct (bool_decide (sorted Z.ltb ids = ids)); [|simpl; auto].
  cbn [negb orb]. apply bool_decide_eq_false_1 in E1.
  destruct ids as [|cid ids]; [contradiction|]. cbn [forallb].
  destruct (id_map (objects clips) !! Some cid) as [o|] eqn:Eo.
  - exfalso. apply id_map_Some in Eo as [Ho Hid].
    assert (Hc : o.2 ∈ clips).
    { rewrite <- (objects_snd clips). apply list_elem_of_fmap. eauto. }
    rewrite Forall_forall in Hun. specialize (Hun _ Hc).
    unfold unsaved in Hun. congruence.
  - rewrite bool_decide_eq_false_2 by (intros [? ?]; discriminate).
    simpl. auto.
Qed.

Lemma split_needs_identity (clips : list Clip) (cid : Z) (t : float) :
  Forall unsaved clips ->
  split_clip clips cid t
  = (Raise (ValueError ("Clip ID " ++ str_int cid ++ " not found")), clips).
Proof.
  intros Hun. unfold split_clip.
  rewrite (filter_none _ (objects clips)); [reflexivity|].
  apply (objects_Forall (fun c => clip_id c <> Some cid)).
  eapply Forall_impl; [exact Hun|]. unfold unsaved. intros c ->. discriminate.
Qed.

(** X4. The clips [detect_clips] returns have no identity and no segment
    file, and carry the video's identity.  A list of clips without identity
    cannot be edited: on it [merge_clips] raises [ValueError] for every id
    list and [split_clip] raises [ValueError] ([Clip ID n not found]) for
    every id and time, both leaving the list as it was. *)
Theorem fresh_clips_have_no_identity (w : world) (video : Video)
    (scene_threshold : float) (clips : list Clip) :
  detect_clips w video scene_threshold = Ok clips ->
  Forall (fun c => unsaved c /\ file_path c = None
                   /\ video_id c = VideoHandler.video_id video) clips /\
  (forall ids,
     is_value_error (merge_clips clips ids).1 /\
     (merge_clips clips ids).2 = clips) /\
  (forall cid split_time,
     split_clip clips cid split_time
     = (Raise (ValueError ("Clip ID " ++ str_int cid ++ " not found")),
        clips)).
Proof.
  intros Hok. apply detect_clips_Ok in Hok as (report & _ & ->).
  pose proof (boundary_clips_unsaved (VideoHandler.video_id video)
                (sorted flt (Re.pts_times report)) (duration video)) as Hall.
  assert (Hun : Forall unsaved
                  (boundary_clips (VideoHandler.video_id video)
                     (sorted flt (Re.pts_times report)) (duration video))).
  { eapply Forall_impl; [exact Hall|]. now intros c [Hc _]. }
  split; [exact Hall|]. split.
  - intros ids. now apply merge_needs_identity.
  - intros cid split_time. now apply split_needs_identity.
Qed.

Lemma fresh_clips_have_no_identity_witness :
  let w := Samples.world_of 0 Samples.hello_world in
  let clips := [Clip_init (Some 1) 0%Q 2.0%Q; Clip_init (Some 1) 2.0%Q 4.5%Q;
                Clip_init (Some 1) 4.5%Q 10%Q] in
  Forall (fun c => unsaved c /\ file_path c = None /\ video_id c = Some 1)
    clips /\
  (forall ids,
     is_value_error (merge_clips clips ids).1 /\
     (merge_clips clips ids).2 = clips) /\
  (forall cid split_time,
     split_clip clips cid split_time
     = (Raise (ValueError ("Clip ID " ++ str_int cid ++ " not found")),
        clips)).
Proof.
  intros w clips.
  exact (fresh_clips_have_no_identity w Samples.video 0.4%Q clips eq_refl).
Defined.

End DetectMore.

(** ** Frame extraction: failures, decoder calls, number of frames *)

Section ExtractMore.

Import Np Ext VideoHandler VideoProcessor Sampling Decoder.

(** The steps of [extract_frames_for_clip] up to the decoder's opening. *)
Lemma extract_opening (w : world) (clip : Clip) (video : Video)
    (fps : float) (temp_dir : option string) :
  (0 < fps)%Q ->
  let path := segment_path w clip temp_dir in
  (file_path clip = None ->
   exists out, ffmpeg_trim w (start_time clip) (end_time clip)
                 (source_path video) path = Exit0 out) ->
  let clip' := match file_path clip with
               | None => set_file_path clip path
               | Some _ => clip
               end in
  let opened := trimming w clip video temp_dir ++ [CaptureOpen path] in
  forall fuel,
    extract_frames_for_clip fuel w clip video fps temp_dir
    = if is_opened w path then
        match sample_loop fuel w path (start_time clip)
                (end_time clip - start_time clip)%Q (1 / fps)%Q 0 0%Q
                (FrameBatch.init (id_or (clip_id clip) id (-1))) opened with
        | None => None
        | Some (b, tr) => Some (Ok b, clip', tr ++ [CaptureRelease])
        end
      else
        Some (Raise (AppError "Cannot open clip file for frame extraction."
                       path), clip', opened).
Proof.
  intros Hfps path Htrim clip' opened fuel. unfold extract_frames_for_clip.
  assert (Hguard : fle fps 0%Q = false) by (now apply fle_false).
  rewrite Hguard. subst clip' opened. unfold trimming.
  unfold segment_path in *.
  destruct (file_path clip) as [p|] eqn:Ep.
  - subst path. cbn [app]. now destruct (is_opened w p).
  - destruct (Htrim eq_refl) as [out Hout].
    destruct temp_dir as [d|]; cbn -[path_join temp_clip_name] in *;
      subst path; rewrite Hout; cbn -[path_join temp_clip_name];
      now destruct (is_opened w _).
Qed.

(** X5. Failures of [extract_frames_for_clip] before sampling, for
    [fps > 0].  When the clip has no segment and the trim run fails, the
    call raises [AppError] ([Failed to trim clip.], with the run's stderr),
    the clip is unchanged and the decoder is never opened.  When the
    segment cannot be opened, the call raises [AppError] ([Cannot open clip
    file for frame extraction.], with the path); a clip trimmed by this call
    keeps the new segment path, and the decoder is neither read nor
    released. *)
Theorem extract_failures (w : world) (clip : Clip) (video : Video)
    (sampling_rate_fps : float) (temp_dir : option string) :
  (0 < sampling_rate_fps)%Q ->
  let path := segment_path w clip temp_dir in
  (forall err,
     file_path clip = None ->
     ffmpeg_trim w (start_time clip) (end_time clip) (source_path video) path
     = CalledProcessError err ->
     forall fuel,
       extract_frames_for_clip fuel w clip video sampling_rate_fps temp_dir
       = Some (Raise (AppError "Failed to trim clip." err), clip,
               trimming w clip video temp_dir)) /\
  ((file_path clip = None ->
    exists out, ffmpeg_trim w (start_time clip) (end_time clip)
                  (source_path video) path = Exit0 out) ->
   is_opened w path = false ->
   forall fuel,
     extract_frames_for_clip fuel w clip video sampling_rate_fps temp_dir
     = Some (Raise (AppError "Cannot open clip file for frame extraction."
                      path),
             match file_path clip with
             | None => set_file_path clip path
             | Some _ => clip
             end,
             trimming w clip video temp_dir ++ [CaptureOpen path])).
Proof.
  intros Hfps path. split.
  - intros err Hnone Hfail fuel. unfold extract_frames_for_clip.
    assert (Hguard : fle sampling_rate_fps 0%Q = false) by (now apply fle_false).
    rewrite Hguard. unfold trimming. subst path. unfold segment_path in *.
    rewrite Hnone in *.
    destruct temp_dir as [d|]; cbn -[path_join temp_clip_name] in *;
      now rewrite Hfail.
  - intros Htrim Hclosed fuel.
    rewrite (extract_opening w clip video sampling_rate_fps temp_dir Hfps Htrim).
    fold path. now rewrite Hclosed.
Qed.

Lemma extract_failures_witness :
  let clip := Samples.clip (Some 7) 0%Q 3%Q in
  let path := "/tmp/tmpdir/clip_7.mp4" in
  let trim := FfmpegTrim 0%Q 3%Q "tests/assets/test_video.mp4" path in
  (forall fuel,
     extract_frames_for_clip fuel
       (Cases.world_with (Exit0 "") (CalledProcessError "disk full") true 0
          Samples.hello_world)
       clip Samples.video 1%Q None
     = Some (Raise (AppError "Failed to trim clip." "disk full"), clip,
             [Mkdtemp; trim])) /\
  (forall fuel,
     extract_frames_for_clip fuel
       (Cases.world_with (Exit0 "") (Exit0 "") false 0 Samples.hello_world)
       clip Samples.video 1%Q None
     = Some (Raise (AppError "Cannot open clip file for frame extraction."
                      path),
             set_file_path clip path, [Mkdtemp; trim; CaptureOpen path])).
Proof.
  intros clip path trim.
  assert (Hfps : (0 < 1)%Q) by reflexivity.
  split.
  - exact (proj1 (extract_failures
                    (Cases.world_with (Exit0 "") (CalledProcessError "disk full")
                       true 0 Samples.hello_world)
                    clip Samples.video 1%Q None Hfps)
             "disk full" eq_refl eq_refl).
  - exact (proj2 (extract_failures
                    (Cases.world_with (Exit0 "") (Exit0 "") false 0
                       Samples.hello_world)
                    clip Samples.video 1%Q None Hfps)
             (fun _ => ex_intro _ EmptyString eq_refl) eq_refl).
Defined.





(** *** How many frames *)





End ExtractMore.

(** ** Recognition: what is sent to the engine and what comes back *)

Section RegionsMore.

Import Np Ext ConfigManager OcrProcessor Recognition Regions.

(** *** [str.strip] *)

Lemma lstrip_head (s : string) :
  match lstrip s with
  | String c _ => is_space c = false
  | EmptyString => True
  end.
Proof.
  induction s as [|c s IH]; [exact I|]. cbn [lstrip].
  destruct (is_space c) eqn:E; [exact IH|exact E].
Qed.

Lemma rstrip_cons (c : ascii) (s : string) :
  rstrip (String c s)
  = match rstrip s with
    | EmptyString => if is_space c then EmptyString else String c EmptyString
    | r => String c r
    end.
Proof. reflexivity. Qed.

Lemma rstrip_head (c : ascii) (s : string) :
  is_space c = false -> exists r, rstrip (String c s) = String c r.
Proof.
  intros Hc. rewrite rstrip_cons. destruct (rstrip s); rewrite ?Hc; eauto.
Qed.

Lemma lstrip_fixed (s : string) :
  match s with
  | String c _ => is_space c = false
  | EmptyString => True
  end ->
  lstrip s = s.
Proof. destruct s as [|c s]; [reflexivity|]. cbn [lstrip]. now intros ->. Qed.

Lemma rstrip_idem (s : string) : rstrip (rstrip s) = rstrip s.
Proof.
  induction s as [|c s IH]; [reflexivity|]. rewrite rstrip_cons.
  destruct (rstrip s) as [|d r] eqn:E.
  - destruct (is_space c) eqn:Hc; [reflexivity|].
    rewrite rstrip_cons. cbn [rstrip]. now rewrite Hc.
  - rewrite rstrip_cons, IH. reflexivity.
Qed.

(** Stripped text has no white space left at either end. *)
Lemma strip_idem (s : string) : strip (strip s) = strip s.
Proof.
  unfold strip. rewrite (lstrip_fixed (rstrip (lstrip s))).
  - apply rstrip_idem.
  - pose proof (lstrip_head s) as H. destruct (lstrip s) as [|c t]; [exact I|].
    destruct (rstrip_head c t H) as [r ->]. exact H.
Qed.

(** *** The loop over the ROIs *)

Lemma bounds_check (frame : ndarray) (roi : ROI) :
  ((y roi <? 0) || (x roi <? 0)
   || (Z.of_nat (Np.height frame) <? y roi + ConfigManager.height roi)
   || (Z.of_nat (Np.width frame) <? x roi + ConfigManager.width roi)) = false
  <-> within frame roi.
Proof.
  unfold within. rewrite !orb_false_iff, !Z.ltb_ge. tauto.
Qed.

(** The crop of an ROI within the frame has the ROI's height and width, and
    shows the frame from the ROI's corner on. *)
Lemma roi_crop_shape (frame : ndarray) (roi : ROI) :
  within frame roi -> sized roi ->
  Z.of_nat (Np.height (roi_crop frame roi)) = ConfigManager.height roi /\
  Z.of_nat (Np.width (roi_crop frame roi)) = ConfigManager.width roi /\
  forall r c,
    pixel (roi_crop frame roi) r c
    = pixel frame (Z.to_nat (y roi) + r)%nat (Z.to_nat (x roi) + c)%nat.
Proof.
  intros (Hx & Hy & Hh & Hw) [Hsw Hsh].
  unfold roi_crop, crop, slice_len, slice_start, slice_index.
  cbn [Np.height Np.width pixel].
  destruct (y roi <? 0) eqn:E1; [lia|].
  destruct (x roi <? 0) eqn:E2; [lia|].
  destruct (y roi + ConfigManager.height roi <? 0) eqn:E3; [lia|].
  destruct (x roi + ConfigManager.width roi <? 0) eqn:E4; [lia|].
  repeat split; try lia.
  intros r c. do 2 f_equal; lia.
Qed.

Lemma roi_crop_size (frame : ndarray) (roi : ROI) :
  within frame roi -> sized roi ->
  (Np.size (roi_crop frame roi) =? 0) = false.
Proof.
  intros Hin Hs. destruct (roi_crop_shape frame roi Hin Hs) as (Hh & Hw & _).
  destruct Hs as [Hsw Hsh]. apply Z.eqb_neq. unfold Np.size. nia.
Qed.

(** The ROIs are handled one after the other. *)
Lemma ocr_rois_app (w : world) frame ts vid cid thr (before rest : list ROI) :
  forall acc tr,
    ocr_rois w frame ts vid cid thr (before ++ rest) acc tr
    = match ocr_rois w frame ts vid cid thr before acc tr with
      | (Ok res, tr') => ocr_rois w frame ts vid cid thr rest res tr'
      | (Raise e, tr') => (Raise e, tr')
      end.
Proof.
  induction before as [|roi before IH]; intros acc tr; [reflexivity|].
  cbn [app ocr_rois].
  destruct (_ || _); [apply IH|].
  destruct (Np.size _ =? 0); [apply IH|].
  destruct (image_to_data w _) as [texts confs| |msg]; try reflexivity.
  destruct (parse_tokens _ [] []) as [numeric_confs tokens].
  destruct (_ && _); [|apply IH].
  destruct (OCRResult.init _ _ _ _ _ _) as [d|e]; [apply IH|reflexivity].
Qed.

Lemma OCRResult_init_Ok vid cid ts txt conf roi d :
  OCRResult.init vid cid ts txt conf roi = Ok d ->
  d = {| OCRResult.video_id := vid; OCRResult.clip_id := cid;
         OCRResult.timestamp := ts; OCRResult.text := txt;
         OCRResult.confidence := conf; OCRResult.roi := roi |}
  /\ txt <> EmptyString /\ (0 <= conf)%Q /\ (conf <= 1)%Q.
Proof.
  unfold OCRResult.init. destruct txt as [|c txt]; [discriminate|].
  cbn [truthy_str negb].
  destruct (fle 0%Q conf) eqn:E0; [|discriminate].
  destruct (fle conf 1%Q) eqn:E1; [|discriminate].
  intros [= <-]. apply fle_spec in E0, E1. now repeat split.
Qed.

Lemma ocr_rois_sound (w : world) frame ts vid cid thr (rois : list ROI) :
  forall acc tr res,
    (ocr_rois w frame ts vid cid thr rois acc tr).1 = Ok res ->
    exists new,
      res = acc ++ new /\ Forall (sound frame ts vid cid thr) new /\
      sublist (OCRResult.roi <$> new) rois.
Proof.
  induction rois as [|roi rois IH]; intros acc tr res; cbn [ocr_rois].
  - intros [= <-]. exists []. rewrite app_nil_r.
    split; [reflexivity|]. split; constructor.
  - assert (Hskip : forall tr',
      (ocr_rois w frame ts vid cid thr rois acc tr').1 = Ok res ->
      exists new,
        res = acc ++ new /\ Forall (sound frame ts vid cid thr) new /\
        sublist (OCRResult.roi <$> new) (roi :: rois)).
    { intros tr' H. apply IH in H as (new & -> & Hs & Hsub).
      exists new. split; [reflexivity|]. split; [exact Hs|].
      now apply sublist_cons. }
    destruct (_ || _) eqn:Eb; [apply Hskip|].
    apply bounds_check in Eb.
    destruct (Np.size _ =? 0); [apply Hskip|].
    destruct (image_to_data w _) as [texts confs| |msg]; try discriminate.
    destruct (parse_tokens _ [] []) as [numeric_confs tokens].
    destruct (truthy_str _ && fle thr _) eqn:Eg; [|apply Hskip].
    apply andb_prop in Eg as [_ Hthr]. apply fle_spec in Hthr.
    destruct (OCRResult.init _ _ _ _ _ _) as [d|e] eqn:Einit; [|discriminate].
    apply OCRResult_init_Ok in Einit as (-> & Htxt & H0 & H1).
    intros H. apply IH in H as (new & -> & Hs & Hsub).
    eexists (_ :: new). rewrite <- app_assoc. split; [reflexivity|]. split.
    + constructor; [|exact Hs]. unfold sound.
      cbn [OCRResult.text OCRResult.confidence OCRResult.timestamp
           OCRResult.video_id OCRResult.clip_id OCRResult.roi].
      split; [exact Htxt|]. split; [apply strip_idem|].
      split; [exact Hthr|]. split; [exact H0|]. split; [exact H1|].
      split; [reflexivity|]. split; [reflexivity|].
      split; [reflexivity|exact Eb].
    + cbn [fmap list_fmap OCRResult.roi]. now apply sublist_skip.
Qed.

(** X8. Every detection [process_frame_for_ocr] returns has a text that is
    not empty and has no white space at either end, a confidence between the
    threshold and 1.0, the timestamp and the two identities handed to the
    call, and an ROI of the given list that lies within the frame; the
    detections follow the order of the ROI list, at most one per ROI. *)
Theorem process_frame_detections (w : world) (frame : ndarray)
    (timestamp : float) (video_id clip_id : Z) (rois : list ROI)
    (confidence_threshold : float) (res : list OCRResult.t) :
  (process_frame_for_ocr w frame timestamp video_id clip_id rois
     confidence_threshold).1 = Ok res ->
  Forall (sound frame timestamp video_id clip_id confidence_threshold) res /\
  sublist (OCRResult.roi <$> res) rois /\
  (length res <= length rois)%nat.
Proof.
  unfold process_frame_for_ocr. destruct (negb _); [discriminate|].
  intros H. apply ocr_rois_sound in H as (new & -> & Hs & Hsub).
  cbn [app]. split; [exact Hs|]. split; [exact Hsub|].
  apply sublist_length in Hsub. now rewrite length_fmap in Hsub.
Qed.

Lemma process_frame_detections_witness :
  let w := Samples.world_of 0 Samples.hello_world in
  let roi := Samples.roi 0 0 5 5 in
  let res := [ {| OCRResult.video_id := 1; OCRResult.clip_id := 2;
                  OCRResult.timestamp := 0.5%Q; OCRResult.text := "HelloWorld";
                  OCRResult.confidence := overall_confidence
                                            [(85 / 100)%Q; (90 / 100)%Q];
                  OCRResult.roi := roi |} ] in
  Forall (sound (Samples.black 10 10) 0.5%Q 1 2 0.5%Q) res /\
  sublist (OCRResult.roi <$> res) [Samples.roi 20 20 5 5; roi] /\
  (length res <= 2)%nat.
Proof.
  intros w roi res.
  exact (process_frame_detections w (Samples.black 10 10) 0.5%Q 1 2
           [Samples.roi 20 20 5 5; roi] 0.5%Q res eq_refl).
Defined.

(** *** Calls of the engine *)

Lemma ocr_rois_calls (w : world) frame ts vid cid thr (rois : list ROI) :
  Forall sized rois ->
  forall acc tr,
    exists made,
      (ocr_rois w frame ts vid cid thr rois acc tr).2 = tr ++ made /\
      made `prefix_of` region_calls frame rois /\
      (forall res, (ocr_rois w frame ts vid cid thr rois acc tr).1 = Ok res ->
         made = region_calls frame rois).
Proof.
  unfold region_calls.
  induction 1 as [|roi rois Hsized _ IH]; intros acc tr; cbn [ocr_rois].
  - exists []. rewrite app_nil_r. split; [reflexivity|].
    split; [reflexivity|]. intros res _. reflexivity.
  - rewrite filter_cons.
    destruct (_ || _) eqn:Eb.
    { destruct (decide (within frame roi)) as [Hin|_]; [|apply IH].
      apply bounds_check in Hin. congruence. }
    apply bounds_check in Eb.
    destruct (decide (within frame roi)) as [_|Hout]; [|contradiction].
    fold (roi_crop frame roi). rewrite (roi_crop_size frame roi Eb Hsized).
    rewrite fmap_cons.
    assert (Hnext : forall acc',
      exists made,
        (ocr_rois w frame ts vid cid thr rois acc'
           (tr ++ [ImageToData (roi_crop frame roi)])).2 = tr ++ made /\
        made `prefix_of`
          ImageToData (roi_crop frame roi)
          :: ((fun r => ImageToData (roi_crop frame r))
                <$> filter (within frame) rois) /\
        (forall res,
           (ocr_rois w frame ts vid cid thr rois acc'
              (tr ++ [ImageToData (roi_crop frame roi)])).1 = Ok res ->
           made = ImageToData (roi_crop frame roi)
                  :: ((fun r => ImageToData (roi_crop frame r))
                        <$> filter (within frame) rois))).
    { intros acc'.
      destruct (IH acc' (tr ++ [ImageToData (roi_crop frame roi)]))
        as (made & Hmade & Hpre & Hall).
      exists (ImageToData (roi_crop frame roi) :: made).
      rewrite Hmade, <- app_assoc. split; [reflexivity|]. split.
      - now apply prefix_cons.
      - intros res Hres. f_equal. now apply (Hall res). }
    assert (Hstop : forall e : exn,
      exists made,
        tr ++ [ImageToData (roi_crop frame roi)] = tr ++ made /\
        made `prefix_of`
          ImageToData (roi_crop frame roi)
          :: ((fun r => ImageToData (roi_crop frame r))
                <$> filter (within frame) rois) /\
        (forall res : list OCRResult.t, @Raise (list OCRResult.t) e = Ok res ->
           made = ImageToData (roi_crop frame roi)
                  :: ((fun r => ImageToData (roi_crop frame r))
                        <$> filter (within frame) rois))).
    { intros e. exists [ImageToData (roi_crop frame roi)].
      split; [reflexivity|]. split; [|discriminate].
      apply prefix_cons, prefix_nil. }
    destruct (image_to_data w _) as [texts confs| |msg];
      [|apply Hstop|apply Hstop].
    destruct (parse_tokens _ [] []) as [numeric_confs tokens].
    destruct (_ && _); [|apply Hnext].
    destruct (OCRResult.init _ _ _ _ _ _) as [d|e]; [apply Hnext|apply Hstop].
Qed.

(** X9. For ROIs whose width and height are positive, as the [ROI]
    constructor admits them, [process_frame_for_ocr] calls the engine on the
    crops of the ROIs that lie within the frame, in ROI order and once each,
    and on nothing else; an ROI that reaches beyond the frame is skipped
    without a call.  A run that raises has made some first part of these
    calls, a run that returns has made all of them.  The crop of such an ROI
    has the ROI's height and width and shows the frame from the ROI's corner
    on. *)
Theorem process_frame_engine_calls (w : world) (frame : ndarray)
    (timestamp : float) (video_id clip_id : Z) (rois : list ROI)
    (confidence_threshold : float) :
  (0 <= confidence_threshold /\ confidence_threshold <= 1)%Q ->
  Forall sized rois ->
  let run := process_frame_for_ocr w frame timestamp video_id clip_id rois
               confidence_threshold in
  run.2 `prefix_of` region_calls frame rois /\
  (forall res, run.1 = Ok res -> run.2 = region_calls frame rois) /\
  (forall roi, roi ∈ rois -> within frame roi ->
     Z.of_nat (Np.height (roi_crop frame roi)) = ConfigManager.height roi /\
     Z.of_nat (Np.width (roi_crop frame roi)) = ConfigManager.width roi /\
     forall r c,
       pixel (roi_crop frame roi) r c
       = pixel frame (Z.to_nat (y roi) + r)%nat (Z.to_nat (x roi) + c)%nat).
Proof.
  intros [H0 H1] Hsized run. subst run. unfold process_frame_for_ocr.
  apply fle_spec in H0, H1. rewrite H0, H1. cbn [andb negb].
  destruct (ocr_rois_calls w frame timestamp video_id clip_id
              confidence_threshold rois Hsized [] [])
    as (made & Hmade & Hpre & Hall).
  rewrite Hmade. cbn [app]. split; [exact Hpre|]. split; [exact Hall|].
  intros roi Hroi Hin. apply roi_crop_shape; [exact Hin|].
  rewrite Forall_forall in Hsized. now apply Hsized.
Qed.

Lemma process_frame_engine_calls_witness :
  let w := Samples.world_of 0 Samples.hello_world in
  let frame := Samples.black 10 10 in
  let rois := [Samples.roi 8 8 5 5; Samples.roi 0 0 5 5] in
  let run := process_frame_for_ocr w frame 0%Q 1 1 rois 0.5%Q in
  run.2 `prefix_of` region_calls frame rois /\
  (forall res, run.1 = Ok res -> run.2 = region_calls frame rois) /\
  (forall roi, roi ∈ rois -> within frame roi ->
     Z.of_nat (Np.height (roi_crop frame roi)) = ConfigManager.height roi /\
     Z.of_nat (Np.width (roi_crop frame roi)) = ConfigManager.width roi /\
     forall r c,
       pixel (roi_crop frame roi) r c
       = pixel frame (Z.to_nat (y roi) + r)%nat (Z.to_nat (x roi) + c)%nat).
Proof.
  intros w frame rois.
  refine (process_frame_engine_calls w frame 0%Q 1 1 rois 0.5%Q _ _).
  - split; discriminate.
  - repeat constructor.
Defined.

(** *** Failures of the engine *)

(** X10. When the engine fails on the crop of an ROI, the frame's run ends
    there with [RuntimeError]: with the message [Tesseract not installed or
    not in PATH.] when the engine is missing, with [Error during OCR
    processing.] for any other failure.  The detections of the ROIs before
    it are not returned, and the ROIs behind it are not looked at. *)
Theorem process_frame_engine_failure (w : world) (frame : ndarray)
    (timestamp : float) (video_id clip_id : Z) (before after : list ROI)
    (roi : ROI) (confidence_threshold : float) (found : list OCRResult.t) :
  within frame roi -> Np.size (roi_crop frame roi) <> 0 ->
  let run_before := process_frame_for_ocr w frame timestamp video_id clip_id
                      before confidence_threshold in
  let run := process_frame_for_ocr w frame timestamp video_id clip_id
               (before ++ roi :: after) confidence_threshold in
  run_before.1 = Ok found ->
  (image_to_data w (roi_crop frame roi) = TesseractNotFoundError ->
   run = (Raise (RuntimeError "Tesseract not installed or not in PATH."),
          run_before.2 ++ [ImageToData (roi_crop frame roi)])) /\
  (forall msg,
     image_to_data w (roi_crop frame roi) = EngineException msg ->
     run = (Raise (RuntimeError "Error during OCR processing."),
            run_before.2 ++ [ImageToData (roi_crop frame roi)])).
Proof.
  intros Hin Hsize run_before run Hfound. subst run run_before.
  unfold process_frame_for_ocr in *.
  destruct (negb _); [discriminate|].
  rewrite ocr_rois_app.
  destruct (ocr_rois w frame timestamp video_id clip_id confidence_threshold
              before [] []) as [[res|e] tr]; [|discriminate].
  cbn [fst snd] in *. cbn [ocr_rois].
  apply bounds_check in Hin. rewrite Hin.
  fold (roi_crop frame roi). apply Z.eqb_neq in Hsize. rewrite Hsize.
  split; [intros ->|intros msg ->]; reflexivity.
Qed.

Lemma process_frame_engine_failure_witness :
  let missing :=
    Cases.world_with (Exit0 "") (Exit0 "") true 0 TesseractNotFoundError in
  let broken :=
    Cases.world_with (Exit0 "") (Exit0 "") true 0 (EngineException "crash") in
  let frame := Samples.black 10 10 in
  let roi := Samples.roi 0 0 5 5 in
  process_frame_for_ocr missing frame 0%Q 1 1 [roi; roi] 0.5%Q
  = (Raise (RuntimeError "Tesseract not installed or not in PATH."),
     [ImageToData (roi_crop frame roi)]) /\
  process_frame_for_ocr broken frame 0%Q 1 1 [roi; roi] 0.5%Q
  = (Raise (RuntimeError "Error during OCR processing."),
     [ImageToData (roi_crop frame roi)]).
Proof.
  intros missing broken frame roi.
  assert (Hin : within frame roi) by (unfold within; cbn; lia).
  assert (Hsize : Np.size (roi_crop frame roi) <> 0) by discriminate.
  split.
  - exact (proj1 (process_frame_engine_failure missing frame 0%Q 1 1 [] [roi]
                    roi 0.5%Q [] Hin Hsize eq_refl) eq_refl).
  - exact (proj2 (process_frame_engine_failure broken frame 0%Q 1 1 [] [roi]
                    roi 0.5%Q [] Hin Hsize eq_refl) "crash" eq_refl).
Defined.

(** *** Replies with rows that cannot be used *)

Lemma parse_tokens_parsed (texts : list string) (confs : list (option float)) :
  forall numeric_confs tokens,
    parse_tokens (py_zip texts confs) numeric_confs tokens
    = parse_tokens ((fun p => (p.1, Some p.2)) <$> parsed texts confs)
        numeric_confs tokens.
Proof.
  unfold py_zip, parsed. revert confs.
  induction texts as [|t texts IH]; intros [|[c|] confs] ncs toks;
    try reflexivity.
  - cbn [zip zip_with omap list_omap fmap list_fmap parse_tokens fst snd].
    destruct (_ && _); apply IH.
  - cbn [zip zip_with omap list_omap parse_tokens snd]. apply IH.
Qed.

Lemma ocr_rois_clean (w : world) frame ts vid cid thr (rois : list ROI) :
  forall acc tr,
    ocr_rois (with_engine w (fun a => clean (image_to_data w a)))
      frame ts vid cid thr rois acc tr
    = ocr_rois w frame ts vid cid thr rois acc tr.
Proof.
  induction rois as [|roi rois IH]; intros acc tr; [reflexivity|].
  cbn [ocr_rois]. destruct (_ || _); [apply IH|].
  destruct (Np.size _ =? 0); [apply IH|].
  cbn [with_engine image_to_data].
  destruct (image_to_data w _) as [texts confs| |msg]; try reflexivity.
  cbn [clean]. unfold reply_of at 1. rewrite zip_reply.
  rewrite <- parse_tokens_parsed.
  destruct (parse_tokens _ [] []) as [numeric_confs tokens].
  destruct (_ && _); [|apply IH].
  destruct (OCRResult.init _ _ _ _ _ _) as [d|e]; [apply IH|reflexivity].
Qed.

(** X11. Rows of the engine's reply that cannot be used change nothing: a
    row whose confidence [float()] rejects, and the surplus rows of the
    longer of the two columns, enter neither the text nor the mean.  A run
    of [process_frame_for_ocr] gives the same result, with the same calls,
    as a run against an engine that returns only the usable rows. *)
Theorem process_frame_ignores_unusable_rows (w : world) (frame : ndarray)
    (timestamp : float) (video_id clip_id : Z) (rois : list ROI)
    (confidence_threshold : float) :
  process_frame_for_ocr (with_engine w (fun a => clean (image_to_data w a)))
    frame timestamp video_id clip_id rois confidence_threshold
  = process_frame_for_ocr w frame timestamp video_id clip_id rois
      confidence_threshold.
Proof.
  unfold process_frame_for_ocr. destruct (negb _); [reflexivity|].
  apply ocr_rois_clean.
Qed.

Example unusable_rows_example :
  clean (Data ["Hello"; "???"; "World"; "!"] [Some 85%Q; None; Some 90%Q])
  = Samples.hello_world.
Proof. reflexivity. Qed.

End RegionsMore.

(** ** Editing: what a finished merge or split has done *)

Section EditingMore.

Import VideoProcessor Editing.

Lemma ascending_NoDup_strict (ids : list Z) :
  Sorted Z.le ids -> NoDup ids -> StronglySorted Z.lt ids.
Proof.
  intros Hs Hnd. apply (Sorted_StronglySorted Z.le_trans) in Hs.
  induction Hs as [|x ids Hs IH Hx]; [constructor|].
  apply NoDup_cons in Hnd as [Hnot Hnd].
  constructor; [now apply IH|].
  rewrite Forall_forall in Hx |- *. intros y Hy.
  specialize (Hx y Hy). assert (x <> y) by (intros ->; contradiction). lia.
Qed.

Lemma singleton_set_all (l : list (option Z)) :
  size (list_to_set l : gset (option Z)) = 1%nat ->
  forall a b, a ∈ l -> b ∈ l -> a = b.
Proof.
  intros Hsize a b Ha Hb. apply size_1_elem_of in Hsize as [x Hx].
  assert (Ha' : a ∈ (list_to_set l : gset (option Z)))
    by (now apply elem_of_list_to_set).
  assert (Hb' : b ∈ (list_to_set l : gset (option Z)))
    by (now apply elem_of_list_to_set).
  rewrite Hx in Ha', Hb'. apply elem_of_singleton in Ha', Hb'. congruence.
Qed.

(** The run of [merge_clips] behind a result. *)
Lemma merge_clips_Ok (clips : list Clip) (ids : list Z) (merged : Clip)
    (clips' : list Clip) :
  merge_clips clips ids = (Ok merged, clips') ->
  let selected := omap (fun cid => id_map (objects clips) !! Some cid) ids in
  ids <> [] /\ Sorted Z.le ids /\
  Forall2 (fun cid o => id_map (objects clips) !! Some cid = Some o) ids
    selected /\
  exists first others l,
    selected = first :: others /\
    size (list_to_set ((fun o => video_id o.2) <$> selected)
            : gset (option Z)) = 1%nat /\
    remove_selected selected (objects clips) = (Ok (), l) /\
    merged = Clip_init (video_id first.2)
               (min_from (start_time first.2)
                  ((fun o => start_time o.2) <$> others))
               (max_from (end_time first.2)
                  ((fun o => end_time o.2) <$> others)) /\
    clips' = (snd <$> l) ++ [merged].
Proof.
  unfold merge_clips. cbv zeta.
  destruct (bool_decide (ids = [])) eqn:E1; [discriminate|].
  destruct (bool_decide (sorted Z.ltb ids = ids)) eqn:E2; [|discriminate].
  cbn [negb orb].
  destruct (forallb _ ids) eqn:E3; [|discriminate]. cbn [negb].
  destruct (bool_decide (size _ = 1%nat)) eqn:E4; [|discriminate].
  cbn [negb].
  apply bool_decide_eq_false_1 in E1. apply bool_decide_eq_true_1 in E2, E4.
  apply sorted_ids_fixpoint in E2.
  assert (Hsel : Forall2 (fun cid o =>
                    id_map (objects clips) !! Some cid = Some o) ids
                   (omap (fun cid => id_map (objects clips) !! Some cid) ids)).
  { apply omap_all_Some. apply Forall_forall. intros cid Hcid.
    rewrite forallb_forall in E3.
    specialize (E3 cid (proj1 (list_elem_of_In _ _) Hcid)).
    now apply bool_decide_eq_true_1 in E3. }
  destruct (omap _ ids) as [|first others] eqn:Esel.
  { apply Forall2_length in Hsel. destruct ids; [contradiction|discriminate]. }
  cbn [fmap list_fmap min max].
  destruct (remove_selected (first :: others) (objects clips))
    as [[[]|e] l] eqn:Erm; [|discriminate].
  intros [= <- <-].
  split; [exact E1|]. split; [exact E2|]. split; [exact Hsel|].
  exists first, others, l. repeat split; assumption.
Qed.

(** X12. Whenever [merge_clips] returns, whatever identities the clips of
    the list have (some may be missing or repeated): the id list was not
    empty and strictly ascending; the new list is what is left of the old
    one, in its order, followed by the merged clip, and has [len(ids) - 1]
    clips less; the merged clip has no identity and no segment file; every
    id names a clip of the old list that has the merged clip's video id and
    lies inside the merged clip's span, whose start and end are the start
    and the end of such clips; and the clips no id names are all kept. *)
Theorem merge_clips_result (clips : list Clip) (ids : list Z) (merged : Clip)
    (clips' : list Clip) :
  merge_clips clips ids = (Ok merged, clips') ->
  ids <> [] /\ StronglySorted Z.lt ids /\
  unsaved merged /\ file_path merged = None /\
  (exists rest,
     clips' = rest ++ [merged] /\ sublist rest clips /\
     (length rest + length ids = length clips)%nat /\
     forall c, c ∈ clips -> clip_id c ∉ Some <$> ids -> c ∈ rest) /\
  (forall cid, cid ∈ ids ->
     exists c, c ∈ clips /\ clip_id c = Some cid /\
       video_id c = video_id merged /\
       (start_time merged <= start_time c)%Q /\
       (end_time c <= end_time merged)%Q) /\
  (exists c, c ∈ clips /\ clip_id c ∈ Some <$> ids /\
     start_time c = start_time merged) /\
  (exists c, c ∈ clips /\ clip_id c ∈ Some <$> ids /\
     end_time c = end_time merged).
Proof.
  intros Hrun. apply merge_clips_Ok in Hrun. cbv zeta in Hrun.
  destruct Hrun as (Hne & Hsorted & Hsel & first & others & l & Esel & Hsize
                    & Hrm & -> & ->).
  rewrite Esel in Hsel, Hsize, Hrm.
  set (selected := first :: others) in *.
  (* the selected objects *)
  assert (Hobj : Forall2 (fun cid o =>
                    o ∈ objects clips /\ clip_id o.2 = Some cid) ids selected).
  { eapply Forall2_impl; [exact Hsel|]. intros cid o Ho.
    now apply id_map_Some in Ho. }
  destruct (remove_selected_Ok _ _ _ (objects_tags_NoDup clips) Hrm)
    as [Htags Hin].
  assert (Hnd : NoDup ids).
  { apply NoDup_alt. intros i j cid Hi Hj.
    destruct (Forall2_lookup_l _ _ _ _ _ Hsel Hi) as (oi & Hoi & Hli).
    destruct (Forall2_lookup_l _ _ _ _ _ Hsel Hj) as (oj & Hoj & Hlj).
    assert (oi = oj) by congruence. subst oj.
    eapply NoDup_lookup; [exact Htags| |];
      rewrite list_lookup_fmap; [rewrite Hoi|rewrite Hoj]; reflexivity. }
  pose proof (remove_selected_length _ _ _ Hrm) as Hlen.
  rewrite (remove_selected_filter _ _ Htags (objects_tags_NoDup clips) Hin)
    in Hrm.
  injection Hrm as <-.
  (* spans *)
  pose proof (min_from_spec (start_time first.2)
                ((fun o => start_time o.2) <$> others)) as [Hmin_in Hmin].
  pose proof (max_from_spec (end_time first.2)
                ((fun o => end_time o.2) <$> others)) as [Hmax_in Hmax].
  change (start_time first.2 :: ((fun o : nat * Clip => start_time o.2) <$> others))
    with ((fun o : nat * Clip => start_time o.2) <$> selected) in Hmin_in, Hmin.
  change (end_time first.2 :: ((fun o : nat * Clip => end_time o.2) <$> others))
    with ((fun o : nat * Clip => end_time o.2) <$> selected) in Hmax_in, Hmax.
  set (start := min_from _ _) in *. set (end_ := max_from _ _) in *.
  assert (Hnamed : forall o, o ∈ selected ->
            o.2 ∈ clips /\ clip_id o.2 ∈ Some <$> ids).
  { intros o Ho. apply list_elem_of_lookup in Ho as [i Hi].
    destruct (Forall2_lookup_r _ _ _ _ _ Hobj Hi) as (cid & Hcid & Hoc & Hid).
    split; [now apply objects_elem|]. rewrite Hid.
    apply list_elem_of_fmap. exists cid. split; [reflexivity|].
    eapply list_elem_of_lookup_2; eauto. }
  split; [exact Hne|]. split; [now apply ascending_NoDup_strict|].
  split; [reflexivity|]. split; [reflexivity|]. split; [|split; [|split]].
  - eexists. split; [reflexivity|]. split; [|split].
    + rewrite <- (objects_snd clips) at 2. apply fmap_sublist, sublist_filter.
    + rewrite length_fmap. unfold objects in Hlen at 2.
      rewrite length_imap in Hlen. apply Forall2_length in Hsel.
      unfold selected in *. lia.
    + intros c Hc Hnot. apply list_elem_of_lookup in Hc as [i Hi].
      apply list_elem_of_fmap. exists (i, c). split; [reflexivity|].
      assert (Hic : (i, c) ∈ objects clips).
      { apply list_elem_of_lookup. exists i. unfold objects.
        now rewrite list_lookup_imap, Hi. }
      apply list_elem_of_filter. split; [|exact Hic].
      intros Htag. change (i ∈ fst <$> selected) in Htag.
      apply list_elem_of_fmap in Htag as (o & Hfst & Ho).
      assert (o = (i, c)).
      { apply (same_tag_same_object (objects clips));
          [apply objects_tags_NoDup| |exact Hic|now symmetry].
        apply list_elem_of_lookup in Ho as [k Hk].
        destruct (Forall2_lookup_r _ _ _ _ _ Hobj Hk) as (cid & _ & Hoc & _).
        exact Hoc. }
      subst o. apply Hnot. now apply (Hnamed (i, c)).
  - intros cid Hcid. apply list_elem_of_lookup in Hcid as [i Hi].
    destruct (Forall2_lookup_l _ _ _ _ _ Hobj Hi) as (o & Ho & Hoc & Hid).
    assert (Hosel : o ∈ selected) by (eapply list_elem_of_lookup_2; eauto).
    exists o.2. split; [now apply objects_elem|]. split; [exact Hid|].
    cbn [Clip_init video_id start_time end_time]. split; [|split].
    + apply (singleton_set_all _ Hsize).
      * apply list_elem_of_fmap. eauto.
      * apply list_elem_of_fmap. exists first. split; [reflexivity|].
        now left.
    + rewrite Forall_forall in Hmin. apply Hmin.
      apply list_elem_of_fmap. eauto.
    + rewrite Forall_forall in Hmax. apply Hmax.
      apply list_elem_of_fmap. eauto.
  - apply list_elem_of_fmap in Hmin_in as (o & Ho & Hosel).
    exists o.2. destruct (Hnamed o Hosel). repeat split; try assumption.
    now symmetry.
  - apply list_elem_of_fmap in Hmax_in as (o & Ho & Hosel).
    exists o.2. destruct (Hnamed o Hosel). repeat split; try assumption.
    now symmetry.
Qed.

Lemma merge_clips_result_witness :
  let a := Samples.clip (Some 101) 0%Q 5%Q in
  let b := Samples.clip None 2%Q 3%Q in
  let c := Samples.clip (Some 102) 5%Q 10%Q in
  let merged := Clip_init (Some 1) 0%Q 10%Q in
  let clips := [a; b; c] in
  let ids := [101; 102] in
  let clips' := [b; merged] in
  ids <> [] /\ StronglySorted Z.lt ids /\
  unsaved merged /\ file_path merged = None /\
  (exists rest,
     clips' = rest ++ [merged] /\ sublist rest clips /\
     (length rest + length ids = length clips)%nat /\
     forall c, c ∈ clips -> clip_id c ∉ Some <$> ids -> c ∈ rest) /\
  (forall cid, cid ∈ ids ->
     exists c, c ∈ clips /\ clip_id c = Some cid /\
       video_id c = video_id merged /\
       (start_time merged <= start_time c)%Q /\
       (end_time c <= end_time merged)%Q) /\
  (exists c, c ∈ clips /\ clip_id c ∈ Some <$> ids /\
     start_time c = start_time merged) /\
  (exists c, c ∈ clips /\ clip_id c ∈ Some <$> ids /\
     end_time c = end_time merged).
Proof.
  intros a b c merged clips ids clips'.
  apply (merge_clips_result clips ids merged clips').
  vm_compute. reflexivity.
Defined.

(** *** Splitting *)

Lemma first_with_id (clips : list Clip) (cid : Z) :
  Forall (fun c => clip_id c <> Some cid) clips \/
  exists before target after,
    clips = before ++ target :: after /\
    Forall (fun c => clip_id c <> Some cid) before /\
    clip_id target = Some cid.
Proof.
  induction clips as [|c clips IH]; [left; constructor|].
  destruct (decide (clip_id c = Some cid)) as [Hc|Hc].
  - right. exists [], c, clips. split; [reflexivity|]. split; [constructor|].
    exact Hc.
  - destruct IH as [Hnone|(before & target & after & -> & Hb & Ht)].
    + left. now constructor.
    + right. exists (c :: before), target, after.
      split; [reflexivity|]. split; [now constructor|exact Ht].
Qed.

(** The run of [split_clip] behind a result. *)
Lemma split_clip_Ok (clips : list Clip) (cid : Z) (t : float)
    (new1 new2 : Clip) (clips' : list Clip) :
  split_clip clips cid t = (Ok (new1, new2), clips') ->
  exists before target after,
    clips = before ++ target :: after /\
    Forall (fun c => clip_id c <> Some cid) before /\
    clip_id target = Some cid /\
    (start_time target < t)%Q /\ (t < end_time target)%Q /\
    new1 = Clip_init (video_id target) (start_time target) t /\
    new2 = Clip_init (video_id target) t (end_time target) /\
    clips' = before ++ after ++ [new1; new2].
Proof.
  destruct (first_with_id clips cid)
    as [Hnone|(before & target & after & -> & Hb & Ht)].
  - unfold split_clip. rewrite (filter_none _ (objects clips)); [discriminate|].
    now apply (objects_Forall (fun c => clip_id c <> Some cid)).
  - unfold split_clip. rewrite (split_target_found _ _ _ _ Hb Ht). cbn [snd].
    destruct (flt (start_time target) t) eqn:E1; [|discriminate].
    destruct (flt t (end_time target)) eqn:E2; [|discriminate].
    cbn [andb negb]. cbv zeta.
    destruct (split_target_removed before after target) as [Hrm [l Hl]].
    rewrite Hl in *. simpl in Hrm. rewrite Hrm.
    intros [= <- <- <-]. apply flt_spec in E1, E2.
    exists before, target, after. rewrite <- app_assoc.
    repeat split; assumption.
Qed.

Lemma total_span_app (l1 l2 : list Clip) :
  (total_span (l1 ++ l2) == total_span l1 + total_span l2)%Q.
Proof.
  induction l1 as [|c l1 IH].
  - change (total_span []) with 0%Q. cbn [app]. lra.
  - change (total_span ((c :: l1) ++ l2))
      with (span c + total_span (l1 ++ l2))%Q.
    change (total_span (c :: l1)) with (span c + total_span l1)%Q.
    rewrite IH. lra.
Qed.

(** X13. Whenever [split_clip] returns: both new clips end after they
    start, the second starts where the first ends, and together they cover
    the time of the clip they replace, so that the time covered by the list
    is the same as before; a list in which every clip ends after it starts
    stays such a list. *)
Theorem split_clip_conserves_time (clips : list Clip) (clip_id_to_split : Z)
    (split_time : float) (new1 new2 : Clip) (clips' : list Clip) :
  split_clip clips clip_id_to_split split_time = (Ok (new1, new2), clips') ->
  positive new1 /\ positive new2 /\ end_time new1 = start_time new2 /\
  (total_span clips' == total_span clips)%Q /\
  (Forall positive clips -> Forall positive clips') /\
  Forall unsaved [new1; new2].
Proof.
  intros Hrun. apply split_clip_Ok in Hrun
    as (before & target & after & -> & _ & _ & H1 & H2 & -> & -> & ->).
  unfold positive. cbn [Clip_init start_time end_time].
  split; [exact H1|]. split; [exact H2|]. split; [reflexivity|]. split; [|split].
  - rewrite !total_span_app.
    change (total_span (target :: after))
      with (span target + total_span after)%Q.
    unfold total_span at 3. cbn [fold_right].
    unfold span. cbn [Clip_init start_time end_time]. lra.
  - rewrite !Forall_app, !Forall_cons. intros (Hb & _ & Ha).
    split; [exact Hb|]. split; [exact Ha|].
    cbn [Clip_init start_time end_time]. repeat split; try assumption.
    constructor.
  - repeat constructor.
Qed.

Lemma split_clip_conserves_time_witness :
  let clips := [Samples.clip (Some 201) 0%Q 10%Q;
                Samples.clip (Some 202) 10%Q 12%Q] in
  let new1 := Clip_init (Some 1) 0%Q 4%Q in
  let new2 := Clip_init (Some 1) 4%Q 10%Q in
  let clips' := [Samples.clip (Some 202) 10%Q 12%Q; new1; new2] in
  positive new1 /\ positive new2 /\ end_time new1 = start_time new2 /\
  (total_span clips' == total_span clips)%Q /\
  (Forall positive clips -> Forall positive clips') /\
  Forall unsaved [new1; new2].
Proof.
  intros clips new1 new2 clips'.
  exact (split_clip_conserves_time clips 201 4%Q new1 new2 clips' eq_refl).
Defined.

(** *** Cases of the merge properties *)

Lemma merge_clips_merges_witness :
  let clips := [Samples.clip (Some 101) 0%Q 5%Q;
                Samples.clip (Some 102) 5%Q 10%Q] in
  let ids := [101; 102] in
  exists start end_,
    let merged := Clip_init (Some 1) start end_ in
    let named c := clip_id c ∈ Some <$> ids in
    merge_clips clips ids
    = (Ok merged, filter (fun c => ~ named c) clips ++ [merged]) /\
    (exists c, c ∈ clips /\ named c /\ start_time c = start) /\
    (forall c, c ∈ clips -> named c -> (start <= start_time c)%Q) /\
    (exists c, c ∈ clips /\ named c /\ end_time c = end_) /\
    (forall c, c ∈ clips -> named c -> (end_time c <= end_)%Q) /\
    (length (merge_clips clips ids).2 + length ids = S (length clips))%nat.
Proof.
  intros clips ids.
  apply (merge_clips_merges clips ids (Some 1)).
  - apply (bool_decide_unpack _). vm_compute. exact I.
  - discriminate.
  - repeat constructor; lia.
  - intros cid Hcid.
    apply elem_of_cons in Hcid as [->|Hcid];
      [exists (Samples.clip (Some 101) 0%Q 5%Q)|
       apply list_elem_of_singleton in Hcid as ->;
       exists (Samples.clip (Some 102) 5%Q 10%Q)];
      (split; [|split; reflexivity]).
    + apply list_elem_of_here.
    + apply list_elem_of_further, list_elem_of_here.
Defined.

Lemma merge_clips_rejects_witness :
  let clips := [Samples.clip (Some 101) 0%Q 5%Q;
                Samples.clip (Some 102) 5%Q 10%Q] in
  (is_value_error (merge_clips clips [102; 101]).1 /\
   (merge_clips clips [102; 101]).2 = clips) /\
  (is_value_error (merge_clips clips [101; 103]).1 /\
   (merge_clips clips [101; 103]).2 = clips).
Proof.
  intros clips.
  assert (Hnd : NoDup (clip_id <$> clips))
    by (apply (bool_decide_unpack _); vm_compute; exact I).
  split.
  - apply (merge_clips_rejects clips [102; 101] Hnd).
    right. left. intros Hs. inversion Hs as [|? ? _ Hhd]; subst.
    inversion Hhd; subst. lia.
  - apply (merge_clips_rejects clips [101; 103] Hnd).
    right. right. left. exists 103.
    split; [apply list_elem_of_further, list_elem_of_here|].
    apply (bool_decide_unpack _). vm_compute. exact I.
Defined.

Lemma merge_clips_repeated_id_witness :
  let clips := [Samples.clip (Some 101) 0%Q 5%Q;
                Samples.clip (Some 102) 5%Q 10%Q] in
  let ids := [101; 101] in
  (merge_clips clips ids).1
  = Raise (ValueError "list.remove(x): x not in list") /\
  (length (merge_clips clips ids).2 < length clips)%nat.
Proof.
  intros clips ids.
  apply (merge_clips_repeated_id clips ids (Some 1)).
  - apply (bool_decide_unpack _). vm_compute. exact I.
  - repeat constructor; lia.
  - apply (bool_decide_unpack _). vm_compute. exact I.
  - intros cid Hcid. exists (Samples.clip (Some 101) 0%Q 5%Q).
    assert (cid = 101) as ->.
    { apply elem_of_cons in Hcid as [->|Hcid]; [reflexivity|].
      now apply list_elem_of_singleton in Hcid. }
    split; [apply list_elem_of_here|split; reflexivity].
Defined.

End EditingMore.

(** ** The ROI store: construction, adding and removing *)

Section RoiStoreMore.

Import ConfigManager OcrProcessor OcrProcessor.ROIManager Regions.

Lemma ROI_init_sized (r : ROI) :
  sized r ->
  ROI_init (x r) (y r) (ConfigManager.width r) (ConfigManager.height r) = Ok r.
Proof.
  intros [Hw Hh]. unfold ROI_init.
  destruct (ConfigManager.width r <=? 0) eqn:Ew; [lia|].
  destruct (ConfigManager.height r <=? 0) eqn:Eh; [lia|].
  now destruct r.
Qed.

Lemma ROI_init_not_sized (r : ROI) :
  ~ sized r ->
  is_value_error
    (ROI_init (x r) (y r) (ConfigManager.width r) (ConfigManager.height r)).
Proof.
  intros Hn. unfold ROI_init, sized in *.
  destruct (ConfigManager.width r <=? 0) eqn:Ew; [exact I|].
  destruct (ConfigManager.height r <=? 0) eqn:Eh; [exact I|]. lia.
Qed.

Lemma sized_dec (r : ROI) : {sized r} + {~ sized r}.
Proof. unfold sized. exact (decide _). Qed.

Lemma copy_rois_spec (rs : list ROI) :
  (Forall sized rs -> copy_rois rs = Ok rs) /\
  (~ Forall sized rs -> is_value_error (copy_rois rs)).
Proof.
  induction rs as [|r rs [IHok IHbad]]; cbn [copy_rois].
  - split; [reflexivity|]. intros H. exfalso. apply H. constructor.
  - destruct (sized_dec r) as [Hr|Hr].
    + rewrite (ROI_init_sized r Hr). split.
      * intros H. apply Forall_cons in H as [_ H]. now rewrite (IHok H).
      * intros H.
        assert (Hrs : ~ Forall sized rs)
          by (intros Hrs; apply H; now constructor).
        specialize (IHbad Hrs).
        destruct (copy_rois rs) as [l|[]]; try contradiction. exact I.
    + pose proof (ROI_init_not_sized r Hr) as Hbad. split.
      * intros H. apply Forall_cons in H as [H _]. contradiction.
      * intros _. destruct (ROI_init _ _ _ _) as [r'|[]]; try contradiction.
        exact I.
Qed.

(** X14. [ROIManager(initial_rois)] with ROIs of positive width and height
    (none, or no argument, gives an empty store): the store holds the given
    ROIs in a list object of its own, so that whatever the caller does to the
    list it passed, the store still holds them.  If some given ROI has a
    width or height that is not positive, the construction raises
    [ValueError] and nothing is allocated. *)
Theorem roi_manager_init (initial : option (list ROI)) (h : heap) :
  let given := default [] initial in
  (Forall sized given ->
   exists self,
     init initial h = (Ok self, h ++ [given]) /\
     h !! rois self = None /\
     (h ++ [given]) !! rois self = Some given /\
     forall (q : loc) (fs : list (list ROI -> list ROI)),
       is_Some (h !! q) ->
       mutations q fs (h ++ [given]) !! rois self = Some given) /\
  (~ Forall sized given ->
   is_value_error (init initial h).1 /\ (init initial h).2 = h).
Proof.
  intros given.
  assert (Hcopy : init initial h
                  = match copy_rois given with
                    | Raise e => (Raise e, h)
                    | Ok l => (Ok {| rois := length h |}, h ++ [l])
                    end).
  { unfold init, given. destruct initial as [[|r rs]|]; reflexivity. }
  rewrite Hcopy. destruct (copy_rois_spec given) as [Hok Hbad]. split.
  - intros Hs. rewrite (Hok Hs). exists {| rois := length h |}.
    destruct (alloc_fresh h given) as (Hnew & Hp & _). unfold alloc in *.
    cbn [fst snd rois] in *.
    split; [reflexivity|]. split; [exact Hnew|]. split; [exact Hp|].
    intros q fs [l Hq]. rewrite mutations_other; [exact Hp|].
    apply lookup_lt_Some in Hq. lia.
  - intros Hn. specialize (Hbad Hn).
    destruct (copy_rois given) as [l|e]; [contradiction|].
    split; [exact Hbad|reflexivity].
Qed.

(** X15. Adding an ROI and removing the last one again leaves the store as
    it was: after [add_roi(roi)] with an ROI the store accepts, the ROI is
    the last of the stored list, and [remove_roi(-1)], like [remove_roi(n)]
    for a store that held [n] ROIs before, gives back the former heap. *)
Theorem add_roi_then_remove_last (self : ROIManager.t) (h : heap)
    (stored : list ROI) (roi : ROI) :
  h !! rois self = Some stored ->
  0 <= x roi -> 0 <= y roi -> sized roi ->
  let h1 := (add_roi self roi h).2 in
  (add_roi self roi h).1 = Ok () /\
  h1 !! rois self = Some (stored ++ [roi]) /\
  remove_roi self (-1) h1 = (Ok (), h) /\
  remove_roi self (Z.of_nat (length stored)) h1 = (Ok (), h).
Proof.
  intros Hst Hx Hy [Hw Hh]. unfold add_roi.
  destruct (ConfigManager.width roi <=? 0) eqn:Ew; [lia|].
  destruct (ConfigManager.height roi <=? 0) eqn:Eh; [lia|].
  destruct (x roi <? 0) eqn:Ex; [lia|].
  destruct (y roi <? 0) eqn:Ey; [lia|].
  cbn [orb fst snd]. cbv zeta.
  rewrite (heap_alter_insert _ _ _ _ Hst).
  assert (Hlt : (rois self < length h)%nat) by (eapply lookup_lt_Some; eauto).
  assert (Hnew : <[rois self := stored ++ [roi]]> h !! rois self
                 = Some (stored ++ [roi]))
    by (now apply list_lookup_insert_eq).
  assert (Hback : <[rois self := stored]>
                    (<[rois self := stored ++ [roi]]> h) = h)
    by (now rewrite list_insert_insert_eq, list_insert_id).
  split; [reflexivity|]. split; [exact Hnew|].
  unfold remove_roi. rewrite Hnew. cbn [from_option id].
  assert (Hlen : length (stored ++ [roi]) = S (length stored))
    by (rewrite length_app; cbn; lia).
  split.
  - rewrite delitem_in_range by (rewrite length_app; cbn [length]; lia).
    cbn [Z.ltb Z.compare]. rewrite Hlen.
    replace (Z.to_nat (-1 + Z.of_nat (S (length stored))))
      with (length stored + 0)%nat by lia.
    change (stored ++ [roi]) with (stored ++ roi :: []).
    rewrite Nat.add_0_r, delete_middle, app_nil_r. now rewrite Hback.
  - rewrite delitem_in_range by (rewrite length_app; cbn [length]; lia).
    destruct (Z.of_nat (length stored) <? 0) eqn:En; [lia|].
    rewrite Nat2Z.id. change (stored ++ [roi]) with (stored ++ roi :: []).
    rewrite delete_middle, app_nil_r. now rewrite Hback.
Qed.

Lemma add_roi_then_remove_last_witness :
  let stored := [Samples.roi 5 5 10 10] in
  let self := {| rois := 0%nat |} in
  let roi := Samples.roi 0 0 3 4 in
  let h := [stored] in
  let h1 := (add_roi self roi h).2 in
  (add_roi self roi h).1 = Ok () /\
  h1 !! rois self = Some (stored ++ [roi]) /\
  remove_roi self (-1) h1 = (Ok (), h) /\
  remove_roi self (Z.of_nat (length stored)) h1 = (Ok (), h).
Proof.
  intros stored self roi h.
  apply (add_roi_then_remove_last self h stored roi eq_refl);
    [cbn; lia|cbn; lia|split; reflexivity].
Defined.

End RoiStoreMore.

(** ** From a clip to its detections *)

Section Pipeline.

Import Np Ext VideoHandler VideoProcessor ConfigManager OcrProcessor.
Import Recognition Regions Sampling.

Lemma gather_length {A} (rs : list (result (list A))) (res : list A) (n : nat) :
  Forall (fun r => forall l, r = Ok l -> (length l <= n)%nat) rs ->
  gather rs = Ok res -> (length res <= length rs * n)%nat.
Proof.
  revert res. induction rs as [|[l|e] rs IH]; intros res Hrs; cbn [gather].
  - intros [= <-]. cbn. lia.
  - inversion Hrs as [|? ? Hl Hrs']; subst.
    destruct (gather rs) as [ls|e]; [|discriminate].
    intros [= <-]. rewrite length_app. specialize (IH ls Hrs' eq_refl).
    specialize (Hl l eq_refl). cbn [length]. lia.
  - discriminate.
Qed.

(** Where the detections of a batch come from. *)
Lemma batch_detections (w : world) (frame_batch : FrameBatch.t)
    (rois : list ROI) (thr : float) (res : list OCRResult.t) :
  (process_batch_for_ocr w frame_batch rois thr).1 = Ok res ->
  let cid := FrameBatch.clip_id frame_batch in
  Forall (fun d =>
            exists i frame,
              FrameBatch.frames frame_batch !! i = Some frame /\
              FrameBatch.timestamps frame_batch !! i
              = Some (OCRResult.timestamp d) /\
              sound frame (OCRResult.timestamp d) cid cid thr d /\
              OCRResult.roi d ∈ rois) res /\
  (length res
   <= Nat.min (length (FrameBatch.frames frame_batch))
        (length (FrameBatch.timestamps frame_batch)) * length rois)%nat.
Proof.
  unfold process_batch_for_ocr. destruct (negb _); [discriminate|].
  rewrite ocr_frames_gather. cbv zeta. cbn [fst].
  destruct (gather _) as [ls|e] eqn:G; [|discriminate].
  intros [= <-]. cbn [app]. unfold py_zip in G. split.
  - eapply gather_Forall; [|exact G].
    rewrite <- list_fmap_compose. apply Forall_fmap.
    apply Forall_lookup. intros i [frame ts] Hi l Hl.
    apply lookup_zip_with_Some in Hi as (f & t & [= -> ->] & Hf & Ht).
    cbn [compose fst snd] in Hl. unfold process_frame_for_ocr in Hl.
    destruct (negb _); [discriminate|].
    apply ocr_rois_sound in Hl as (new & -> & Hs & Hsub). cbn [app].
    apply Forall_forall. intros d Hd. exists i, f.
    rewrite Forall_forall in Hs. pose proof (Hs d Hd) as Hsound.
    assert (Hts : OCRResult.timestamp d = t) by apply Hsound.
    rewrite Hts. split; [exact Hf|]. split; [exact Ht|].
    split; [exact Hsound|].
    eapply elem_of_sublist; [|exact Hsub]. apply list_elem_of_fmap. eauto.
  - rewrite <- (length_zip_with pair).
    rewrite <- (length_fmap (fun p : ndarray * float =>
                  process_frame_for_ocr w p.1 p.2
                    (FrameBatch.clip_id frame_batch)
                    (FrameBatch.clip_id frame_batch) rois thr)).
    rewrite <- (length_fmap fst). eapply gather_length; [|exact G].
    rewrite <- list_fmap_compose. apply Forall_fmap.
    apply Forall_forall. intros [frame ts] _ l Hl.
    cbn [compose fst snd] in Hl. unfold process_frame_for_ocr in Hl.
    destruct (negb _); [discriminate|].
    apply ocr_rois_sound in Hl as (new & -> & _ & Hsub). cbn [app].
    apply sublist_length in Hsub. now rewrite length_fmap in Hsub.
Qed.

Lemma zip_take {A B} (l : list A) (k : list B) :
  zip (take (length k) l) (take (length l) k) = zip l k.
Proof.
  revert k. induction l as [|a l IH]; intros [|b k]; try reflexivity.
  cbn [zip zip_with length take]. f_equal. apply IH.
Qed.

(** X16. Every detection [process_batch_for_ocr] returns comes from a frame
    of the batch: it has the timestamp stored at that frame's position, an
    ROI of the given list that lies within that frame, a text that is not
    empty, a confidence between the threshold and 1.0, and the batch's clip
    id in both identity fields.  Frames or timestamps beyond the shorter of
    the two lists are never looked at, so there are at most
    [min(len(frames), len(timestamps)) * len(rois)] detections. *)
Theorem process_batch_detections (w : world) (frame_batch : FrameBatch.t)
    (rois : list ROI) (confidence_threshold : float)
    (res : list OCRResult.t) :
  (process_batch_for_ocr w frame_batch rois confidence_threshold).1 = Ok res ->
  let cid := FrameBatch.clip_id frame_batch in
  Forall (fun d =>
            exists i frame,
              FrameBatch.frames frame_batch !! i = Some frame /\
              FrameBatch.timestamps frame_batch !! i
              = Some (OCRResult.timestamp d) /\
              sound frame (OCRResult.timestamp d) cid cid
                confidence_threshold d /\
              OCRResult.roi d ∈ rois) res /\
  (length res
   <= Nat.min (length (FrameBatch.frames frame_batch))
        (length (FrameBatch.timestamps frame_batch)) * length rois)%nat /\
  (process_batch_for_ocr w frame_batch rois confidence_threshold).1
  = (process_batch_for_ocr w
       {| FrameBatch.clip_id := cid;
          FrameBatch.frames :=
            take (length (FrameBatch.timestamps frame_batch))
              (FrameBatch.frames frame_batch);
          FrameBatch.timestamps :=
            take (length (FrameBatch.frames frame_batch))
              (FrameBatch.timestamps frame_batch) |}
       rois confidence_threshold).1.
Proof.
  intros Hres cid.
  destruct (batch_detections w frame_batch rois confidence_threshold res Hres)
    as [Hall Hlen].
  split; [exact Hall|]. split; [exact Hlen|].
  unfold process_batch_for_ocr. destruct (negb _); [reflexivity|].
  cbn [FrameBatch.clip_id FrameBatch.frames FrameBatch.timestamps].
  unfold py_zip. now rewrite zip_take.
Qed.

Lemma process_batch_detections_witness :
  let w := Samples.world_of 0 Samples.hello_world in
  let frame_batch :=
    {| FrameBatch.clip_id := 9;
       FrameBatch.frames := [Samples.black 10 10; Samples.black 10 10];
       FrameBatch.timestamps := [0.5%Q] |} in
  let rois := [Samples.roi 0 0 5 5] in
  let res := [ {| OCRResult.video_id := 9; OCRResult.clip_id := 9;
                  OCRResult.timestamp := 0.5%Q; OCRResult.text := "HelloWorld";
                  OCRResult.confidence := overall_confidence
                                            [(85 / 100)%Q; (90 / 100)%Q];
                  OCRResult.roi := Samples.roi 0 0 5 5 |} ] in
  Forall (fun d =>
            exists i frame,
              FrameBatch.frames frame_batch !! i = Some frame /\
              FrameBatch.timestamps frame_batch !! i
              = Some (OCRResult.timestamp d) /\
              sound frame (OCRResult.timestamp d) 9 9 0.5%Q d /\
              OCRResult.roi d ∈ rois) res /\
  (length res <= Nat.min 2 1 * 1)%nat /\
  (process_batch_for_ocr w frame_batch rois 0.5%Q).1
  = (process_batch_for_ocr w
       {| FrameBatch.clip_id := 9;
          FrameBatch.frames := [Samples.black 10 10];
          FrameBatch.timestamps := [0.5%Q] |}
       rois 0.5%Q).1.
Proof.
  intros w frame_batch rois res.
  exact (process_batch_detections w frame_batch rois 0.5%Q res eq_refl).
Defined.

(** *** Sampling, then recognition *)




(** *** A confidence above the scale *)

Lemma process_frame_region_above_scale_witness :
  let pairs := [("Hi"%string, 250%Q)] in
  let w := Samples.world_of 0 (reply_of pairs) in
  is_value_error
    (process_frame_for_ocr w (Samples.black 10 10) 0%Q 1 1
       [Samples.roi 0 0 5 5] 0.5%Q).1.
Proof.
  intros pairs w.
  refine (process_frame_region_above_scale w (Samples.black 10 10) 0%Q 1 1
            (Samples.roi 0 0 5 5) 0.5%Q pairs _ _ _ eq_refl _ _).
  - split; discriminate.
  - unfold within. cbn. lia.
  - discriminate.
  - discriminate.
  - reflexivity.
Defined.

End Pipeline.

(** ** [ROI] and its dictionary *)

Section RoiDict.

Import ConfigManager OcrProcessor Regions Settings.

Lemma to_dict_lookup (r : ROI) :
  to_dict r !! "x" = Some (VInt (x r)) /\
  to_dict r !! "y" = Some (VInt (y r)) /\
  to_dict r !! "width" = Some (VInt (ConfigManager.width r)) /\
  to_dict r !! "height" = Some (VInt (ConfigManager.height r)).
Proof. repeat split. Qed.

(** What [from_dict] does once the four keys hold integers. *)
Lemma from_dict_ints (d : gmap string pyval) (vx vy vw vh : pyval) :
  d !! "x" = Some vx -> d !! "y" = Some vy ->
  d !! "width" = Some vw -> d !! "height" = Some vh ->
  is_int vx = true -> is_int vy = true ->
  is_int vw = true -> is_int vh = true ->
  from_dict d = ROI_init (int_of vx) (int_of vy) (int_of vw) (int_of vh).
Proof.
  intros Hx Hy Hw Hh Ix Iy Iw Ih. unfold from_dict. cbn [check_keys].
  rewrite Hx, Hy, Hw, Hh, Ix, Iy, Iw, Ih. cbn [negb]. cbv zeta.
  rewrite !lookup_total_alt, Hx, Hy, Hw, Hh. cbn [default from_option id].
  unfold ROI_new, ROI_init. cbn [forallb]. rewrite Ix, Iy, Iw, Ih. cbn [andb negb].
  now destruct ((int_of vw <=? 0) || (int_of vh <=? 0)).
Qed.

Lemma from_dict_Ok (d : gmap string pyval) (r : ROI) :
  from_dict d = Ok r ->
  exists vx vy vw vh,
    d !! "x" = Some vx /\ d !! "y" = Some vy /\
    d !! "width" = Some vw /\ d !! "height" = Some vh /\
    is_int vx = true /\ is_int vy = true /\
    is_int vw = true /\ is_int vh = true /\
    r = {| x := int_of vx; y := int_of vy;
           width := int_of vw; height := int_of vh |} /\
    sized r.
Proof.
  intros Hok. pose proof Hok as Hrun. unfold from_dict in Hrun.
  cbn [check_keys] in Hrun.
  destruct (d !! "x") as [vx|] eqn:Hx; [|discriminate].
  destruct (is_int vx) eqn:Ix; [|discriminate]. cbn [negb] in Hrun.
  destruct (d !! "y") as [vy|] eqn:Hy; [|discriminate].
  destruct (is_int vy) eqn:Iy; [|discriminate]. cbn [negb] in Hrun.
  destruct (d !! "width") as [vw|] eqn:Hw; [|discriminate].
  destruct (is_int vw) eqn:Iw; [|discriminate]. cbn [negb] in Hrun.
  destruct (d !! "height") as [vh|] eqn:Hh; [|discriminate].
  destruct (is_int vh) eqn:Ih; [|discriminate]. clear Hrun.
  rewrite (from_dict_ints d vx vy vw vh) in Hok by assumption.
  unfold ROI_init in Hok.
  destruct (int_of vw <=? 0) eqn:Ew; [discriminate|].
  destruct (int_of vh <=? 0) eqn:Eh; [discriminate|].
  injection Hok as <-. exists vx, vy, vw, vh.
  repeat split; try assumption;
    cbn [ConfigManager.width ConfigManager.height]; lia.
Qed.

Lemma roi_dict_round_trip_parts (r : ROI) :
  (sized r -> from_dict (to_dict r) = Ok r) /\
  (~ sized r ->
   exists msg, from_dict (to_dict r) = Raise (ValueError msg)).
Proof.
  destruct (to_dict_lookup r) as (Hx & Hy & Hw & Hh).
  pose proof (from_dict_ints (to_dict r) _ _ _ _ Hx Hy Hw Hh
                eq_refl eq_refl eq_refl eq_refl) as Hrun.
  cbn [int_of] in Hrun. rewrite Hrun. split; [apply ROI_init_sized|].
  intros Hn. unfold ROI_init, sized in *.
  destruct (ConfigManager.width r <=? 0) eqn:Ew; [eauto|].
  destruct (ConfigManager.height r <=? 0) eqn:Eh; [eauto|]. lia.
Qed.

(** X18. [ROI.from_dict] undoes [to_dict]: for an ROI of positive width and
    height, [from_dict(roi.to_dict())] is the ROI again; for any other ROI it
    raises [ValueError].  In the other direction, a dictionary [from_dict]
    accepts holds, under the four keys, integers equal to those
    [to_dict] gives for the ROI made, whatever other keys it has; and that
    ROI has positive width and height. *)
Theorem roi_dict_round_trip (r : ROI) :
  (sized r -> from_dict (to_dict r) = Ok r) /\
  (~ sized r -> is_value_error (from_dict (to_dict r))) /\
  (forall d r',
     from_dict d = Ok r' ->
     sized r' /\
     forall key, key ∈ roi_keys ->
       exists v, d !! key = Some v /\ is_int v = true /\
                 to_dict r' !! key = Some (VInt (int_of v))).
Proof.
  destruct (to_dict_lookup r) as (Hx & Hy & Hw & Hh).
  pose proof (from_dict_ints (to_dict r) _ _ _ _ Hx Hy Hw Hh
                eq_refl eq_refl eq_refl eq_refl) as Hrun.
  cbn [int_of] in Hrun. rewrite Hrun. split; [|split].
  - apply ROI_init_sized.
  - apply ROI_init_not_sized.
  - intros d r' Hok.
    apply from_dict_Ok in Hok
      as (vx & vy & vw & vh & Dx & Dy & Dw & Dh & Ix & Iy & Iw & Ih & -> & Hs).
    split; [exact Hs|]. intros key Hkey. unfold roi_keys in Hkey.
    repeat (apply elem_of_cons in Hkey as [->|Hkey]);
      [exists vx|exists vy|exists vw|exists vh|now apply elem_of_nil in Hkey];
      repeat split; assumption.
Qed.

Lemma check_keys_first_bad (d : gmap string pyval) (before after : list string)
    (key : string) :
  Forall (fun k => exists v, d !! k = Some v /\ is_int v = true) before ->
  check_keys d (before ++ key :: after)
  = match d !! key with
    | None =>
        Raise (ValueError ("ROI dictionary missing required key "
                             ++ quoted key ++ "."))
    | Some v =>
        if negb (is_int v) then
          Raise (ValueError ("ROI field " ++ quoted key
                               ++ " must be an integer."))
        else check_keys d after
    end.
Proof.
  induction 1 as [|k before (v & Hk & Hv) _ IH]; [reflexivity|].
  cbn [app check_keys]. now rewrite Hk, Hv.
Qed.

(** X19. What [ROI.from_dict] rejects.  The keys are checked in the order
    x, y, width, height, and the first one that is missing or does not hold
    an [int] decides the message: [ROI dictionary missing required key] or
    [ROI field ... must be an integer], each naming that key.  A dictionary
    with four integers of which the width or the height is not positive is
    rejected with [ROI width and height must be positive integers.] *)
Theorem from_dict_rejects (d : gmap string pyval) :
  (forall before key after,
     roi_keys = before ++ key :: after ->
     Forall (fun k => exists v, d !! k = Some v /\ is_int v = true) before ->
     (d !! key = None ->
      from_dict d
      = Raise (ValueError ("ROI dictionary missing required key "
                             ++ quoted key ++ "."))) /\
     (forall v, d !! key = Some v -> is_int v = false ->
        from_dict d
        = Raise (ValueError ("ROI field " ++ quoted key
                               ++ " must be an integer.")))) /\
  (Forall (fun k => exists v, d !! k = Some v /\ is_int v = true) roi_keys ->
   int_of (d !!! "width") <= 0 \/ int_of (d !!! "height") <= 0 ->
   from_dict d
   = Raise (ValueError "ROI width and height must be positive integers.")).
Proof.
  split.
  - intros before key after Hkeys Hbefore. unfold from_dict.
    change ["x"; "y"; "width"; "height"] with roi_keys. rewrite Hkeys.
    rewrite (check_keys_first_bad d before after key Hbefore). split.
    + now intros ->.
    + intros v -> ->. reflexivity.
  - intros Hall Hbad. unfold roi_keys in Hall.
    apply Forall_cons in Hall as [(vx & Dx & Ix) Hall].
    apply Forall_cons in Hall as [(vy & Dy & Iy) Hall].
    apply Forall_cons in Hall as [(vw & Dw & Iw) Hall].
    apply Forall_cons in Hall as [(vh & Dh & Ih) _].
    rewrite !lookup_total_alt, Dw, Dh in Hbad. cbn [default from_option id] in Hbad.
    rewrite (from_dict_ints d vx vy vw vh) by assumption.
    unfold ROI_init.
    destruct (int_of vw <=? 0) eqn:Ew; [reflexivity|].
    destruct (int_of vh <=? 0) eqn:Eh; [reflexivity|]. lia.
Qed.

(** X20. The [ROI] constructor and the ROI store check different things.
    On arguments that are all [int] instances the constructor raises
    [ValueError] exactly when the width or the height is not positive, and
    accepts any corner; on any other arguments it raises [ValueError].  An
    ROI it has made is accepted by [add_roi] exactly when neither
    coordinate of its corner is negative. *)
Theorem roi_constructor_and_store (vx vy vw vh : pyval) :
  (forallb is_int [vx; vy; vw; vh] = false ->
   ROI_new vx vy vw vh
   = Raise (ValueError "ROI coordinates and dimensions must be integers.")) /\
  (forallb is_int [vx; vy; vw; vh] = true ->
   (0 < int_of vw /\ 0 < int_of vh ->
    ROI_new vx vy vw vh
    = Ok {| x := int_of vx; y := int_of vy;
            width := int_of vw; height := int_of vh |}) /\
   (~ (0 < int_of vw /\ 0 < int_of vh) ->
    ROI_new vx vy vw vh
    = Raise (ValueError "ROI width and height must be positive integers."))) /\
  (forall r (self : ROIManager.t) (h : heap) (stored : list ROI),
     ROI_new vx vy vw vh = Ok r ->
     h !! ROIManager.rois self = Some stored ->
     ((ROIManager.add_roi self r h).1 = Ok () <-> 0 <= x r /\ 0 <= y r)).
Proof.
  split; [|split].
  - intros Hb. unfold ROI_new. now rewrite Hb.
  - intros Hb. unfold ROI_new, ROI_init. rewrite Hb. cbn [negb]. split.
    + intros [Hw Hh].
      destruct (int_of vw <=? 0) eqn:Ew; [lia|].
      destruct (int_of vh <=? 0) eqn:Eh; [lia|]. reflexivity.
    + intros Hn.
      destruct (int_of vw <=? 0) eqn:Ew; [reflexivity|].
      destruct (int_of vh <=? 0) eqn:Eh; [reflexivity|]. lia.
  - intros r self h stored Hnew _. unfold ROI_new, ROI_init in Hnew.
    destruct (negb _); [discriminate|].
    destruct (int_of vw <=? 0) eqn:Ew; [discriminate|].
    destruct (int_of vh <=? 0) eqn:Eh; [discriminate|].
    injection Hnew as <-. unfold ROIManager.add_roi.
    cbn [x y ConfigManager.width ConfigManager.height]. rewrite Ew, Eh.
    cbn [orb].
    destruct (int_of vx <? 0) eqn:Ex; [cbn; split; [discriminate|lia]|].
    destruct (int_of vy <? 0) eqn:Ey; [cbn; split; [discriminate|lia]|].
    cbn. split; [lia|reflexivity].
Qed.

End RoiDict.

(** ** [AppConfig]: loading, saving, setting *)

Section AppConfigMore.

Import ConfigManager ConfigManager.AppConfig Regions Settings.

Lemma contains_lookup (m : gmap string pyval) (key : string) (v : pyval) :
  m !! key = Some v -> contains (VDict m) key = Return true.
Proof.
  intros H. cbn [contains]. rewrite bool_decide_eq_true_2; [reflexivity|].
  rewrite H. eauto.
Qed.

Lemma getitem_lookup (m : gmap string pyval) (key : string) (v : pyval) :
  m !! key = Some v -> getitem (VDict m) key = Return v.
Proof. intros H. cbn [getitem]. now rewrite H. Qed.


Lemma format_ok_checks (fmt : string) :
  format_ok fmt <->
  String.eqb (strip fmt) "" = false /\ String.eqb (lower fmt) fmt = true /\
  starts_with_dot fmt = false.
Proof.
  unfold format_ok. rewrite String.eqb_neq, String.eqb_eq. reflexivity.
Qed.

Lemma format_ok_dec (fmt : string) : {format_ok fmt} + {~ format_ok fmt}.
Proof.
  destruct (String.eqb (strip fmt) "") eqn:E1;
    [right; intros H; apply format_ok_checks in H; destruct H; congruence|].
  destruct (String.eqb (lower fmt) fmt) eqn:E2;
    [|right; intros H; apply format_ok_checks in H; destruct H as (_ & ? & _);
      congruence].
  destruct (starts_with_dot fmt) eqn:E3;
    [right; intros H; apply format_ok_checks in H; destruct H as (_ & _ & ?);
     congruence|].
  left. apply format_ok_checks. auto.
Qed.

Lemma formats_ok_dec (fmts : list string) :
  {Forall format_ok fmts} + {~ Forall format_ok fmts}.
Proof.
  induction fmts as [|fmt fmts [IH|IH]].
  - left. constructor.
  - destruct (format_ok_dec fmt) as [Hf|Hf].
    + left. now constructor.
    + right. intros H. apply Forall_cons in H as [H _]. contradiction.
  - right. intros H. apply Forall_cons in H as [_ H]. contradiction.
Qed.

(** *** The two loops of [load] *)


Lemma load_rois_written (rois : list ROI) :
  forall idx acc,
    (Forall sized rois ->
     load_rois ((fun roi => VDict (to_dict roi)) <$> rois) idx acc
     = Return (acc ++ rois)) /\
    (~ Forall sized rois ->
     exists msg,
       load_rois ((fun roi => VDict (to_dict roi)) <$> rois) idx acc
       = Throw (Builtin (ValueError msg))).
Proof.
  induction rois as [|r rois IH]; intros idx acc.
  - split; [intros _; cbn; now rewrite app_nil_r|].
    intros H. exfalso. apply H. constructor.
  - rewrite fmap_cons. cbn [load_rois].
    destruct (roi_dict_round_trip_parts r) as [Hok Hbad].
    destruct (sized_dec r) as [Hr|Hr].
    + rewrite (Hok Hr).
      destruct (IH (S idx) (acc ++ [r])) as [IHok IHbad]. split.
      * intros H. apply Forall_cons in H as [_ H].
        rewrite (IHok H), <- app_assoc. reflexivity.
      * intros H. apply IHbad. intros Hrs. apply H. now constructor.
    + destruct (Hbad Hr) as [msg ->]. split.
      * intros H. apply Forall_cons in H as [H _]. contradiction.
      * intros _. eauto.
Qed.


Lemma load_formats_written (fmts : list string) :
  forall idx acc,
    (Forall format_ok fmts ->
     load_formats (VStr <$> fmts) idx acc = Return (acc ++ fmts)) /\
    (~ Forall format_ok fmts ->
     exists msg,
       load_formats (VStr <$> fmts) idx acc
       = Throw (Builtin (ValueError msg))).
Proof.
  induction fmts as [|fmt fmts IH]; intros idx acc.
  - split; [intros _; cbn; now rewrite app_nil_r|].
    intros H. exfalso. apply H. constructor.
  - rewrite fmap_cons. cbn [load_formats].
    destruct (format_ok_dec fmt) as [Hf|Hf].
    + pose proof (proj1 (format_ok_checks fmt) Hf) as (E1 & E2 & E3).
      rewrite E1, E2, E3. cbn [negb require bind].
      destruct (IH (S idx) (acc ++ [fmt])) as [IHok IHbad]. split.
      * intros H. apply Forall_cons in H as [_ H].
        rewrite (IHok H), <- app_assoc. reflexivity.
      * intros H. apply IHbad. intros Hrs. apply H. now constructor.
    + split.
      * intros H. apply Forall_cons in H as [H _]. contradiction.
      * intros _.
        destruct (String.eqb (strip fmt) "") eqn:E1; [cbn; eauto|].
        destruct (String.eqb (lower fmt) fmt) eqn:E2; [|cbn; eauto].
        destruct (starts_with_dot fmt) eqn:E3; [cbn; eauto|].
        exfalso. apply Hf. apply format_ok_checks. auto.
Qed.

(** *** Loading *)


(** What [load] reads back from a written configuration. *)
Lemma load_values_written (path : string) (d : disk) (c : AppConfig.t) :
  files d !! path = Some (Document (to_dump c)) ->
  (valid c ->
   load_values path d
   = Return (ocr_confidence_threshold c, frame_sampling_rate_fps c,
             default_rois c, supported_file_formats c)) /\
  (~ valid c ->
   exists msg, load_values path d = Throw (Builtin (ValueError msg))).
Proof.
  intros Hfile. unfold load_values. rewrite Hfile. unfold to_dump.
  set (m := <["ocr_confidence_threshold" := _]> _).
  assert (H1 : m !! "ocr_confidence_threshold"
               = Some (VFloat (ocr_confidence_threshold c))) by reflexivity.
  assert (H2 : m !! "frame_sampling_rate_fps"
               = Some (VFloat (frame_sampling_rate_fps c))) by reflexivity.
  assert (H3 : m !! "default_rois"
               = Some (VList ((fun roi => VDict (to_dict roi))
                                <$> default_rois c))) by reflexivity.
  assert (H4 : m !! "supported_file_formats"
               = Some (VList (VStr <$> supported_file_formats c)))
    by reflexivity.
  clearbody m.
  rewrite (contains_lookup _ _ _ H1), (getitem_lookup _ _ _ H1).
  rewrite (contains_lookup _ _ _ H2), (getitem_lookup _ _ _ H2).
  rewrite (contains_lookup _ _ _ H3), (getitem_lookup _ _ _ H3).
  rewrite (contains_lookup _ _ _ H4), (getitem_lookup _ _ _ H4).
  cbn [bind require is_number float_of]. cbv zeta.
  destruct (load_rois_written (default_rois c) 0 []) as [Rok Rbad].
  destruct (load_formats_written (supported_file_formats c) 0 [])
    as [Fok Fbad].
  unfold valid.
  destruct (fle 0%Q (ocr_confidence_threshold c)) eqn:R0;
    [|split; [intros (H & _); apply fle_spec in H; congruence|cbn; eauto]].
  destruct (fle (ocr_confidence_threshold c) 1%Q) eqn:R1;
    [|split; [intros (_ & H & _); apply fle_spec in H; congruence|cbn; eauto]].
  cbn [andb require bind].
  destruct (fle (frame_sampling_rate_fps c) 0%Q) eqn:R2;
    [split; [intros (_ & _ & H & _); apply fle_false in H; congruence
            |cbn; eauto]|].
  cbn [negb require bind].
  apply fle_spec in R0, R1. apply fle_false in R2.
  destruct (decide (Forall sized (default_rois c))) as [Hr|Hr];
    [rewrite (Rok Hr)
    |destruct (Rbad Hr) as [msg ->];
     split; [intros (_ & _ & _ & H & _); contradiction|cbn; eauto]].
  cbn [bind app].
  destruct (formats_ok_dec (supported_file_formats c))
    as [Hf|Hf];
    [rewrite (Fok Hf)
    |destruct (Fbad Hf) as [msg ->];
     split; [intros (_ & _ & _ & _ & H); contradiction|cbn; eauto]].
  cbn [bind app]. split; [reflexivity|].
  intros Hn. exfalso. apply Hn. repeat split; assumption.
Qed.

(** Once the file is found, no step raises [FileNotFoundError]. *)
Lemma found_bind {A B} (m : outcome A) (k : A -> outcome B) :
  (forall msg, m <> Throw (FileNotFoundError msg)) ->
  (forall a msg, k a <> Throw (FileNotFoundError msg)) ->
  forall msg, bind m k <> Throw (FileNotFoundError msg).
Proof.
  intros Hm Hk msg. destruct m as [a|e]; cbn [bind]; [apply Hk|].
  intros [= ->]. now apply (Hm msg).
Qed.

Lemma found_require (ok : bool) (text msg : string) :
  require ok text <> Throw (FileNotFoundError msg).
Proof. now destruct ok. Qed.

Lemma found_contains (data : pyval) (key msg : string) :
  contains data key <> Throw (FileNotFoundError msg).
Proof. now destruct data. Qed.

Lemma found_getitem (data : pyval) (key msg : string) :
  getitem data key <> Throw (FileNotFoundError msg).
Proof.
  destruct data as [| | | | | |m|]; try discriminate.
  cbn [getitem]. now destruct (m !! key).
Qed.

Lemma found_load_rois (items : list pyval) :
  forall idx acc msg,
    load_rois items idx acc <> Throw (FileNotFoundError msg).
Proof.
  induction items as [|item items IH]; intros idx acc msg; cbn [load_rois];
    [discriminate|].
  destruct item; try discriminate.
  destruct (from_dict d); [apply IH|discriminate].
Qed.

Lemma found_load_formats (items : list pyval) :
  forall idx acc msg,
    load_formats items idx acc <> Throw (FileNotFoundError msg).
Proof.
  induction items as [|item items IH]; intros idx acc msg;
    cbn [load_formats]; [discriminate|].
  destruct item; try discriminate. revert msg.
  repeat (apply found_bind; [intros ?; apply found_require|intros _]).
  apply IH.
Qed.

Lemma load_document_found (path : string) (d : disk) (data : pyval)
    (msg : string) :
  files d !! path = Some (Document data) ->
  load_values path d <> Throw (FileNotFoundError msg).
Proof.
  intros Hfile. unfold load_values. rewrite Hfile. revert msg.
  repeat first
    [ apply found_bind;
      [ first [ intros ?; apply found_contains
              | intros ?; apply found_require
              | intros ?; apply found_getitem
              | intros ?; apply found_load_rois
              | intros ?; apply found_load_formats
              | intros ?; match goal with |- context [match ?v with _ => _ end] =>
                            now destruct v end ]
      | intros ? ]
    | cbv zeta ].
  intros msg. discriminate.
Qed.


(** *** Saving and loading again *)



(** *** The setters *)





(** *** Construction *)

(** X24. [AppConfig(path)].  When the path does not exist and can be
    written, the instance holds the defaults (threshold 0.75, rate 1.0, the
    ROIs (10, 10, 200, 50) and (10, 300, 200, 50), the formats mp4, avi,
    mov, mkv), which are valid, and the file at the path now holds their
    document; constructing again from that disk gives the same instance and
    writes nothing.  When the path does not exist and cannot be written,
    the construction raises the error of [save].  When the path exists, the
    disk is left as it is and the outcome is that of [load]. *)
Theorem init_defaults_and_existing (path : string) (d : disk) :
  let defaults :=
    {| config_path := path;
       ocr_confidence_threshold := 0.75%Q;
       frame_sampling_rate_fps := 1.0%Q;
       default_rois := [ {| x := 10; y := 10; width := 200; height := 50 |};
                         {| x := 10; y := 300; width := 200; height := 50 |} ];
       supported_file_formats := ["mp4"; "avi"; "mov"; "mkv"] |} in
  (files d !! path = None ->
   valid defaults /\
   (write_error d path = None ->
    let d' := (init path d).2 in
    init path d
    = (Return defaults,
       {| files := <[path := Document (to_dump defaults)]> (files d);
          write_error := write_error d |}) /\
    init path d' = (Return defaults, d')) /\
   (forall e, write_error d path = Some e ->
      init path d
      = (Throw (OSError ("Failed to write configuration to disk: " ++ e)),
         d))) /\
  (is_Some (files d !! path) ->
   (init path d).2 = d /\
   forall self, config_path self = path ->
     match (init path d).1 with
     | Return c => load self d = (Return tt, c)
     | Throw e => load self d = (Throw e, self)
     end).
Proof.
  intros defaults.
  assert (Hv : valid defaults).
  { unfold valid, defaults. cbn. split; [discriminate|]. split; [discriminate|].
    split; [reflexivity|]. split.
    - repeat constructor.
    - repeat constructor; discriminate. }
  split.
  - intros Hnone. split; [exact Hv|].
    assert (Hinit : init path d
                    = match save defaults d with
                      | (Return _, d') => (Return defaults, d')
                      | (Throw e, d') => (Throw e, d')
                      end).
    { unfold init, load_values. now rewrite Hnone. }
    split.
    + intros Hw. cbv zeta. rewrite Hinit. unfold save.
      cbn [config_path defaults]. rewrite Hw. cbn [snd].
      split; [reflexivity|].
      unfold init.
      destruct (load_values_written path
                  {| files := <[path := Document (to_dump defaults)]> (files d);
                     write_error := write_error d |} defaults) as [Hok _].
      { cbn [files]. apply lookup_insert_eq. }
      rewrite (Hok Hv). reflexivity.
    + intros e Hw. rewrite Hinit. unfold save.
      cbn [config_path defaults]. now rewrite Hw.
  - intros [c Hfile]. unfold init, load.
    destruct (load_values path d) as [[[[o f] rois] fmts]|e] eqn:Hrun.
    + cbn [fst snd]. split; [reflexivity|]. intros self ->.
      now rewrite Hrun.
    + assert (Hnot : forall msg, e <> FileNotFoundError msg).
      { intros msg ->. unfold load_values in Hrun. rewrite Hfile in Hrun.
        destruct c as [data|]; [|discriminate].
        apply (load_document_found path d data msg Hfile).
        unfold load_values. now rewrite Hfile. }
      destruct e; try (cbn [fst snd]; split; [reflexivity|];
                       intros self ->; now rewrite Hrun).
      now destruct (Hnot msg).
Qed.

End AppConfigMore.

(** ** Importing a file: the check of the extension *)

Section ImportMore.

Import VideoHandler ConfigManager VideoImport Settings Paths.

Lemma chars_app (a b : string) : chars (a ++ b) = chars a ++ chars b.
Proof.
  unfold chars. induction a as [|c a IH]; [reflexivity|].
  rewrite append_cons. cbn [list_ascii_of_string app]. now rewrite IH.
Qed.

Lemma string_of_chars (s : string) : string_of_list_ascii (chars s) = s.
Proof. apply string_of_list_ascii_of_string. Qed.

Lemma string_of_list_app (a b : list ascii) :
  string_of_list_ascii (a ++ b)
  = (string_of_list_ascii a ++ string_of_list_ascii b)%string.
Proof.
  induction a as [|c a IH]; [reflexivity|].
  cbn [app string_of_list_ascii]. now rewrite append_cons, IH.
Qed.

Lemma rfind_from_app (c : ascii) (a b : list ascii) :
  forall i best,
    rfind_from c (a ++ b) i best
    = rfind_from c b (i + Z.of_nat (length a)) (rfind_from c a i best).
Proof.
  induction a as [|x a IH]; intros i best; cbn [app rfind_from length].
  - now rewrite Z.add_0_r.
  - rewrite IH. f_equal. lia.
Qed.

Lemma rfind_from_absent (c : ascii) (l : list ascii) :
  c ∉ l -> forall i best, rfind_from c l i best = best.
Proof.
  induction l as [|x l IH]; intros Hc i best; [reflexivity|].
  cbn [rfind_from]. apply not_elem_of_cons in Hc as [Hx Hl].
  destruct (Ascii.eqb x c) eqn:E; [apply Ascii.eqb_eq in E; congruence|].
  now apply IH.
Qed.

Lemma rfind_from_bound (c : ascii) (l : list ascii) :
  forall i best,
    best < i -> rfind_from c l i best < i + Z.of_nat (length l).
Proof.
  induction l as [|x l IH]; intros i best Hb; cbn [rfind_from length]; [lia|].
  specialize (IH (i + 1) (if Ascii.eqb x c then i else best)).
  destruct (Ascii.eqb x c); lia.
Qed.

Lemma rfind_last (c : ascii) (a b : list ascii) :
  c ∉ b -> rfind c (a ++ c :: b) = Z.of_nat (length a).
Proof.
  intros Hb. unfold rfind. rewrite rfind_from_app. cbn [rfind_from].
  rewrite Ascii.eqb_refl. now rewrite rfind_from_absent.
Qed.

Lemma list_last_cases {A : Type} (l : list A) :
  l = [] \/ exists l0 c0, l = l0 ++ [c0].
Proof.
  induction l as [|c0 l0 _] using rev_ind; [now left|right; eauto].
Qed.

(** The last slash of a path is the one that ends its directory part. *)
Lemma rfind_sep (dir : string) (name : list ascii) :
  dir_prefix dir -> "/"%char ∉ name ->
  rfind "/" (chars dir ++ name) + 1 = Z.of_nat (length (chars dir)).
Proof.
  intros [->|[d ->]] Hname.
  - cbn [chars list_ascii_of_string app length]. unfold rfind.
    now rewrite rfind_from_absent.
  - rewrite chars_app. change (chars "/") with ["/"%char].
    rewrite <- app_assoc. cbn [app]. rewrite rfind_last by exact Hname.
    rewrite length_app. cbn [length]. lia.
Qed.

(** A name with a stem and an extension is split at its last dot. *)
Lemma splitext_extension (dir stem ext : string) :
  dir_prefix dir -> stem_ok stem -> ext_ok ext ->
  splitext (dir ++ stem ++ "." ++ ext)
  = ((dir ++ stem)%string, ("." ++ ext)%string).
Proof.
  intros Hdir [Hstem (c & Hc & Hdot)] [Hext1 Hext2]. unfold splitext.
  fold (chars (dir ++ stem ++ "." ++ ext)). rewrite !chars_app.
  change (chars ".") with ["."%char]. cbn [app]. cbv zeta.
  assert (Hsep : rfind "/" (chars dir ++ chars stem ++ "."%char :: chars ext)
                 + 1 = Z.of_nat (length (chars dir))).
  { apply rfind_sep; [exact Hdir|].
    rewrite not_elem_of_app, not_elem_of_cons. split; [exact Hstem|].
    split; [discriminate|exact Hext1]. }
  assert (Hdotidx : rfind "." (chars dir ++ chars stem ++ "."%char :: chars ext)
                    = Z.of_nat (length (chars dir ++ chars stem))).
  { rewrite app_assoc. now apply rfind_last. }
  rewrite Hdotidx, Hsep. rewrite length_app.
  replace (rfind "/" _) with (Z.of_nat (length (chars dir)) - 1) by lia.
  assert (Hlt : (Z.of_nat (length (chars dir)) - 1
                 <? Z.of_nat (length (chars dir) + length (chars stem)))
                = true) by (apply Z.ltb_lt; lia).
  rewrite Hlt. cbn [andb].
  replace (Z.to_nat (Z.of_nat (length (chars dir) + length (chars stem))
                     - Z.of_nat (length (chars dir))))
    with (length (chars stem)) by lia.
  rewrite !Nat2Z.id. rewrite drop_app_length.
  rewrite take_app_length.
  assert (Hex : existsb (fun c0 => negb (Ascii.eqb c0 ".")) (chars stem) = true).
  { apply existsb_exists. exists c. split; [now apply list_elem_of_In|].
    destruct (Ascii.eqb c ".") eqn:E; [apply Ascii.eqb_eq in E; congruence|].
    reflexivity. }
  rewrite Hex. rewrite app_assoc.
  rewrite <- (length_app (chars dir) (chars stem)).
  rewrite take_app_length, drop_app_length.
  rewrite string_of_list_app. cbn [string_of_list_ascii].
  rewrite !string_of_chars. now rewrite append_cons, append_nil.
Qed.

(** A name without a dot, or whose only dots are leading ones, has no
    extension. *)
Lemma splitext_no_extension (dir lead rest : string) :
  dir_prefix dir -> dots lead ->
  ("/"%char ∉ chars rest) -> ("."%char ∉ chars rest) ->
  splitext (dir ++ lead ++ rest) = ((dir ++ lead ++ rest)%string, EmptyString).
Proof.
  intros Hdir Hlead Hrest1 Hrest2. unfold splitext.
  fold (chars (dir ++ lead ++ rest)). rewrite !chars_app. cbv zeta.
  assert (Hsep : rfind "/" (chars dir ++ chars lead ++ chars rest) + 1
                 = Z.of_nat (length (chars dir))).
  { apply rfind_sep; [exact Hdir|].
    rewrite not_elem_of_app. split; [|exact Hrest1].
    intros Hin. unfold dots in Hlead. rewrite Forall_forall in Hlead.
    specialize (Hlead _ Hin). discriminate. }
  destruct (list_last_cases (chars lead)) as [El|(l0 & c0 & El)];
    unfold dots in Hlead; rewrite El in *.
  - cbn [app] in *.
    assert (Hdot : rfind "." (chars dir ++ chars rest)
                   < Z.of_nat (length (chars dir))).
    { unfold rfind. rewrite rfind_from_app.
      rewrite rfind_from_absent by exact Hrest2.
      apply (rfind_from_bound "." (chars dir) 0 (-1)). lia. }
    destruct (_ <? _) eqn:E; [apply Z.ltb_lt in E; lia|]. reflexivity.
  - apply Forall_app in Hlead as [Hl0 Hc0].
    apply Forall_cons in Hc0 as [-> _].
    assert (Hdotidx : rfind "." (chars dir ++ (l0 ++ ["."%char]) ++ chars rest)
                      = Z.of_nat (length (chars dir ++ l0))).
    { rewrite <- !app_assoc. cbn [app]. rewrite app_assoc.
      now apply rfind_last. }
    rewrite Hdotidx, length_app.
    replace (rfind "/" _) with (Z.of_nat (length (chars dir)) - 1)
      by (rewrite <- Hsep; lia).
    replace (Z.to_nat (Z.of_nat (length (chars dir)) - 1 + 1))
      with (length (chars dir)) by lia.
    replace (Z.to_nat (Z.of_nat (length (chars dir) + length l0)
                       - (Z.of_nat (length (chars dir)) - 1 + 1)))
      with (length l0) by lia.
    rewrite drop_app_length, <- !app_assoc, take_app_length.
    assert (Hex : existsb (fun c => negb (Ascii.eqb c ".")) l0 = false).
    { clear -Hl0. induction Hl0 as [|x l -> _ IH]; [reflexivity|].
      cbn [existsb]. now rewrite Ascii.eqb_refl. }
    rewrite Hex, andb_false_r. reflexivity.
Qed.

Lemma lstrip_dots_extension (ext : string) :
  ("."%char ∉ chars ext) -> lstrip_dots ("." ++ ext) = ext.
Proof.
  intros Hext. rewrite append_cons, append_nil. cbn [lstrip_dots].
  destruct ext as [|c ext]; [reflexivity|].
  unfold chars in Hext. cbn [list_ascii_of_string] in Hext.
  apply not_elem_of_cons in Hext as [Hc _]. cbn [lstrip_dots].
  destruct c as [[] [] [] [] [] [] [] []]; try reflexivity. congruence.
Qed.

(** X25. The extension check of [import_video_from_file], for a valid
    configuration and a path that is a file.  For a last component
    [<stem>.<ext>] the check looks at [<ext>] in lower case, so that upper
    and lower case in the file name make no difference: the import goes on
    to probe the file exactly when that is one of the supported formats,
    and then returns a video without identity, of source type [file],
    without URL, under the absolute path; otherwise it raises [AppError]
    ([Unsupported file format.]) naming the extension.  A last component
    without a dot, or with leading dots only, such as [.mp4], is always
    refused. *)
Theorem import_checks_extension (h : host) (config : AppConfig.t)
    (dir : string) :
  valid config -> dir_prefix dir ->
  (forall stem ext,
     stem_ok stem -> ext_ok ext ->
     let file_path := (dir ++ stem ++ "." ++ ext)%string in
     let wanted := AppConfig.lower ext in
     isfile h file_path = true ->
     (wanted ∈ AppConfig.supported_file_formats config ->
      import_video_from_file h config file_path
      = match probe_video_metadata h file_path with
        | Raise e => Raise e
        | Ok (duration, resolution) =>
            Ok {| video_id := None; source_type := "file";
                  source_path := abspath h file_path; original_url := None;
                  duration := duration; resolution := resolution;
                  import_timestamp := utcnow_isoformat h |}
        end) /\
     (wanted ∉ AppConfig.supported_file_formats config ->
      import_video_from_file h config file_path
      = Raise (AppError "Unsupported file format." wanted))) /\
  (forall lead rest,
     dots lead -> ("/"%char ∉ chars rest) -> ("."%char ∉ chars rest) ->
     let file_path := (dir ++ lead ++ rest)%string in
     isfile h file_path = true ->
     import_video_from_file h config file_path
     = Raise (AppError "Unsupported file format." EmptyString)).
Proof.
  intros (_ & _ & _ & _ & Hfmts) Hdir. split.
  - intros stem ext Hstem Hext file_path wanted Hfile.
    subst file_path wanted.
    unfold import_video_from_file. rewrite Hfile. cbn [negb]. cbv zeta.
    rewrite (splitext_extension dir stem ext Hdir Hstem Hext).
    cbn [snd]. rewrite (lstrip_dots_extension ext (proj2 Hext)).
    split; intros Hw.
    + now rewrite (bool_decide_eq_true_2 _ Hw).
    + now rewrite (bool_decide_eq_false_2 _ Hw).
  - intros lead rest Hlead Hr1 Hr2 file_path Hfile.
    subst file_path.
    unfold import_video_from_file. rewrite Hfile. cbn [negb]. cbv zeta.
    rewrite (splitext_no_extension dir lead rest Hdir Hlead Hr1 Hr2).
    cbn [snd lstrip_dots AppConfig.lower].
    rewrite bool_decide_eq_false_2; [reflexivity|].
    intros Hin. rewrite Forall_forall in Hfmts.
    destruct (Hfmts _ Hin) as [Hblank _]. now apply Hblank.
Qed.

Lemma import_checks_extension_witness :
  let h := host_printing "no video here" in
  (import_video_from_file h Paths.config "videos/holiday.MP4"
   = Raise (AppError "Cannot read video metadata."
              "Unexpected ffprobe output: no video here")) /\
  (import_video_from_file h Paths.config "videos/holiday.webm"
   = Raise (AppError "Unsupported file format." "webm")) /\
  (import_video_from_file h Paths.config "videos/.mp4"
   = Raise (AppError "Unsupported file format." EmptyString)).
Proof.
  intros h.
  assert (Hv : valid Paths.config).
  { unfold valid. cbn. split; [discriminate|]. split; [discriminate|].
    split; [reflexivity|]. split; [constructor|].
    repeat constructor; discriminate. }
  assert (Hdir : dir_prefix "videos/") by (right; now exists "videos").
  assert (Hstem : stem_ok "holiday").
  { split.
    - apply (bool_decide_unpack _). vm_compute. exact I.
    - exists "h"%char. split; [apply list_elem_of_here|discriminate]. }
  destruct (import_checks_extension h Paths.config "videos/" Hv Hdir)
    as [Hext Hnone].
  split; [|split].
  - refine (proj1 (Hext "holiday" "MP4" Hstem _ eq_refl) _).
    + split; apply (bool_decide_unpack _); vm_compute; exact I.
    + apply list_elem_of_here.
  - refine (proj2 (Hext "holiday" "webm" Hstem _ eq_refl) _).
    + split; apply (bool_decide_unpack _); vm_compute; exact I.
    + apply (bool_decide_unpack _). vm_compute. exact I.
  - refine (Hnone "." "mp4" _ _ _ eq_refl).
    + repeat constructor.
    + apply (bool_decide_unpack _). vm_compute. exact I.
    + apply (bool_decide_unpack _). vm_compute. exact I.
Defined.

End ImportMore.

(** ** Probing a file: what is read from the output of ffprobe *)

Section ProbeMore.

Import VideoHandler VideoImport Paths.

Lemma append_empty (s : string) : (s ++ "")%string = s.
Proof.
  induction s as [|c s IH]; [reflexivity|]. now rewrite append_cons, IH.
Qed.

Lemma rstrip_spaces (s t : string) :
  Forall (fun c => is_space c = true) (chars t) ->
  rstrip (s ++ t) = rstrip s.
Proof.
  intros Ht. induction s as [|c s IH].
  - rewrite append_nil. induction t as [|d t IHt]; [reflexivity|].
    unfold chars in Ht. cbn [list_ascii_of_string] in Ht.
    apply Forall_cons in Ht as [Hd Ht].
    rewrite rstrip_cons, (IHt Ht), Hd. reflexivity.
  - rewrite append_cons, !rstrip_cons, IH. reflexivity.
Qed.

Lemma rstrip_fixed (s : string) (c : ascii) :
  is_space c = false ->
  rstrip (s ++ String c EmptyString) = (s ++ String c EmptyString)%string.
Proof.
  intros Hc. induction s as [|a s IH].
  - rewrite append_nil. cbn [rstrip]. now rewrite Hc.
  - rewrite append_cons, rstrip_cons, IH.
    destruct s; [rewrite append_nil|rewrite append_cons]; reflexivity.
Qed.

Lemma word_ends (l : string) :
  word l -> exists s c, l = (s ++ String c EmptyString)%string
                        /\ is_space c = false.
Proof.
  intros [Hne Hl]. induction l as [|a l IH]; [contradiction|].
  unfold chars in Hl. cbn [list_ascii_of_string] in Hl.
  apply Forall_cons in Hl as [Ha Hl]. destruct l as [|b l].
  - exists EmptyString, a. now rewrite append_nil.
  - destruct (IH ltac:(discriminate) Hl) as (s & c & -> & Hc).
    exists (String a s), c. now rewrite append_cons.
Qed.

Lemma word_head (l rest : string) :
  word l ->
  match (l ++ rest)%string with
  | String c _ => is_space c = false
  | EmptyString => True
  end.
Proof.
  intros [Hne Hl]. destruct l as [|a l]; [contradiction|].
  rewrite append_cons. unfold chars in Hl. cbn [list_ascii_of_string] in Hl.
  now apply Forall_cons in Hl as [Ha _].
Qed.

Lemma shown_app (a b : list string) :
  shown (a ++ b) = (shown a ++ shown b)%string.
Proof.
  induction a as [|l a IH]; cbn [app shown]; [now rewrite append_nil|].
  now rewrite IH, !append_assoc.
Qed.

(** Stripping the output takes the last line break away and nothing
    else. *)
Lemma strip_shown (ls : list string) (l : string) :
  Forall word ls -> word l ->
  strip (shown (ls ++ [l])) = (shown ls ++ l)%string.
Proof.
  intros Hls Hl. rewrite shown_app. cbn [shown]. unfold strip.
  rewrite lstrip_fixed.
  - rewrite append_empty, <- !append_assoc.
    rewrite rstrip_spaces by (repeat constructor).
    destruct (word_ends l Hl) as (s & c & -> & Hc).
    rewrite <- append_assoc. now apply rstrip_fixed.
  - destruct Hls as [|l0 ls Hl0 _]; cbn [shown].
    + rewrite append_nil. now apply word_head.
    + rewrite append_assoc. now apply word_head.
Qed.

Lemma splitlines_from_line (l rest line : string) :
  Forall (fun c => is_space c = false) (chars l) ->
  splitlines_from (l ++ rest) line = splitlines_from rest (line ++ l).
Proof.
  revert line. induction l as [|c l IH]; intros line Hl.
  - now rewrite append_nil, append_empty.
  - unfold chars in Hl. cbn [list_ascii_of_string] in Hl.
    apply Forall_cons in Hl as [Hc Hl]. rewrite append_cons.
    cbn [splitlines_from].
    assert (Hb : is_linebreak c = false).
    { revert Hc. clear.
      destruct c as [[] [] [] [] [] [] [] []]; vm_compute; congruence. }
    rewrite Hb, (IH _ Hl). f_equal.
    now rewrite append_assoc, append_cons, append_nil.
Qed.

Lemma splitlines_from_newline (rest line : string) :
  splitlines_from (Samples.newline ++ rest) line
  = line :: splitlines_from rest EmptyString.
Proof.
  unfold Samples.newline. rewrite append_cons, append_nil.
  destruct rest; reflexivity.
Qed.

Lemma splitlines_shown (ls : list string) (rest : string) :
  Forall word ls ->
  splitlines_from (shown ls ++ rest) EmptyString
  = ls ++ splitlines_from rest EmptyString.
Proof.
  induction 1 as [|l ls [_ Hl] _ IH]; cbn [shown app];
    [now rewrite append_nil|].
  rewrite !append_assoc, (splitlines_from_line _ _ _ Hl).
  rewrite splitlines_from_newline, append_nil. now rewrite IH.
Qed.

(** The lines of the stripped output are the printed values. *)
Lemma splitlines_strip_shown (lines : list string) :
  Forall word lines -> splitlines (strip (shown lines)) = lines.
Proof.
  intros Hall.
  destruct (list_last_cases lines) as [->|(ls & l & ->)]; [reflexivity|].
  apply Forall_app in Hall as [Hls Hl]. apply Forall_cons in Hl as [Hl _].
  rewrite (strip_shown ls l Hls Hl). unfold splitlines.
  rewrite (splitlines_shown ls l Hls). f_equal.
  rewrite <- (append_empty l) at 1.
  rewrite (splitlines_from_line l "" "" (proj2 Hl)), append_nil.
  destruct Hl as [Hne _]. destruct l; [contradiction|reflexivity].
Qed.

(** X30. What [probe_video_metadata] reads when ffprobe prints values
    without white space, each on a line of its own.  With fewer than three
    values it raises [AppError] ([Cannot read video metadata.]), the
    internal message quoting the output.  Otherwise the first value goes to
    [int()] as the width, the second to [int()] as the height and the third
    to [float()] as the duration, in this order; the first that is refused
    ends the call with [AppError] and the text of the refusal; if none is,
    the result is the duration paired with (width, height).  Values behind
    the third are never looked at. *)
Theorem probe_reads_printed_values (h : host) (file_path : string)
    (lines : list string) :
  Forall word lines ->
  ffprobe h file_path = Printed (shown lines) ->
  let failed text : result (float * (Z * Z)) :=
    Raise (AppError "Cannot read video metadata." text) in
  ((length lines < 3)%nat ->
   probe_video_metadata h file_path
   = failed ("Unexpected ffprobe output: " ++ shown lines)%string) /\
  (forall w hh d more,
     lines = w :: hh :: d :: more ->
     probe_video_metadata h file_path
     = match int_ h w with
       | inl text => failed text
       | inr width =>
           match int_ h hh with
           | inl text => failed text
           | inr height =>
               match float_ h d with
               | inl text => failed text
               | inr duration => Ok (duration, (width, height))
               end
           end
       end).
Proof.
  intros Hall Hrun failed. unfold probe_video_metadata. rewrite Hrun.
  cbv zeta. rewrite (splitlines_strip_shown lines Hall). split.
  - intros Hlen. apply Nat.ltb_lt in Hlen. now rewrite Hlen.
  - intros w hh d more ->. reflexivity.
Qed.

Lemma probe_reads_printed_values_witness :
  (probe_video_metadata (host_reading (shown ["1920"; "1080"; "15.25"]))
     "dummy.mp4"
   = Ok (15.25%Q, (1920, 1080))) /\
  (probe_video_metadata (host_reading (shown ["1920"; "1080"; "N/A"; "7"]))
     "dummy.mp4"
   = Raise (AppError "Cannot read video metadata."
              "could not convert string to float: N/A")) /\
  (probe_video_metadata (host_reading (shown ["1920"; "1080"])) "dummy.mp4"
   = Raise (AppError "Cannot read video metadata."
              ("Unexpected ffprobe output: " ++ shown ["1920"; "1080"]))).
Proof.
  assert (Hw : forall s,
             s <> EmptyString ->
             forallb (fun c => negb (is_space c)) (chars s) = true ->
             word s).
  { intros s H1 H2. split; [exact H1|].
    apply Forall_forall. intros c Hc. apply list_elem_of_In in Hc.
    rewrite forallb_forall in H2. specialize (H2 c Hc).
    now destruct (is_space c). }
  split; [|split].
  - refine (proj2 (probe_reads_printed_values
                     (host_reading (shown ["1920"; "1080"; "15.25"]))
                     "dummy.mp4" ["1920"; "1080"; "15.25"] _ eq_refl)
              "1920" "1080" "15.25" [] eq_refl).
    repeat constructor; apply Hw; (discriminate || reflexivity).
  - refine (proj2 (probe_reads_printed_values
                     (host_reading (shown ["1920"; "1080"; "N/A"; "7"]))
                     "dummy.mp4" ["1920"; "1080"; "N/A"; "7"] _ eq_refl)
              "1920" "1080" "N/A" ["7"] eq_refl).
    repeat constructor; apply Hw; (discriminate || reflexivity).
  - refine (proj1 (probe_reads_printed_values
                     (host_reading (shown ["1920"; "1080"]))
                     "dummy.mp4" ["1920"; "1080"] _ eq_refl) _).
    + repeat constructor; apply Hw; (discriminate || reflexivity).
    + cbn. lia.
Defined.

End ProbeMore.
